(** * Cable monitor: the position and current pipeline of Core/Src/calculations.c

    The development embeds the acquisition cycle driven by [calculate_pos]:
    the averaging of the 50 Hz magnitudes, the look-up of the pad distances,
    the law-of-cosines position solver, the current estimator and the display
    bounds check.  The file-level statics of calculations.c become one record
    that every function takes and returns.

    Numbers are modelled as the C code has them on the STM32F429 target:
    [int], [int32_t] and [uint32_t] are 32-bit integers with their wrap-around
    written out, [double] is IEEE 754 binary64 and [float] is binary32, both
    through the executable specification of the Standard Library
    ([SpecFloat]).  Reads and writes outside an array have no defined
    behaviour in C: the functions that index an array return [None] there.

    Around the pipeline the development also embeds the sample buffers of
    calculations.c ([split_Array], [clear_Buffer]), the tone functions of
    buzzer.c, the touch menu of menu.c and, from the loop of [main], the
    choice of task and view and the buzzer feedback. *)

From Stdlib Require Import ZArith Lia Bool SpecFloat String.
From stdpp Require Import base option list.

#[local] Open Scope Z_scope.

(** ** 32-bit integers *)

Module CInt.

Definition INT_MAX : Z := 2147483647.
Definition INT_MIN : Z := -2147483648.

(** Reduction of a mathematical integer to the [int] it is stored as. *)
Definition wrap32 (z : Z) : Z := (z + 2147483648) mod 4294967296 - 2147483648.

(** Reduction to a [uint32_t]. *)
Definition to_uint32 (z : Z) : Z := z mod 4294967296.

Definition in_int (z : Z) : Prop := INT_MIN <= z <= INT_MAX.

Definition iadd (a b : Z) : Z := wrap32 (a + b).
Definition isub (a b : Z) : Z := wrap32 (a - b).
Definition imul (a b : Z) : Z := wrap32 (a * b).
Definition ineg (a : Z) : Z := wrap32 (- a).

(** [a / b] on [int]: truncation toward zero; no result for a zero divisor. *)
Definition idiv (a b : Z) : option Z :=
  if b =? 0 then None else Some (wrap32 (Z.quot a b)).

(** [acc += v] with [acc] an [int32_t] and [v] a [uint32_t]: the sum is formed
    modulo 2^32 and stored back into the signed variable. *)
Definition iadd_u32 (acc v : Z) : Z := wrap32 (to_uint32 acc + v).

End CInt.
Export CInt.

(** ** IEEE 754 doubles and floats *)

Module CDouble.

Definition double : Type := spec_float.

Definition dadd : double -> double -> double := SFadd 53 1024.
Definition dsub : double -> double -> double := SFsub 53 1024.
Definition dmul : double -> double -> double := SFmul 53 1024.
Definition ddiv : double -> double -> double := SFdiv 53 1024.
Definition dlt : double -> double -> bool := SFltb.
Definition dle : double -> double -> bool := SFleb.
Definition fabs : double -> double := SFabs.

(** [(double) z] for an integer [z]: exact below 2^53. *)
Definition Z2D (z : Z) : double := binary_normalize 53 1024 z 0 false.

(** [(float) z] and the narrowing of a [double] stored into a [float]. *)
Definition Z2F (z : Z) : spec_float := binary_normalize 24 128 z 0 false.
Definition D2F (x : double) : spec_float :=
  match x with
  | S754_finite s m e => binary_round 24 128 s m e
  | _ => x
  end.

(** [(int) x]: the fraction is discarded.  C defines no result when the
    value does not fit; the target's conversion routine saturates and maps
    a NaN to 0, which is what is written out here. *)
Definition D2I (x : double) : Z :=
  match x with
  | S754_zero _ | S754_nan => 0
  | S754_infinity s => if s then INT_MIN else INT_MAX
  | S754_finite s m e =>
      let mag := if 0 <=? e then Z.pos m * 2 ^ e else Z.pos m / 2 ^ (- e) in
      let v := if s then - mag else mag in
      Z.max INT_MIN (Z.min INT_MAX v)
  end.

(** [M_PI] of math.h: 0x1.921fb54442d18p+1. *)
Definition M_PI : double := S754_finite false 7074237752028440 (-51).

End CDouble.
Export CDouble.

(** ** error_code.h *)

Definition FFT_NO_SIGNAL : Z := 1111.
Definition CALC_OUTOF_Y_RANGE : Z := 2222.
Definition CALC_OUTOF_X_RANGE : Z := 2333.
Definition CALC_OUTOF_ANGLE_RANGE : Z := 2444.
Definition CURR_OUTOF_Y_RANGE : Z := 4444.
Definition CURR_OUTOF_Angle_RANGE : Z := 4555.

(** ** The defines of calculations.c *)

Definition FFT_AVG_NUMS : nat := 3.
Definition PAD_SPACING : Z := 50.
(** Decimal constants are the doubles nearest to them: the quotient of two
    exactly representable integers, correctly rounded. *)
Definition RAD_TO_DEGREE : double := ddiv (Z2D 57295779513) (Z2D 1000000000).
Definition MAX_Y_DISTANCE : Z := 200.
Definition MAX_X_DISTANCE : Z := 100.
Definition CURRENT_FACTOR : double := ddiv (Z2D 357) (Z2D 1000).

(** ** The statics of calculations.c *)

Record state : Type := mkState {
  LPAD_FFT_avg_array : list Z;
  RPAD_FFT_avg_array : list Z;
  LHALL_FFT_avg_array : list Z;
  RHALL_FFT_avg_array : list Z;
  LPAD_FFT_distance : Z;
  RPAD_FFT_distance : Z;
  LHALL_FFT_voltage : Z;
  RHALL_FFT_voltage : Z;
  X_Pos : Z;
  Y_Pos : Z;
  Gamma : double;
  current : spec_float;
  avg_counter : Z;
  num_of_samples : Z
}.

Definition set_avg_arrays (la ra lh rh : list Z) (s : state) : state :=
  mkState la ra lh rh
    (LPAD_FFT_distance s) (RPAD_FFT_distance s) (LHALL_FFT_voltage s) (RHALL_FFT_voltage s)
    (X_Pos s) (Y_Pos s) (Gamma s) (current s) (avg_counter s) (num_of_samples s).

Definition set_averages (ld rd lv rv : Z) (s : state) : state :=
  mkState (LPAD_FFT_avg_array s) (RPAD_FFT_avg_array s)
    (LHALL_FFT_avg_array s) (RHALL_FFT_avg_array s)
    ld rd lv rv
    (X_Pos s) (Y_Pos s) (Gamma s) (current s) (avg_counter s) (num_of_samples s).

Definition set_LPAD_FFT_distance (v : Z) (s : state) : state :=
  set_averages v (RPAD_FFT_distance s) (LHALL_FFT_voltage s) (RHALL_FFT_voltage s) s.

Definition set_RPAD_FFT_distance (v : Z) (s : state) : state :=
  set_averages (LPAD_FFT_distance s) v (LHALL_FFT_voltage s) (RHALL_FFT_voltage s) s.

Definition set_X_Pos (v : Z) (s : state) : state :=
  mkState (LPAD_FFT_avg_array s) (RPAD_FFT_avg_array s)
    (LHALL_FFT_avg_array s) (RHALL_FFT_avg_array s)
    (LPAD_FFT_distance s) (RPAD_FFT_distance s) (LHALL_FFT_voltage s) (RHALL_FFT_voltage s)
    v (Y_Pos s) (Gamma s) (current s) (avg_counter s) (num_of_samples s).

Definition set_Y_Pos (v : Z) (s : state) : state :=
  mkState (LPAD_FFT_avg_array s) (RPAD_FFT_avg_array s)
    (LHALL_FFT_avg_array s) (RHALL_FFT_avg_array s)
    (LPAD_FFT_distance s) (RPAD_FFT_distance s) (LHALL_FFT_voltage s) (RHALL_FFT_voltage s)
    (X_Pos s) v (Gamma s) (current s) (avg_counter s) (num_of_samples s).

Definition set_Gamma (v : double) (s : state) : state :=
  mkState (LPAD_FFT_avg_array s) (RPAD_FFT_avg_array s)
    (LHALL_FFT_avg_array s) (RHALL_FFT_avg_array s)
    (LPAD_FFT_distance s) (RPAD_FFT_distance s) (LHALL_FFT_voltage s) (RHALL_FFT_voltage s)
    (X_Pos s) (Y_Pos s) v (current s) (avg_counter s) (num_of_samples s).

Definition set_current (v : spec_float) (s : state) : state :=
  mkState (LPAD_FFT_avg_array s) (RPAD_FFT_avg_array s)
    (LHALL_FFT_avg_array s) (RHALL_FFT_avg_array s)
    (LPAD_FFT_distance s) (RPAD_FFT_distance s) (LHALL_FFT_voltage s) (RHALL_FFT_voltage s)
    (X_Pos s) (Y_Pos s) (Gamma s) v (avg_counter s) (num_of_samples s).

Definition set_avg_counter (v : Z) (s : state) : state :=
  mkState (LPAD_FFT_avg_array s) (RPAD_FFT_avg_array s)
    (LHALL_FFT_avg_array s) (RHALL_FFT_avg_array s)
    (LPAD_FFT_distance s) (RPAD_FFT_distance s) (LHALL_FFT_voltage s) (RHALL_FFT_voltage s)
    (X_Pos s) (Y_Pos s) (Gamma s) (current s) v (num_of_samples s).

Definition set_num_of_samples (v : Z) (s : state) : state :=
  mkState (LPAD_FFT_avg_array s) (RPAD_FFT_avg_array s)
    (LHALL_FFT_avg_array s) (RHALL_FFT_avg_array s)
    (LPAD_FFT_distance s) (RPAD_FFT_distance s) (LHALL_FFT_voltage s) (RHALL_FFT_voltage s)
    (X_Pos s) (Y_Pos s) (Gamma s) (current s) (avg_counter s) v.

(** The statics at reset: C zero-initialises them. *)
Definition startup : state :=
  mkState (replicate FFT_AVG_NUMS 0) (replicate FFT_AVG_NUMS 0)
    (replicate FFT_AVG_NUMS 0) (replicate FFT_AVG_NUMS 0)
    0 0 0 0 0 0 (S754_zero false) (S754_zero false) 0 0.

(** The four accessors read by main.c and menu.c. *)
Definition get_X_Pos (s : state) : Z := X_Pos s.
Definition get_Y_Pos (s : state) : Z := Y_Pos s.
Definition get_angle (s : state) : Z := D2I (Gamma s).
Definition get_current (s : state) : spec_float := current s.

(** ** One acquisition, as the pipeline receives it

    [MEAS_data_ready] is the flag of measuring.c.  [split_Array], the CMSIS
    transform [arm_rfft_fast_f32] and [hypot] lie outside calculations.c's own
    logic; what [calculate_FFT] stores is the 50 Hz magnitude of each channel
    after the cast to [uint32_t], and that is what an acquisition carries. *)

Record acquisition : Type := mkAcq {
  MEAS_data_ready : bool;
  LPAD_tone : Z;
  RPAD_tone : Z;
  LHALL_tone : Z;
  RHALL_tone : Z
}.

(** ** Array accesses *)

Definition write_slot (a : list Z) (i v : Z) : option (list Z) :=
  if (0 <=? i) && (i <? Z.of_nat (length a)) then Some (<[Z.to_nat i := v]> a) else None.

Definition read_slot (a : list Z) (i : Z) : option Z :=
  if 0 <=? i then a !! Z.to_nat i else None.

(** ** Values used in the examples

    A table that maps every magnitude of its domain to 50 mm, and coarse
    stand-ins for the maths library: an arc cosine that only tells acute from
    obtuse, and functions that return their (first) argument. *)

Definition flat_LUT : list Z := replicate 1300 50.

Definition coarse_acos (x : double) : double := if dle x (Z2D 0) then M_PI else Z2D 0.
Definition coarse_fn (x : double) : double := x.
Definition coarse_atan2 (y x : double) : double := y.

(** The float nearest to the decimal [num / den], for integers below 2^24. *)
Definition decimal_float (num den : Z) : spec_float := SFdiv 24 128 (Z2F num) (Z2F den).

(** An acquisition whose four magnitudes are given. *)
Definition tones (l r lh rh : Z) : acquisition := mkAcq true l r lh rh.

(** A state left by an earlier cycle: position (10, 20), angle 5 degrees,
    current 0.714 A. *)
Definition earlier_result : state :=
  set_current (decimal_float 714 1000)
    (set_Gamma (Z2D 5) (set_Y_Pos 20 (set_X_Pos 10 startup))).

(** The state after the first acquisition (300, 300, 100, 50) of a window of
    three, started at reset. *)
Definition after_first_cycle : state :=
  mkState [300; 0; 0] [300; 0; 0] [100; 0; 0] [50; 0; 0]
    0 0 0 0 CALC_OUTOF_X_RANGE CALC_OUTOF_Y_RANGE (Z2D CALC_OUTOF_ANGLE_RANGE)
    (S754_zero false) 1 3.

(** The arrays keep their capacity. *)
Definition arrays_sized (s : state) : Prop :=
  length (LPAD_FFT_avg_array s) = FFT_AVG_NUMS /\ length (RPAD_FFT_avg_array s) = FFT_AVG_NUMS
  /\ length (LHALL_FFT_avg_array s) = FFT_AVG_NUMS /\ length (RHALL_FFT_avg_array s) = FFT_AVG_NUMS.

(** The bound on the fill counter for a window of [W] acquisitions. *)
Definition counter_in_window (W : Z) (s : state) : Prop := 0 <= avg_counter s <= W - 1.

(** A double that is an infinity or a NaN. *)
Definition non_finite (x : double) : bool :=
  match x with
  | S754_infinity _ | S754_nan => true
  | _ => false
  end.

(** Conjunctions of closed facts, each settled by evaluation. *)
Ltac evaluate := vm_compute; reflexivity.
Ltac evaluate_all :=
  repeat (match goal with |- _ /\ _ => split end; [evaluate|]); evaluate.

(** ** Narrow integers

    The conversions to [uint8_t], [uint16_t] and [int16_t]. *)

Definition to_uint8 (z : Z) : Z := z mod 256.
Definition to_uint16 (z : Z) : Z := z mod 65536.
Definition to_int16 (z : Z) : Z := (z + 32768) mod 65536 - 32768.

(** ** buzzer.c

    The statics of the file and the part of the hardware that the functions
    below write: the prescaler register and the enable bit of timer 5, and
    the level of pin PA5. *)

Definition F_CLK : Z := 21000000.
Definition TIM_TOP : Z := 9.

Definition note : list Z :=
  [523; 554; 587; 622; 659; 698; 740; 784; 831; 880; 932; 988;
   1047; 1109; 1175; 1245; 1319; 1397; 1480; 1568; 1661; 1760; 1866; 1976].

Record buzzer : Type := mkBuzzer {
  flag_piezo : bool;
  flag_buzzer : bool;
  tim_prescaler : Z;
  TIM5_PSC : Z;
  TIM5_CEN : bool;
  PA5 : bool
}.

(** [tim_prescaler = p; TIM5->PSC = tim_prescaler;] *)
Definition store_prescaler (p : Z) (b : buzzer) : buzzer :=
  mkBuzzer (flag_piezo b) (flag_buzzer b) p p (TIM5_CEN b) (PA5 b).

(** [(F_CLK) / (freq * (TIM_TOP + 1) / 2)] for a [uint32_t freq]: the
    product and both quotients are formed in [uint32_t]; C defines no result
    for a zero divisor. *)
Definition freq_prescaler (freq : Z) : option Z :=
  let d := to_uint32 (freq * to_uint32 (TIM_TOP + 1)) / 2 in
  if d =? 0 then None else Some (F_CLK / d).

Definition BUZZER_set_freq (freq : Z) (b : buzzer) : option buzzer :=
  p ← freq_prescaler freq;
  Some (store_prescaler p b).

(** [(F_CLK) / (note[set_note] * (TIM_TOP + 1) / 2)]: [note[set_note]] is an
    [int16_t], so the arithmetic is on [int]; the quotient is stored into the
    [uint32_t] prescaler. *)
Definition note_prescaler (set_note : Z) : option Z :=
  n ← read_slot note set_note;
  d ← idiv (imul n (iadd TIM_TOP 1)) 2;
  p ← idiv F_CLK d;
  Some (to_uint32 p).

Definition BUZZER_set_note (set_note : Z) (b : buzzer) : option buzzer :=
  p ← note_prescaler set_note;
  Some (store_prescaler p b).

Definition BUZZER_turn_on (b : buzzer) : buzzer :=
  mkBuzzer (flag_piezo b) true (tim_prescaler b) (TIM5_PSC b) true (PA5 b).

Definition BUZZER_turn_off (b : buzzer) : buzzer :=
  mkBuzzer (flag_piezo b) false (tim_prescaler b) (TIM5_PSC b) false false.

Definition BUZZER_get_status (b : buzzer) : bool := flag_buzzer b.

(** ** menu.c

    The statics that the functions below read and write; [item_old] and
    [item_new] are the statics of [MENU_check_transition].  An item is the
    integer value of its [MENU_item_t] enumerator; on the target the
    enumeration type is one byte wide (the ARM EABI stores an enumeration in
    the smallest integer type that holds its enumerators), so a value stored
    into an item is reduced to a [uint8_t]. *)

Definition MENU_SINGLE : Z := 0.
Definition MENU_MULTI : Z := 1.
Definition MENU_CABLE : Z := 2.
Definition MENU_SUBTASK : Z := 3.
Definition MENU_NONE : Z := 4.

Definition MENU_ENTRY_COUNT : Z := 2.
Definition TITLE_HIGHT : Z := 45.
Definition MENU_HEIGHT : Z := 40.

Record MENU_entry_t : Type := mkEntry {
  line1 : String.string;
  line2 : String.string;
  text_color : Z;
  back_color : Z
}.

Record menu : Type := mkMenu {
  MENU_transition : Z;
  MENU_entry : list MENU_entry_t;
  x_circle_old : Z;
  y_circle_old : Z;
  item_old : Z;
  item_new : Z
}.

(** The state of the touch controller as [BSP_TS_GetState] reports it. *)
Record TS_StateTypeDef : Type := mkTS {
  TouchDetected : Z;
  X : Z;
  Y : Z
}.

Definition MENU_set_entry (item : Z) (entry : MENU_entry_t) (m : menu) : menu :=
  if (0 <=? item) && (MENU_ENTRY_COUNT >? item) then
    mkMenu (MENU_transition m) (<[Z.to_nat item := entry]> (MENU_entry m))
      (x_circle_old m) (y_circle_old m) (item_old m) (item_new m)
  else m.

Definition MENU_get_entry (item : Z) (m : menu) : option MENU_entry_t :=
  entry ← MENU_entry m !! 0%nat;
  if (0 <=? item) && (MENU_ENTRY_COUNT >? item) then MENU_entry m !! Z.to_nat item
  else Some entry.

Definition MENU_get_transition (m : menu) : Z * menu :=
  (MENU_transition m,
   mkMenu MENU_NONE (MENU_entry m) (x_circle_old m) (y_circle_old m) (item_old m) (item_new m)).

(** [MENU_Y], with the size of the display as [BSP_LCD_GetYSize] returns
    it. *)
Definition MENU_Y (YSize : Z) : Z := to_uint32 (YSize - MENU_HEIGHT).

Definition set_item_new (v : Z) (m : menu) : menu :=
  mkMenu (MENU_transition m) (MENU_entry m) (x_circle_old m) (y_circle_old m) (item_old m) v.

(** The test that ends each of the three branches of
    [MENU_check_transition]: the same item two times. *)
Definition same_item_twice (m : menu) : menu :=
  if item_new m =? item_old m then
    mkMenu (item_old m) (MENU_entry m) (x_circle_old m) (y_circle_old m) (item_old m) MENU_NONE
  else m.

(** The display size comes from the board support package and the two
    inversions of the touch axes are selected by defines of main.h; both
    are parameters here.  The quotient by the width of an entry has no result
    for a display less than two pixels wide, and is reduced to the one-byte
    item type when it is stored into [item_new], before the bounds test. *)
Definition MENU_check_transition (XSize YSize : Z) (EVAL_REV_E FLIPPED_LCD : bool)
  (TS_State : TS_StateTypeDef) (m : menu) : option menu :=
  let TS_State :=
    if EVAL_REV_E then
      mkTS (TouchDetected TS_State) (X TS_State) (to_uint16 (YSize - Y TS_State))
    else TS_State in
  let TS_State :=
    if FLIPPED_LCD then
      mkTS (TouchDetected TS_State) (to_uint16 (XSize - X TS_State))
           (to_uint16 (YSize - Y TS_State))
    else TS_State in
  if negb (TouchDetected TS_State =? 0) then
    if MENU_NONE =? MENU_transition m then
      let m := mkMenu (MENU_transition m) (MENU_entry m) (x_circle_old m) (y_circle_old m)
                 (item_new m) (item_new m) in
      if (MENU_Y YSize <? Y TS_State) && (to_uint32 (MENU_Y YSize + MENU_HEIGHT) >? Y TS_State)
      then
        let w := XSize / MENU_ENTRY_COUNT in
        if w =? 0 then None
        else
          let m := set_item_new (to_uint8 (X TS_State / w)) m in
          let m := if (0 >? item_new m) || (MENU_ENTRY_COUNT <=? item_new m)
                   then set_item_new MENU_NONE m else m in
          Some (same_item_twice m)
      else if (0 <? Y TS_State) && (TITLE_HIGHT >? Y TS_State) then
        Some (same_item_twice (set_item_new MENU_CABLE m))
      else
        Some (same_item_twice (set_item_new MENU_SUBTASK m))
    else Some m
  else Some m.

(** What the main loop does with the touch screen on each pass:
    [MENU_check_transition(); switch (MENU_get_transition())]. *)
Definition poll_menu (XSize YSize : Z) (EVAL_REV_E FLIPPED_LCD : bool)
  (TS_State : TS_StateTypeDef) (m : menu) : option (Z * menu) :=
  m ← MENU_check_transition XSize YSize EVAL_REV_E FLIPPED_LCD TS_State m;
  Some (MENU_get_transition m).

(** [MENU_visual_act]: its effect on the erase position, and the centre of
    the red circle of radius 10 that it draws when the position is in range
    ([None] when it draws none).  [y_distance] is a [uint16_t] parameter.
    The remaining calls draw the fixed scale and the two texts. *)
Definition MENU_visual_act (x_distance y_distance : Z) (m : menu) : menu * option (Z * Z) :=
  if negb (x_distance =? CALC_OUTOF_X_RANGE) && negb (y_distance =? CALC_OUTOF_Y_RANGE) then
    let x_circle := to_uint16 (120 + x_distance) in
    let y_circle := to_uint16 (220 - y_distance) in
    (mkMenu (MENU_transition m) (MENU_entry m) x_circle y_circle (item_old m) (item_new m),
     Some (x_circle, to_uint16 (y_circle + TITLE_HIGHT)))
  else (m, None).

(** The statics of menu.c at reset; the two entries are given. *)
Definition menu_reset (entries : list MENU_entry_t) : menu :=
  mkMenu MENU_NONE entries 20 20 MENU_NONE MENU_NONE.

(** The item that a touch designates, after the inversions of the axes:
    an entry of the menu bar (the quotient as [item_new] stores it), the
    title, or the rest of the screen. *)
Definition touched_item (XSize YSize : Z) (TS_State : TS_StateTypeDef) : Z :=
  if (MENU_Y YSize <? Y TS_State) && (to_uint32 (MENU_Y YSize + MENU_HEIGHT) >? Y TS_State)
  then
    let q := to_uint8 (X TS_State / (XSize / MENU_ENTRY_COUNT)) in
    if (0 >? q) || (MENU_ENTRY_COUNT <=? q) then MENU_NONE else q
  else if (0 <? Y TS_State) && (TITLE_HIGHT >? Y TS_State) then MENU_CABLE
  else MENU_SUBTASK.

(** The touch coordinates after the inversions. *)
Definition oriented (XSize YSize : Z) (EVAL_REV_E FLIPPED_LCD : bool)
  (TS_State : TS_StateTypeDef) : TS_StateTypeDef :=
  let TS_State :=
    if EVAL_REV_E then
      mkTS (TouchDetected TS_State) (X TS_State) (to_uint16 (YSize - Y TS_State))
    else TS_State in
  if FLIPPED_LCD then
    mkTS (TouchDetected TS_State) (to_uint16 (XSize - X TS_State))
         (to_uint16 (YSize - Y TS_State))
  else TS_State.

(** Successive polls of the main loop, with the items they report. *)
Fixpoint polls (XSize YSize : Z) (EVAL_REV_E FLIPPED_LCD : bool)
  (touches : list TS_StateTypeDef) (m : menu) : option (list Z * menu) :=
  match touches with
  | [] => Some ([], m)
  | t :: touches' =>
      r ← poll_menu XSize YSize EVAL_REV_E FLIPPED_LCD t m;
      rs ← polls XSize YSize EVAL_REV_E FLIPPED_LCD touches' r.2;
      Some (r.1 :: rs.1, rs.2)
  end.

(** The items of the enumeration [MENU_item_t]. *)
Definition is_item (i : Z) : Prop := MENU_SINGLE <= i <= MENU_NONE.

Definition menu_items_valid (m : menu) : Prop :=
  is_item (MENU_transition m) /\ is_item (item_new m).

(** ** The main loop of main.c: the choice of the task and of the view *)

Definition NOTHING : Z := 1.
Definition SINGLE_MEAS : Z := 2.
Definition AVERAGE_MEAS : Z := 3.
Definition MAX_SUBTASKS : Z := 2.
Definition SUB_VALUES : Z := 1.
Definition SUB_GRAPHIC : Z := 2.
Definition MAX_TABLES : Z := 1.
Definition TABLE_ONE_PHASE : Z := 1.
Definition TABLE_TWO_PHASE : Z := 2.
Definition MAX_DISTANCE : Z := 200.

(** The locals of [main] that select the task and the view.  [text] is the
    title buffer, which [main] does not initialise: [None] until the first
    [snprintf]. *)
Record settings : Type := mkSettings {
  task : Z;
  subtask : Z;
  table_cable : Z;
  task_old : Z;
  subttask_old : Z;
  table_cable_old : Z;
  responsive_counter : Z;
  flag_setting_change : bool;
  text : option String.string
}.

Definition main_start : settings :=
  mkSettings NOTHING SUB_GRAPHIC TABLE_ONE_PHASE NOTHING SUB_GRAPHIC TABLE_ONE_PHASE
    0 false None.

Definition set_task (v : Z) (m : settings) : settings :=
  mkSettings v (subtask m) (table_cable m) (task_old m) (subttask_old m) (table_cable_old m)
    (responsive_counter m) (flag_setting_change m) (text m).

Definition set_subtask (v : Z) (m : settings) : settings :=
  mkSettings (task m) v (table_cable m) (task_old m) (subttask_old m) (table_cable_old m)
    (responsive_counter m) (flag_setting_change m) (text m).

Definition set_table_cable (v : Z) (m : settings) : settings :=
  mkSettings (task m) (subtask m) v (task_old m) (subttask_old m) (table_cable_old m)
    (responsive_counter m) (flag_setting_change m) (text m).

Definition set_responsive_counter (v : Z) (m : settings) : settings :=
  mkSettings (task m) (subtask m) (table_cable m) (task_old m) (subttask_old m)
    (table_cable_old m) v (flag_setting_change m) (text m).

Definition set_text (v : String.string) (m : settings) : settings :=
  mkSettings (task m) (subtask m) (table_cable m) (task_old m) (subttask_old m)
    (table_cable_old m) (responsive_counter m) (flag_setting_change m) (Some v).

(** [++v; if (v > max) v = 1;] on a [uint8_t]. *)
Definition next_choice (v max : Z) : Z :=
  let v := to_uint8 (v + 1) in if max <? v then 1 else v.

(** [switch (MENU_get_transition())]. *)
Definition handle_transition (item : Z) (m : settings) : settings :=
  if item =? MENU_NONE then
    if responsive_counter m <? 10
    then set_responsive_counter (to_uint8 (responsive_counter m + 1)) m else m
  else if item =? MENU_SINGLE then set_task SINGLE_MEAS m
  else if item =? MENU_MULTI then set_task AVERAGE_MEAS m
  else if item =? MENU_CABLE then
    if negb (task m =? NOTHING) then
      let m := if 2 <? responsive_counter m
               then set_table_cable (next_choice (table_cable m) MAX_TABLES) m else m in
      set_responsive_counter 0 m
    else m
  else if item =? MENU_SUBTASK then
    if negb (task m =? NOTHING) then
      let m := if 2 <? responsive_counter m
               then set_subtask (next_choice (subtask m) MAX_SUBTASKS) m else m in
      set_responsive_counter 0 m
    else m
  else m.

(** The change flag, the stored old values, and the title written into
    [text] when something has changed. *)
Definition note_changes (m : settings) : settings :=
  let changed := negb (task_old m =? task m) || negb (subttask_old m =? subtask m)
                 || negb (table_cable_old m =? table_cable m) in
  let m := mkSettings (task m) (subtask m) (table_cable m) (task m) (subtask m) (table_cable m)
             (responsive_counter m) changed (text m) in
  if changed then
    if (task m =? SINGLE_MEAS) && (table_cable m =? TABLE_ONE_PHASE)
    then set_text "SINGLE: ONE PHASE"%string m
    else if (task m =? SINGLE_MEAS) && (table_cable m =? TABLE_TWO_PHASE)
    then set_text "SINGLE: TWO PHASE"%string m
    else if (task m =? AVERAGE_MEAS) && (table_cable m =? TABLE_ONE_PHASE)
    then set_text "AVERAGE: ONE PHASE"%string m
    else if (task m =? AVERAGE_MEAS) && (table_cable m =? TABLE_TWO_PHASE)
    then set_text "AVERAGE: TWO PHASE"%string m
    else m
  else m.

(** The layout function that [main] calls after a change, with the title it
    is given. *)
Inductive init_call : Type :=
| values_init (title : option String.string)
| visual_init (title : option String.string).

Definition init_called (m : settings) : option init_call :=
  if flag_setting_change m then
    if subtask m =? SUB_VALUES then Some (values_init (text m))
    else if subtask m =? SUB_GRAPHIC then Some (visual_init (text m))
    else None
  else None.

Definition title_of (c : init_call) : option String.string :=
  match c with values_init t | visual_init t => t end.

(** The first half of one pass of the loop, for the transition [item]. *)
Definition choose (item : Z) (m : settings) : settings :=
  note_changes (handle_transition item m).

(** Successive passes, for the transitions [items] in order. *)
Definition passes (items : list Z) (m : settings) : settings :=
  foldl (fun m item => choose item m) m items.

(** The title that belongs to a task. *)
Definition title_for (task : Z) : option String.string :=
  if task =? SINGLE_MEAS then Some "SINGLE: ONE PHASE"%string
  else if task =? AVERAGE_MEAS then Some "AVERAGE: ONE PHASE"%string
  else None.

(** What holds of the locals whenever a pass of the loop begins. *)
Definition settings_valid (m : settings) : Prop :=
  (task m = NOTHING \/ task m = SINGLE_MEAS \/ task m = AVERAGE_MEAS)
  /\ (subtask m = SUB_VALUES \/ subtask m = SUB_GRAPHIC)
  /\ table_cable m = TABLE_ONE_PHASE
  /\ 0 <= responsive_counter m <= 10
  /\ task_old m = task m /\ subttask_old m = subtask m /\ table_cable_old m = table_cable m
  /\ text m = title_for (task m)
  /\ (flag_setting_change m = true -> task m <> NOTHING).

(** The number of passes without a transition among [items]. *)
Definition idle_passes (items : list Z) : Z :=
  Z.of_nat (length (filter (fun i => i = MENU_NONE) items)).

(** The buzzer feedback at the end of a pass with [task != NOTHING]. *)
Definition buzzer_feedback (flag_blue_btn : bool) (x_distance y_distance : Z) (b : buzzer)
  : option buzzer :=
  if flag_blue_btn && negb (x_distance =? CALC_OUTOF_X_RANGE)
     && negb (y_distance =? CALC_OUTOF_Y_RANGE)
  then
    let b := if negb (BUZZER_get_status b) then BUZZER_turn_on b else b in
    BUZZER_set_note (to_uint8 (isub MAX_DISTANCE y_distance ÷ 10)) b
  else
    Some (if BUZZER_get_status b then BUZZER_turn_off b else b).

(** ** The sample buffers of calculations.c

    [ADC_NUMS] and [MEAS_return_data] belong to measuring.c; the functions
    on the buffers take the buffer size and the sample at each index of the
    interleaved ADC record, converted to [float32_t], as parameters. *)

Record buffers : Type := mkBuffers {
  LPAD_samples : list spec_float;
  RPAD_samples : list spec_float;
  LHALL_samples : list spec_float;
  RHALL_samples : list spec_float
}.

Definition write_sample (a : list spec_float) (i : Z) (v : spec_float)
  : option (list spec_float) :=
  if (0 <=? i) && (i <? Z.of_nat (length a)) then Some (<[Z.to_nat i := v]> a) else None.

(** One copying loop of [split_Array]: [i] starts at [first] and advances by
    4 while [j] counts the stores, so [i = first + 4 * j]; the body is run
    for the values [js] of [j] in order. *)
Fixpoint copy_channel (MEAS_return_data : Z -> spec_float) (first : Z) (js : list Z)
  (arr : list spec_float) : option (list spec_float) :=
  match js with
  | [] => Some arr
  | j :: js' =>
      arr ← write_sample arr j (MEAS_return_data (first + 4 * j));
      copy_channel MEAS_return_data first js' arr
  end.

Definition split_Array (ADC_NUMS : Z) (MEAS_return_data : Z -> spec_float) (b : buffers)
  : option buffers :=
  l ← copy_channel MEAS_return_data 0 (seqZ 0 ADC_NUMS) (LPAD_samples b);
  r ← copy_channel MEAS_return_data 1 (seqZ 0 ADC_NUMS) (RPAD_samples b);
  lh ← copy_channel MEAS_return_data 2 (seqZ 0 ADC_NUMS) (LHALL_samples b);
  rh ← copy_channel MEAS_return_data 3 (seqZ 0 ADC_NUMS) (RHALL_samples b);
  Some (mkBuffers l r lh rh).

(** The two stores that [clear_Buffer] makes into one array in one pass of
    its loop. *)
Definition clear_pair (arr : list spec_float) (i : Z) : option (list spec_float) :=
  arr ← write_sample arr (2 * i) (S754_zero false);
  write_sample arr (2 * i + 1) (S754_zero false).

(** The body of the loop of [clear_Buffer], run for the indices [idx] in
    order. *)
Fixpoint clear_pairs (idx : list Z) (b : buffers) : option buffers :=
  match idx with
  | [] => Some b
  | i :: idx' =>
      r ← clear_pair (RPAD_samples b) i;
      l ← clear_pair (LPAD_samples b) i;
      rh ← clear_pair (RHALL_samples b) i;
      lh ← clear_pair (LHALL_samples b) i;
      clear_pairs idx' (mkBuffers l r lh rh)
  end.

Definition clear_Buffer (ADC_NUMS : Z) (b : buffers) : option buffers :=
  clear_pairs (seqZ 0 (ADC_NUMS ÷ 2)) b.

(** The four buffers have [n] elements each. *)
Definition buffers_sized (n : Z) (b : buffers) : Prop :=
  Z.of_nat (length (LPAD_samples b)) = n /\ Z.of_nat (length (RPAD_samples b)) = n
  /\ Z.of_nat (length (LHALL_samples b)) = n /\ Z.of_nat (length (RHALL_samples b)) = n.

(** Channel [k] of the interleaved record: the samples at [k], [k + 4], ... *)
Definition channel (n : Z) (MEAS_return_data : Z -> spec_float) (k : Z) : list spec_float :=
  (fun j => MEAS_return_data (k + 4 * j)) <$> seqZ 0 n.

(** An array whose first [n] elements have been set to zero. *)
Definition cleared_to (n : Z) (arr : list spec_float) : list spec_float :=
  replicate (Z.to_nat n) (S754_zero false) ++ drop (Z.to_nat n) arr.

(** ** The display bounds

    A position that the display can take: X within the bound or flagged, Y
    not above the bound or flagged. *)
Definition displayable (s : state) : Prop :=
  (- MAX_X_DISTANCE <= X_Pos s <= MAX_X_DISTANCE \/ X_Pos s = CALC_OUTOF_X_RANGE)
  /\ (Y_Pos s <= MAX_Y_DISTANCE \/ Y_Pos s = CALC_OUTOF_Y_RANGE).

(** ** Values used in the further examples *)

(** A position beyond the X bound. *)
Definition over_the_edge : state := set_Y_Pos 20 (set_X_Pos 150 startup).

(** The state after one acquisition (300, 300, 100, 50) of a single
    measurement started at reset, with the table and the stand-ins above:
    both pads at 50 mm, position (25, 0). *)
Definition single_cycle_result : state :=
  mkState [300; 0; 0] [300; 0; 0] [100; 0; 0] [50; 0; 0]
    50 50 100 50 25 0 (S754_finite true 6333186975980660 (-46))
    (S754_finite false 9101312 (-11)) 0 1.

(** A window of three started at reset with the acquisitions
    (300, 300, 100, 50), (310, 290, 100, 50) and (290, 310, 100, 50): the
    state after the second, and the state after the third, which fills the
    window and publishes both pads at 50 mm and the position (25, 0). *)
Definition after_second_cycle : state :=
  mkState [300; 310; 0] [300; 290; 0] [100; 100; 0] [50; 50; 0]
    0 0 0 0 CALC_OUTOF_X_RANGE CALC_OUTOF_Y_RANGE (Z2D CALC_OUTOF_ANGLE_RANGE)
    (S754_zero false) 2 3.

Definition window_result : state :=
  mkState [300; 310; 290] [300; 290; 310] [100; 100; 100] [50; 50; 50]
    50 50 100 50 25 0 (S754_finite true 6333186975980660 (-46))
    (S754_finite false 9101312 (-11)) 0 3.

(** A table whose entries are all -50: a value that is not a length. *)
Definition negative_LUT : list Z := replicate 1300 (-50).

(** A pass of the loop that finds no new data. *)
Definition idle : acquisition := mkAcq false 0 0 0 0.

(** An interleaved record whose element [i] is the number [i], and buffers
    of two and of three samples. *)
Definition ramp (i : Z) : spec_float := Z2F i.

Definition two_samples : buffers :=
  mkBuffers [Z2F 7; Z2F 7] [Z2F 7; Z2F 7] [Z2F 7; Z2F 7] [Z2F 7; Z2F 7].

Definition three_samples : buffers :=
  mkBuffers [Z2F 1; Z2F 2; Z2F 3] [Z2F 1; Z2F 2; Z2F 3]
            [Z2F 1; Z2F 2; Z2F 3] [Z2F 1; Z2F 2; Z2F 3].

(** The buzzer after [BUZZER_init]. *)
Definition buzzer_idle : buzzer := mkBuzzer false false 2100 2100 false false.

(** Touches on a display of 240 by 320: on the left entry of the menu bar
    and on the data area; and a menu that has seen the left entry once. *)
Definition bar_left : TS_StateTypeDef := mkTS 1 10 300.
Definition data_area : TS_StateTypeDef := mkTS 1 200 100.
Definition no_touch : TS_StateTypeDef := mkTS 0 0 0.

Definition left_seen : menu := mkMenu MENU_NONE [] 20 20 MENU_NONE MENU_SINGLE.

Definition average_entry : MENU_entry_t := mkEntry "Average" "Measurement" 0 1.
Definition single_entry : MENU_entry_t := mkEntry "Single" "Measurement" 0 1.
Definition both_entry : MENU_entry_t := mkEntry "Both" "Measurements" 0 1.

(** Case analysis on the innermost condition of a conditional of the goal. *)
Ltac branch :=
  match goal with
  | |- context [if ?c then _ else _] =>
      lazymatch c with
      | context [if _ then _ else _] => fail
      | _ => destruct c eqn:?
      end
  end.

(** ** The pipeline

    The two calibration tables are compiled in from LPAD_lut.csv and
    RPAD_lut.csv, and [acos], [sin], [cos] and [atan2] come from the C maths
    library; neither is part of calculations.c, so the functions below take
    them as parameters. *)

Section Calculations.

Variables LPAD_LUT RPAD_LUT : list Z.
Variables acos sin cos : double -> double.
Variable atan2 : double -> double -> double.

(** *** distance_LUT *)

Definition LPAD_Max : Z := 1458.
Definition LPAD_Min : Z := 200.
Definition RPAD_Max : Z := 1466.
Definition RPAD_Min : Z := 200.

Definition distance_LUT (s : state) : option state :=
  s ← (if (LPAD_Min <? LPAD_FFT_distance s) && (LPAD_FFT_distance s <? LPAD_Max) then
         d ← read_slot LPAD_LUT (isub (LPAD_FFT_distance s) LPAD_Min);
         Some (set_LPAD_FFT_distance d s)
       else if LPAD_Max <? LPAD_FFT_distance s then
         Some (set_LPAD_FFT_distance 0 s)
       else
         Some (set_LPAD_FFT_distance FFT_NO_SIGNAL s));
  if (RPAD_Min <? RPAD_FFT_distance s) && (RPAD_FFT_distance s <? RPAD_Max) then
    d ← read_slot RPAD_LUT (isub (RPAD_FFT_distance s) RPAD_Min);
    Some (set_RPAD_FFT_distance d s)
  else if RPAD_Max <? RPAD_FFT_distance s then
    Some (set_RPAD_FFT_distance 0 s)
  else
    Some (set_RPAD_FFT_distance FFT_NO_SIGNAL s).

(** *** averaging_FFT_semples *)

(** The body of the summing loop, run for the indices [idx] in order. *)
Fixpoint sum_samples (idx : list Z) (s : state) : option state :=
  match idx with
  | [] => Some s
  | i :: idx' =>
      l ← read_slot (LPAD_FFT_avg_array s) i;
      r ← read_slot (RPAD_FFT_avg_array s) i;
      lh ← read_slot (LHALL_FFT_avg_array s) i;
      rh ← read_slot (RHALL_FFT_avg_array s) i;
      sum_samples idx'
        (set_averages (iadd_u32 (LPAD_FFT_distance s) l) (iadd_u32 (RPAD_FFT_distance s) r)
           (iadd_u32 (LHALL_FFT_voltage s) lh) (iadd_u32 (RHALL_FFT_voltage s) rh) s)
  end.

(** The branch taken when the window is full, up to the reset of the
    counter: the sums, then the four divisions. *)
Definition average_window (s : state) : option state :=
  s ← sum_samples (seqZ 0 (num_of_samples s)) (set_averages 0 0 0 0 s);
  ld ← idiv (LPAD_FFT_distance s) (num_of_samples s);
  rd ← idiv (RPAD_FFT_distance s) (num_of_samples s);
  lv ← idiv (LHALL_FFT_voltage s) (num_of_samples s);
  rv ← idiv (RHALL_FFT_voltage s) (num_of_samples s);
  Some (set_avg_counter 0 (set_averages ld rd lv rv s)).

Definition averaging_FFT_semples (s : state) : option state :=
  if avg_counter s =? isub (num_of_samples s) 1 then
    s ← average_window s;
    distance_LUT s
  else
    Some (set_avg_counter (iadd (avg_counter s) 1) s).

(** *** calculate_FFT *)

Definition calculate_FFT (a : acquisition) (s : state) : option state :=
  la ← write_slot (LPAD_FFT_avg_array s) (avg_counter s) (to_uint32 (LPAD_tone a));
  ra ← write_slot (RPAD_FFT_avg_array s) (avg_counter s) (to_uint32 (RPAD_tone a));
  lh ← write_slot (LHALL_FFT_avg_array s) (avg_counter s) (to_uint32 (LHALL_tone a));
  rh ← write_slot (RHALL_FFT_avg_array s) (avg_counter s) (to_uint32 (RHALL_tone a));
  averaging_FFT_semples (set_avg_arrays la ra lh rh s).

(** *** calculate_current *)

Definition calculate_current (s : state) : state :=
  if (15 <? Y_Pos s) && (Y_Pos s <? 25) then
    if dlt (Gamma s) (Z2D 15) && dlt (Z2D (-15)) (Gamma s) then
      if LHALL_FFT_voltage s <? RHALL_FFT_voltage s then
        set_current
          (D2F (ddiv (dmul (dmul (Z2D (RHALL_FFT_voltage s)) CURRENT_FACTOR) (Z2D (Y_Pos s)))
                  (Z2D 1000))) s
      else
        set_current
          (D2F (ddiv (dmul (dmul (Z2D (LHALL_FFT_voltage s)) CURRENT_FACTOR) (Z2D (Y_Pos s)))
                  (Z2D 1000))) s
    else set_current (Z2F CURR_OUTOF_Angle_RANGE) s
  else set_current (Z2F CURR_OUTOF_Y_RANGE) s.

(** *** check_display_bounderies *)

Definition check_display_bounderies (s : state) : state :=
  let s := if dlt (Z2D MAX_X_DISTANCE) (fabs (Z2D (X_Pos s)))
           then set_X_Pos CALC_OUTOF_X_RANGE s else s in
  if MAX_Y_DISTANCE <? Y_Pos s then set_Y_Pos CALC_OUTOF_Y_RANGE s else s.

(** *** calculate_pos *)

(** [M_PI/2]. *)
Definition HALF_PI : double := ddiv M_PI (Z2D 2).

(** The guard on the two distances. *)
Definition signal_present (s : state) : bool :=
  negb (LPAD_FFT_distance s =? FFT_NO_SIGNAL) || negb (RPAD_FFT_distance s =? FFT_NO_SIGNAL).

(** The two quotients of the law of cosines, from the left and right distance. *)
Definition cos_beta_of (dL dR : Z) : double :=
  ddiv (Z2D (isub (iadd (imul dL dL) (imul PAD_SPACING PAD_SPACING)) (imul dR dR)))
       (Z2D (imul (imul 2 dL) PAD_SPACING)).

Definition cos_alpha_of (dL dR : Z) : double :=
  ddiv (Z2D (iadd (isub (imul dR dR) (imul dL dL)) (imul PAD_SPACING PAD_SPACING)))
       (Z2D (imul (imul 2 dR) PAD_SPACING)).

(** The check that both quotients are arguments of the arc cosine. *)
Definition in_acos_range (cos_alpha cos_beta : double) : bool :=
  dle cos_alpha (Z2D 1) && dle cos_beta (Z2D 1)
  && dlt (Z2D (-1)) cos_alpha && dlt (Z2D (-1)) cos_beta.

(** The conditions of the three position cases. *)
Definition first_case (alpha beta : double) : bool := dlt alpha HALF_PI && dlt beta HALF_PI.
Definition second_case (alpha beta : double) : bool := dle HALF_PI alpha && dlt beta HALF_PI.
Definition third_case (alpha beta : double) : bool := dlt alpha HALF_PI && dle HALF_PI beta.

(** The if / else-if chain that assigns [X_Pos] and [Y_Pos]; it has no final
    else. *)
Definition position_case (alpha beta : double) (s : state) : state :=
  if first_case alpha beta then
    let s := set_X_Pos (D2I (fabs (dsub (dmul (cos alpha) (Z2D (RPAD_FFT_distance s)))
                                      (Z2D (PAD_SPACING ÷ 2))))) s in
    set_Y_Pos (D2I (dmul (sin alpha) (Z2D (RPAD_FFT_distance s)))) s
  else if second_case alpha beta then
    let s := set_X_Pos (D2I (dadd (dmul (cos (dsub M_PI alpha)) (Z2D (RPAD_FFT_distance s)))
                                (Z2D (PAD_SPACING ÷ 2)))) s in
    set_Y_Pos (D2I (dmul (sin (dsub M_PI alpha)) (Z2D (RPAD_FFT_distance s)))) s
  else if third_case alpha beta then
    let s := set_X_Pos (D2I (dadd (dmul (cos (dsub M_PI beta)) (Z2D (LPAD_FFT_distance s)))
                                (Z2D (PAD_SPACING ÷ 2)))) s in
    set_Y_Pos (D2I (dmul (sin (dsub M_PI beta)) (Z2D (LPAD_FFT_distance s)))) s
  else s.

(** [Gamma] from [atan2], the signs of [X_Pos] and [Gamma], and the
    conversion to degrees. *)
Definition orient (alpha beta : double) (s : state) : state :=
  let s := set_Gamma (atan2 (Z2D (Y_Pos s)) (Z2D (X_Pos s))) s in
  let s := if dlt alpha beta
           then set_X_Pos (ineg (X_Pos s)) (set_Gamma (dsub HALF_PI (Gamma s)) s)
           else set_Gamma (dsub (Gamma s) HALF_PI) s in
  set_Gamma (dmul (Gamma s) RAD_TO_DEGREE) s.

(** What [calculate_pos] does inside the range check. *)
Definition solve (cos_alpha cos_beta : double) (s : state) : state :=
  let alpha := acos cos_alpha in
  let beta := acos cos_beta in
  check_display_bounderies (calculate_current (orient alpha beta (position_case alpha beta s))).

(** What [calculate_pos] does after [clear_Buffer()]. *)
Definition triangulate (s : state) : state :=
  if signal_present s then
    let cos_beta := cos_beta_of (LPAD_FFT_distance s) (RPAD_FFT_distance s) in
    let cos_alpha := cos_alpha_of (LPAD_FFT_distance s) (RPAD_FFT_distance s) in
    if in_acos_range cos_alpha cos_beta then solve cos_alpha cos_beta s else s
  else s.

(** The error codes stored as defaults at the start of a cycle. *)
Definition set_defaults (s : state) : state :=
  set_Gamma (Z2D CALC_OUTOF_ANGLE_RANGE)
    (set_Y_Pos CALC_OUTOF_Y_RANGE (set_X_Pos CALC_OUTOF_X_RANGE s)).

(** [clear_Buffer] zeroes the four sample buffers, which the state here does
    not carry, and the start of the ADC timer is an effect on the hardware
    only. *)
Definition calculate_pos (fft_avg_num : Z) (a : acquisition) (s : state) : option state :=
  let s := set_num_of_samples fft_avg_num s in
  if MEAS_data_ready a then
    s ← calculate_FFT a (set_defaults s);
    Some (triangulate s)
  else Some s.

(** Successive calls from the main loop with one window size. *)
Fixpoint run (fft_avg_num : Z) (acqs : list acquisition) (s : state) : option state :=
  match acqs with
  | [] => Some s
  | a :: acqs' => s' ← calculate_pos fft_avg_num a s; run fft_avg_num acqs' s'
  end.

(** *** Definitions used to state the properties *)

(** The three-way branch of [distance_LUT] for one channel with table [lut]
    and bounds [Min] and [Max]. *)
Definition LUT_branch (lut : list Z) (Min Max r : Z) : option Z :=
  if (Min <? r) && (r <? Max) then read_slot lut (isub r Min)
  else if Max <? r then Some 0 else Some FFT_NO_SIGNAL.

(** Both tables cover the indices that [distance_LUT] can read. *)
Definition tables_cover : Prop :=
  LPAD_Max - LPAD_Min <= Z.of_nat (length LPAD_LUT)
  /\ RPAD_Max - RPAD_Min <= Z.of_nat (length RPAD_LUT).

(** Case analysis on the condition of a conditional of the goal, innermost
    conditions first. *)
Ltac case_cond :=
  match goal with
  | |- context [if ?c then _ else _] =>
      lazymatch c with
      | context [if _ then _ else _] => fail
      | _ => destruct c eqn:?
      end
  end.

(** The four published results written at once. *)
Definition set_outputs (x y : Z) (g : double) (c : spec_float) (s : state) : state :=
  set_current c (set_Gamma g (set_Y_Pos y (set_X_Pos x s))).

(** The sum of the first [W] slots of an accumulator array. *)
Definition slot_sum (a : list Z) (W : Z) : Z := foldr Z.add 0 (take (Z.to_nat W) a).

(** Magnitudes small enough for three of them to add up within an
    [int32_t]. *)
Definition small_tone (t : Z) : Prop := 0 <= t <= 715827882.

Definition small_tones (a : acquisition) : Prop :=
  small_tone (LPAD_tone a) /\ small_tone (RPAD_tone a)
  /\ small_tone (LHALL_tone a) /\ small_tone (RHALL_tone a).

(** Two states with the same pad distances, Hall voltages and position. *)
Definition same_inputs (s t : state) : Prop :=
  LPAD_FFT_distance t = LPAD_FFT_distance s /\ RPAD_FFT_distance t = RPAD_FFT_distance s
  /\ LHALL_FFT_voltage t = LHALL_FFT_voltage s /\ RHALL_FFT_voltage t = RHALL_FFT_voltage s
  /\ X_Pos t = X_Pos s /\ Y_Pos t = Y_Pos s.

(** Two states that publish the same four results. *)
Definition same_outputs (s t : state) : Prop :=
  X_Pos t = X_Pos s /\ Y_Pos t = Y_Pos s /\ Gamma t = Gamma s /\ current t = current s.

(** The sum of one channel's magnitudes over a list of acquisitions. *)
Definition tone_sum (f : acquisition -> Z) (acqs : list acquisition) : Z :=
  foldr Z.add 0 (f <$> acqs).

(** 2^-40 as a double. *)
Definition TINY : double := S754_finite false 4503599627370496 (-92).

(** What the solver needs from the arc cosine of the maths library: on
    (-1,1] a result that compares with [M_PI/2], and an angle below [M_PI/2]
    for a cosine of at least 2^-40. *)
Definition acos_comparable : Prop :=
  forall x, dlt (Z2D (-1)) x = true -> dle x (Z2D 1) = true ->
    dlt (acos x) HALF_PI || dle HALF_PI (acos x) = true.

Definition acos_acute : Prop :=
  forall x, dle TINY x = true -> dle x (Z2D 1) = true -> dlt (acos x) HALF_PI = true.

(** Introduction of the equalities of [same_inputs] on two destructed states. *)
Ltac same_fields :=
  unfold same_inputs, same_outputs;
  match goal with
  | |- forall _ : _ /\ _, _ => cbn; intros (-> & -> & -> & -> & -> & ->)
  | _ => cbn
  end.

(** Side conditions on powers of two. *)
Ltac pow2_side :=
  first [ lia | apply Z.pow_nonzero; lia | apply Z.pow_nonneg; lia
        | apply Z.pow_pos_nonneg; lia ].


(** * Properties *)

(** ** Integer arithmetic *)

Lemma wrap32_id z : INT_MIN <= z <= INT_MAX -> wrap32 z = z.
Proof.
unfold wrap32, INT_MIN, INT_MAX. intros H.
rewrite Z.mod_small by lia. lia.
Qed.

Lemma to_uint32_id z : 0 <= z < 4294967296 -> to_uint32 z = z.
Proof. intros H. unfold to_uint32. now rewrite Z.mod_small. Qed.

Lemma iadd_u32_id acc v :
0 <= acc -> 0 <= v -> acc + v <= INT_MAX -> iadd_u32 acc v = acc + v.
Proof.
unfold iadd_u32, INT_MAX. intros Ha Hv Hs.
rewrite to_uint32_id by lia. apply wrap32_id. unfold INT_MIN, INT_MAX. lia.
Qed.

Lemma idiv_window a W : 1 <= W <= 3 -> INT_MIN <= a <= INT_MAX -> idiv a W = Some (a ÷ W).
Proof.
intros HW Ha. unfold idiv. destruct (Z.eqb_spec W 0) as [->|_]; [lia|].
f_equal. apply wrap32_id. unfold INT_MIN, INT_MAX in *.
destruct (Z_le_gt_dec 0 a) as [Hpos|Hneg].
- pose proof (Z.quot_pos a W Hpos ltac:(lia)).
  pose proof (Z.quot_le_upper_bound a W a ltac:(lia) ltac:(nia)). lia.
- replace a with (- - a) by lia. rewrite Z.quot_opp_l by lia.
  pose proof (Z.quot_pos (- a) W ltac:(lia) ltac:(lia)).
  pose proof (Z.quot_le_upper_bound (- a) W (- a) ltac:(lia) ltac:(nia)). lia.
Qed.

Lemma read_slot_Some a i v : read_slot a i = Some v <-> 0 <= i /\ a !! Z.to_nat i = Some v.
Proof.
unfold read_slot. destruct (Z.leb_spec 0 i); split; intros H1; try tauto; try easy.
destruct H1; lia.
Qed.

Lemma write_slot_Some a i v b :
write_slot a i v = Some b <->
0 <= i < Z.of_nat (length a) /\ b = <[Z.to_nat i := v]> a.
Proof.
unfold write_slot.
destruct (Z.leb_spec 0 i), (Z.ltb_spec i (Z.of_nat (length a))); simpl;
  split; intros H1; try (destruct H1; lia); try easy.
- inversion H1. split; [lia|reflexivity].
- destruct H1 as [_ ->]. reflexivity.
Qed.

Lemma write_slot_length a i v b : write_slot a i v = Some b -> length b = length a.
Proof. intros H. apply write_slot_Some in H as [_ ->]. apply length_insert. Qed.

(** ** The calibration look-up *)

Lemma distance_LUT_branches s :
  distance_LUT s =
  l ← LUT_branch LPAD_LUT LPAD_Min LPAD_Max (LPAD_FFT_distance s);
  r ← LUT_branch RPAD_LUT RPAD_Min RPAD_Max (RPAD_FFT_distance s);
  Some (set_averages l r (LHALL_FFT_voltage s) (RHALL_FFT_voltage s) s).
Proof.
  unfold distance_LUT, LUT_branch.
  destruct s; cbn.
  repeat (case_cond; cbn; try reflexivity; try discriminate).
  all: destruct (read_slot LPAD_LUT _); cbn; try reflexivity.
  all: repeat (case_cond; cbn; try reflexivity; try discriminate).
Qed.

Lemma LUT_branch_spec lut Min Max r d :
  Min < Max -> Max - Min <= INT_MAX ->
  LUT_branch lut Min Max r = Some d ->
  (Min < r < Max -> lut !! Z.to_nat (r - Min) = Some d)
  /\ (Max < r -> d = 0)
  /\ (r <= Min \/ r = Max -> d = FFT_NO_SIGNAL).
Proof.
  unfold LUT_branch. intros HM Hr Hb.
  destruct (Z.ltb_spec Min r) as [H1|H1], (Z.ltb_spec r Max) as [H2|H2],
    (Z.ltb_spec Max r) as [H3|H3]; simpl in Hb;
    try lia; repeat split; intros; try lia; try congruence.
  all: unfold isub in Hb; rewrite wrap32_id in Hb by (unfold INT_MIN, INT_MAX in *; lia);
    apply read_slot_Some in Hb; tauto.
Qed.

(** A look-up inside a table that covers the domain has a result. *)
Lemma LUT_branch_total lut Min Max r :
  0 <= Min -> Max <= INT_MAX -> Max - Min <= Z.of_nat (length lut) ->
  is_Some (LUT_branch lut Min Max r).
Proof.
  unfold LUT_branch, INT_MAX. intros Hm HM Hlen.
  destruct (Z.ltb_spec Min r) as [H1|H1], (Z.ltb_spec r Max) as [H2|H2]; simpl;
    try (destruct (Max <? r); eexists; reflexivity).
  unfold isub. rewrite wrap32_id by (unfold INT_MIN, INT_MAX; lia).
  unfold read_slot. destruct (Z.leb_spec 0 (r - Min)); [|lia].
  apply lookup_lt_is_Some. lia.
Qed.

Lemma distance_LUT_total s : tables_cover -> is_Some (distance_LUT s).
Proof.
  intros [HL HR]. rewrite distance_LUT_branches.
  destruct (LUT_branch_total LPAD_LUT LPAD_Min LPAD_Max (LPAD_FFT_distance s)) as [l ->];
    [unfold LPAD_Min; lia | unfold LPAD_Max, INT_MAX; lia | exact HL |].
  destruct (LUT_branch_total RPAD_LUT RPAD_Min RPAD_Max (RPAD_FFT_distance s)) as [r ->];
    [unfold RPAD_Min; lia | unfold RPAD_Max, INT_MAX; lia | exact HR |].
  simpl. eexists; reflexivity.
Qed.

(** [distance_LUT] rewrites the two pad distances and nothing else. *)
Lemma distance_LUT_frame s s' :
  distance_LUT s = Some s' ->
  exists l r, s' = set_averages l r (LHALL_FFT_voltage s) (RHALL_FFT_voltage s) s
    /\ LUT_branch LPAD_LUT LPAD_Min LPAD_Max (LPAD_FFT_distance s) = Some l
    /\ LUT_branch RPAD_LUT RPAD_Min RPAD_Max (RPAD_FFT_distance s) = Some r.
Proof.
  rewrite distance_LUT_branches. intros H.
  destruct (LUT_branch LPAD_LUT _ _ _) as [l|]; [|discriminate].
  destruct (LUT_branch RPAD_LUT _ _ _) as [r|]; [|discriminate].
  simpl in H. inversion H. eauto.
Qed.

(** C2, the behaviour of the code at the boundary: an averaged magnitude equal
    to the upper bound of its table is neither looked up nor taken as
    saturated; it falls into the last branch and the distance published for it
    is the no-signal code, for the left and for the right pad. *)
Theorem distance_LUT_at_Max s s' :
  distance_LUT s = Some s' ->
  (LPAD_FFT_distance s = LPAD_Max -> LPAD_FFT_distance s' = FFT_NO_SIGNAL)
  /\ (RPAD_FFT_distance s = RPAD_Max -> RPAD_FFT_distance s' = FFT_NO_SIGNAL).
Proof.
  intros H. apply distance_LUT_frame in H as (l & r & -> & Hl & Hr).
  apply LUT_branch_spec in Hl as (_ & _ & Hl); [|unfold LPAD_Min, LPAD_Max, INT_MAX; lia ..].
  apply LUT_branch_spec in Hr as (_ & _ & Hr); [|unfold RPAD_Min, RPAD_Max, INT_MAX; lia ..].
  simpl. split; intros E; [apply Hl | apply Hr]; right; exact E.
Qed.

(** ** The current estimator *)

(** [calculate_current] writes [current] and nothing else. *)
Lemma calculate_current_frame s : exists c, calculate_current s = set_current c s.
Proof. unfold calculate_current. repeat case_cond; eexists; reflexivity. Qed.

(** C5: with [Y_Pos] strictly between 15 and 25 and [Gamma] strictly between
    -15 and 15, the current is the larger Hall voltage times [CURRENT_FACTOR]
    times [Y_Pos] over 1000, computed in doubles and stored as a float; for
    Y = 20, Gamma = 0 and Hall voltages 100 and 50 that is the float 0.714.
    With [Y_Pos] outside (15,25) the current is the Y-range code whatever the
    angle, and with [Y_Pos] inside but [Gamma] outside (-15,15) it is the
    angle-range code. *)
Theorem calculate_current_cases s :
  (15 < Y_Pos s < 25 -> dlt (Gamma s) (Z2D 15) = true -> dlt (Z2D (-15)) (Gamma s) = true ->
     current (calculate_current s) =
     D2F (ddiv (dmul (dmul (Z2D (Z.max (LHALL_FFT_voltage s) (RHALL_FFT_voltage s)))
                        CURRENT_FACTOR) (Z2D (Y_Pos s))) (Z2D 1000)))
  /\ (Y_Pos s = 20 -> Gamma s = Z2D 0 -> LHALL_FFT_voltage s = 100 -> RHALL_FFT_voltage s = 50 ->
      current (calculate_current s) = decimal_float 714 1000)
  /\ (~ 15 < Y_Pos s < 25 -> current (calculate_current s) = Z2F CURR_OUTOF_Y_RANGE)
  /\ (15 < Y_Pos s < 25 -> dlt (Gamma s) (Z2D 15) && dlt (Z2D (-15)) (Gamma s) = false ->
      current (calculate_current s) = Z2F CURR_OUTOF_Angle_RANGE).
Proof.
  unfold calculate_current. repeat split.
  - intros HY H1 H2. rewrite H1, H2.
    destruct (Z.ltb_spec 15 (Y_Pos s)), (Z.ltb_spec (Y_Pos s) 25); try lia. simpl.
    destruct (Z.ltb_spec (LHALL_FFT_voltage s) (RHALL_FFT_voltage s)); simpl.
    + rewrite Z.max_r by lia. reflexivity.
    + rewrite Z.max_l by lia. reflexivity.
  - intros -> -> -> ->. vm_compute. reflexivity.
  - intros HY.
    destruct (Z.ltb_spec 15 (Y_Pos s)), (Z.ltb_spec (Y_Pos s) 25); try lia; reflexivity.
  - intros HY HG. rewrite HG.
    destruct (Z.ltb_spec 15 (Y_Pos s)), (Z.ltb_spec (Y_Pos s) 25); try lia; reflexivity.
Qed.

(** ** What the averaging stages leave untouched *)

Lemma sum_samples_frame idx s s' :
  sum_samples idx s = Some s' -> exists l r lh rh, s' = set_averages l r lh rh s.
Proof.
  revert s. induction idx as [|i idx IH]; simpl; intros s H.
  - inversion H. destruct s'. repeat eexists.
  - destruct (read_slot (LPAD_FFT_avg_array s) i); [|discriminate].
    destruct (read_slot (RPAD_FFT_avg_array s) i); [|discriminate].
    destruct (read_slot (LHALL_FFT_avg_array s) i); [|discriminate].
    destruct (read_slot (RHALL_FFT_avg_array s) i); [|discriminate].
    simpl in H. apply IH in H as (l & r & lh & rh & ->). repeat eexists.
Qed.

Lemma average_window_frame s s' :
  average_window s = Some s' ->
  exists l r lh rh, s' = set_avg_counter 0 (set_averages l r lh rh s).
Proof.
  unfold average_window. intros H.
  destruct (sum_samples _ _) as [s1|] eqn:E; [|discriminate].
  apply sum_samples_frame in E as (l & r & lh & rh & ->). simpl in H.
  repeat match type of H with
  | context [idiv ?a ?b] => destruct (idiv a b); [|discriminate]; simpl in H
  end.
  inversion H. repeat eexists.
Qed.

Lemma averaging_FFT_semples_frame s s' :
  averaging_FFT_semples s = Some s' ->
  exists l r lh rh c, s' = set_avg_counter c (set_averages l r lh rh s).
Proof.
  unfold averaging_FFT_semples. case_cond; intros H.
  - destruct (average_window s) as [s1|] eqn:E; [|discriminate]. simpl in H.
    apply average_window_frame in E as (l & r & lh & rh & ->).
    apply distance_LUT_frame in H as (l' & r' & -> & _).
    exists l', r', lh, rh, 0. reflexivity.
  - inversion H. destruct s. repeat eexists.
Qed.

Lemma calculate_FFT_frame a s s' :
  calculate_FFT a s = Some s' ->
  X_Pos s' = X_Pos s /\ Y_Pos s' = Y_Pos s /\ Gamma s' = Gamma s
  /\ current s' = current s /\ num_of_samples s' = num_of_samples s.
Proof.
  unfold calculate_FFT. intros H.
  repeat match type of H with
  | context [write_slot ?a ?i ?v] => destruct (write_slot a i v); [|discriminate]; simpl in H
  end.
  apply averaging_FFT_semples_frame in H as (dl & dr & vl & vr & c & ->). simpl. tauto.
Qed.

(** ** The position solver *)

Lemma calculate_pos_ready W a s :
  MEAS_data_ready a = true ->
  calculate_pos W a s =
  s1 ← calculate_FFT a (set_defaults (set_num_of_samples W s)); Some (triangulate s1).
Proof. intros H. unfold calculate_pos. rewrite H. reflexivity. Qed.

Lemma calculate_pos_not_ready W a s :
  MEAS_data_ready a = false -> calculate_pos W a s = Some (set_num_of_samples W s).
Proof. intros H. unfold calculate_pos. rewrite H. reflexivity. Qed.


Lemma triangulate_no_signal s : signal_present s = false -> triangulate s = s.
Proof. intros H. unfold triangulate. rewrite H. reflexivity. Qed.

Lemma triangulate_out_of_range s :
  in_acos_range (cos_alpha_of (LPAD_FFT_distance s) (RPAD_FFT_distance s))
                (cos_beta_of (LPAD_FFT_distance s) (RPAD_FFT_distance s)) = false ->
  triangulate s = s.
Proof. intros H. unfold triangulate. rewrite H. destruct (signal_present s); reflexivity. Qed.

Lemma triangulate_solve s :
  signal_present s = true ->
  in_acos_range (cos_alpha_of (LPAD_FFT_distance s) (RPAD_FFT_distance s))
                (cos_beta_of (LPAD_FFT_distance s) (RPAD_FFT_distance s)) = true ->
  triangulate s =
  solve (cos_alpha_of (LPAD_FFT_distance s) (RPAD_FFT_distance s))
        (cos_beta_of (LPAD_FFT_distance s) (RPAD_FFT_distance s)) s.
Proof. intros H1 H2. unfold triangulate. rewrite H1, H2. reflexivity. Qed.

(** A division by zero gives an infinity or a NaN, whatever the dividend. *)
Lemma ddiv_zero_non_finite x : non_finite (ddiv x (Z2D 0)) = true.
Proof. destruct x; reflexivity. Qed.

(** No infinity and no NaN passes the range check. *)
Lemma in_acos_range_non_finite ca cb :
  non_finite ca = true \/ non_finite cb = true -> in_acos_range ca cb = false.
Proof.
  unfold in_acos_range.
  intros [H|H]; [destruct ca as [| [|] | |] | destruct cb as [| [|] | |]]; try discriminate H.
  all: cbn; rewrite ?andb_false_r; reflexivity.
Qed.

Lemma cos_beta_of_zero dR : non_finite (cos_beta_of 0 dR) = true.
Proof. unfold cos_beta_of. apply ddiv_zero_non_finite. Qed.

Lemma cos_alpha_of_zero dL : non_finite (cos_alpha_of dL 0) = true.
Proof. unfold cos_alpha_of. apply ddiv_zero_non_finite. Qed.

(** The error codes stored at the start of a cycle are still in place when
    [calculate_FFT] returns. *)
Lemma defaults_after_FFT W a s s1 :
  calculate_FFT a (set_defaults (set_num_of_samples W s)) = Some s1 ->
  X_Pos s1 = CALC_OUTOF_X_RANGE /\ Y_Pos s1 = CALC_OUTOF_Y_RANGE
  /\ Gamma s1 = Z2D CALC_OUTOF_ANGLE_RANGE /\ current s1 = current s.
Proof. intros H. apply calculate_FFT_frame in H. simpl in H. tauto. Qed.

(** C1, as the code has it: in a cycle whose two quotients do not pass the
    range check, the position is published as invalid: [calculate_pos]
    leaves [X_Pos], [Y_Pos] and [Gamma] at the error codes it stored at the
    start of the cycle, whatever position the cycle before had published. *)
Theorem out_of_range_stores_error_codes W a s s1 :
  MEAS_data_ready a = true ->
  calculate_FFT a (set_defaults (set_num_of_samples W s)) = Some s1 ->
  signal_present s1 = true ->
  in_acos_range (cos_alpha_of (LPAD_FFT_distance s1) (RPAD_FFT_distance s1))
                (cos_beta_of (LPAD_FFT_distance s1) (RPAD_FFT_distance s1)) = false ->
  exists s', calculate_pos W a s = Some s'
    /\ X_Pos s' = CALC_OUTOF_X_RANGE /\ Y_Pos s' = CALC_OUTOF_Y_RANGE
    /\ Gamma s' = Z2D CALC_OUTOF_ANGLE_RANGE.
Proof.
  intros Hready HFFT _ Hrange. exists s1.
  rewrite calculate_pos_ready by exact Hready. rewrite HFFT. simpl.
  rewrite triangulate_out_of_range by exact Hrange.
  split; [reflexivity|].
  destruct (defaults_after_FFT W a s s1 HFFT) as (HX & HY & HG & _). tauto.
Qed.

(** C4, the behaviour of the code: when the guard on the two distances or the
    range check stops the solver, [calculate_current] is not called; the cycle
    ends with the position fields at their error codes and with [current]
    still holding whatever the earlier cycle left in it. *)
Theorem unsolved_cycle_keeps_current W a s s1 :
  MEAS_data_ready a = true ->
  calculate_FFT a (set_defaults (set_num_of_samples W s)) = Some s1 ->
  signal_present s1 = false
  \/ in_acos_range (cos_alpha_of (LPAD_FFT_distance s1) (RPAD_FFT_distance s1))
                   (cos_beta_of (LPAD_FFT_distance s1) (RPAD_FFT_distance s1)) = false ->
  exists s', calculate_pos W a s = Some s'
    /\ X_Pos s' = CALC_OUTOF_X_RANGE /\ Y_Pos s' = CALC_OUTOF_Y_RANGE
    /\ current s' = current s.
Proof.
  intros Hready HFFT Hstop. exists s1.
  rewrite calculate_pos_ready by exact Hready. rewrite HFFT. simpl.
  assert (Ht : triangulate s1 = s1).
  { destruct Hstop; [apply triangulate_no_signal | apply triangulate_out_of_range]; assumption. }
  rewrite Ht. split; [reflexivity|].
  destruct (defaults_after_FFT W a s s1 HFFT) as (? & ? & ? & ?). tauto.
Qed.

(** Within these bounds no intermediate result of the two quotients leaves
    the range of [int]. *)
Lemma cos_beta_of_exact dL dR :
  -46340 <= dL <= 46340 -> -46340 <= dR <= 46340 ->
  cos_beta_of dL dR = ddiv (Z2D (dL * dL + 2500 - dR * dR)) (Z2D (100 * dL)).
Proof.
  intros HL HR. unfold cos_beta_of, imul, iadd, isub, PAD_SPACING.
  assert (0 <= dL * dL <= 2147395600) by nia.
  assert (0 <= dR * dR <= 2147395600) by nia.
  rewrite (wrap32_id (dL * dL)), (wrap32_id (50 * 50)), (wrap32_id (dR * dR)),
    (wrap32_id (2 * dL)) by (unfold INT_MIN, INT_MAX; lia).
  rewrite (wrap32_id (dL * dL + 50 * 50)) by (unfold INT_MIN, INT_MAX; lia).
  rewrite !wrap32_id by (unfold INT_MIN, INT_MAX; lia).
  do 2 f_equal; lia.
Qed.

Lemma cos_alpha_of_exact dL dR :
  -46340 <= dL <= 46340 -> -46340 <= dR <= 46340 ->
  cos_alpha_of dL dR = ddiv (Z2D (dR * dR - dL * dL + 2500)) (Z2D (100 * dR)).
Proof.
  intros HL HR. unfold cos_alpha_of, imul, iadd, isub, PAD_SPACING.
  assert (0 <= dL * dL <= 2147395600) by nia.
  assert (0 <= dR * dR <= 2147395600) by nia.
  rewrite (wrap32_id (dL * dL)), (wrap32_id (50 * 50)), (wrap32_id (dR * dR)),
    (wrap32_id (2 * dR)) by (unfold INT_MIN, INT_MAX; lia).
  rewrite (wrap32_id (dR * dR - dL * dL)) by (unfold INT_MIN, INT_MAX; lia).
  rewrite !wrap32_id by (unfold INT_MIN, INT_MAX; lia).
  do 2 f_equal; lia.
Qed.


(** An averaged magnitude above the upper bound of its table is turned into
    the distance 0. *)
Lemma distance_LUT_saturated s s' :
  distance_LUT s = Some s' ->
  (LPAD_Max < LPAD_FFT_distance s -> LPAD_FFT_distance s' = 0)
  /\ (RPAD_Max < RPAD_FFT_distance s -> RPAD_FFT_distance s' = 0).
Proof.
  intros H. apply distance_LUT_frame in H as (l & r & -> & Hl & Hr).
  apply LUT_branch_spec in Hl as (_ & Hl & _); [|unfold LPAD_Min, LPAD_Max, INT_MAX; lia ..].
  apply LUT_branch_spec in Hr as (_ & Hr & _); [|unfold RPAD_Min, RPAD_Max, INT_MAX; lia ..].
  simpl. tauto.
Qed.

(** C10: a pad whose averaged magnitude lies above the upper bound of its
    table gets the distance 0; a cycle that ends its averaging with a pad
    distance of 0 divides by zero in the quotient of that pad, the quotient is
    an infinity or a NaN, the range check fails, no position case is executed
    and [X_Pos], [Y_Pos] and [Gamma] hold their error codes when
    [calculate_pos] returns. *)
Theorem saturated_pad_gives_no_position :
  (forall s0 s0', distance_LUT s0 = Some s0' ->
     (LPAD_Max < LPAD_FFT_distance s0 -> LPAD_FFT_distance s0' = 0)
     /\ (RPAD_Max < RPAD_FFT_distance s0 -> RPAD_FFT_distance s0' = 0))
  /\ (forall W a s s1,
        MEAS_data_ready a = true ->
        calculate_FFT a (set_defaults (set_num_of_samples W s)) = Some s1 ->
        LPAD_FFT_distance s1 = 0 \/ RPAD_FFT_distance s1 = 0 ->
        let cos_alpha := cos_alpha_of (LPAD_FFT_distance s1) (RPAD_FFT_distance s1) in
        let cos_beta := cos_beta_of (LPAD_FFT_distance s1) (RPAD_FFT_distance s1) in
        (LPAD_FFT_distance s1 = 0 -> non_finite cos_beta = true)
        /\ (RPAD_FFT_distance s1 = 0 -> non_finite cos_alpha = true)
        /\ in_acos_range cos_alpha cos_beta = false
        /\ calculate_pos W a s = Some s1
        /\ X_Pos s1 = CALC_OUTOF_X_RANGE /\ Y_Pos s1 = CALC_OUTOF_Y_RANGE
        /\ Gamma s1 = Z2D CALC_OUTOF_ANGLE_RANGE).
Proof.
  split; [exact distance_LUT_saturated|].
  intros W a s s1 Hready HFFT Hzero cos_alpha cos_beta.
  assert (HL : LPAD_FFT_distance s1 = 0 -> non_finite cos_beta = true).
  { intros E. subst cos_beta. rewrite E. apply cos_beta_of_zero. }
  assert (HR : RPAD_FFT_distance s1 = 0 -> non_finite cos_alpha = true).
  { intros E. subst cos_alpha. rewrite E. apply cos_alpha_of_zero. }
  assert (Hrange : in_acos_range cos_alpha cos_beta = false).
  { apply in_acos_range_non_finite. tauto. }
  repeat split; try assumption.
  - rewrite calculate_pos_ready by exact Hready. rewrite HFFT. simpl.
    now rewrite triangulate_out_of_range.
  - eapply defaults_after_FFT; eassumption.
  - eapply defaults_after_FFT; eassumption.
  - eapply defaults_after_FFT; eassumption.
Qed.

(** ** The solver writes the four results only *)

Lemma position_case_frame alpha beta s :
  exists x y, position_case alpha beta s = set_Y_Pos y (set_X_Pos x s).
Proof.
  unfold position_case. repeat case_cond; try (eexists; eexists; reflexivity).
  exists (X_Pos s), (Y_Pos s). destruct s; reflexivity.
Qed.

Lemma orient_frame alpha beta s :
  exists x g, orient alpha beta s = set_Gamma g (set_X_Pos x s).
Proof.
  unfold orient. case_cond.
  - eexists; eexists. destruct s; reflexivity.
  - exists (X_Pos s). eexists. destruct s; reflexivity.
Qed.

Lemma check_display_bounderies_frame s :
  exists x y, check_display_bounderies s = set_Y_Pos y (set_X_Pos x s).
Proof.
  unfold check_display_bounderies. cbv zeta.
  destruct (dlt (Z2D MAX_X_DISTANCE) (fabs (Z2D (X_Pos s)))); case_cond.
  - exists CALC_OUTOF_X_RANGE, CALC_OUTOF_Y_RANGE. reflexivity.
  - exists CALC_OUTOF_X_RANGE, (Y_Pos s). destruct s; reflexivity.
  - exists (X_Pos s), CALC_OUTOF_Y_RANGE. destruct s; reflexivity.
  - exists (X_Pos s), (Y_Pos s). destruct s; reflexivity.
Qed.

Lemma solve_frame ca cb s : exists x y g c, solve ca cb s = set_outputs x y g c s.
Proof.
  unfold solve.
  destruct (position_case_frame (acos ca) (acos cb) s) as (x1 & y1 & ->).
  destruct (orient_frame (acos ca) (acos cb) (set_Y_Pos y1 (set_X_Pos x1 s))) as (x2 & g & ->).
  destruct (calculate_current_frame (set_Gamma g (set_X_Pos x2 (set_Y_Pos y1 (set_X_Pos x1 s)))))
    as (c & ->).
  destruct (check_display_bounderies_frame
              (set_current c (set_Gamma g (set_X_Pos x2 (set_Y_Pos y1 (set_X_Pos x1 s))))))
    as (x3 & y3 & ->).
  exists x3, y3, g, c. destruct s; reflexivity.
Qed.

Lemma triangulate_frame s : exists x y g c, triangulate s = set_outputs x y g c s.
Proof.
  unfold triangulate. repeat case_cond; try apply solve_frame.
  all: exists (X_Pos s), (Y_Pos s), (Gamma s), (current s); destruct s; reflexivity.
Qed.

(** ** The solver is a function of the distances, the voltages and the
    position it starts from *)

Lemma position_case_ext alpha beta s t :
  same_inputs s t -> same_inputs (position_case alpha beta s) (position_case alpha beta t).
Proof.
  destruct s, t. same_fields. unfold position_case.
  repeat case_cond; cbn; repeat split; reflexivity.
Qed.

Lemma orient_ext alpha beta s t :
  same_inputs s t ->
  same_inputs (orient alpha beta s) (orient alpha beta t)
  /\ Gamma (orient alpha beta t) = Gamma (orient alpha beta s).
Proof.
  destruct s, t. same_fields. unfold orient. cbv zeta.
  case_cond; cbn; repeat split; reflexivity.
Qed.

Lemma calculate_current_ext s t :
  same_inputs s t -> Gamma t = Gamma s ->
  same_inputs (calculate_current s) (calculate_current t)
  /\ same_outputs (calculate_current s) (calculate_current t).
Proof.
  destruct s, t. same_fields. intros ->. unfold calculate_current. cbn.
  repeat case_cond; cbn; repeat split; reflexivity.
Qed.

Lemma check_display_bounderies_ext s t :
  same_outputs s t -> same_outputs (check_display_bounderies s) (check_display_bounderies t).
Proof.
  destruct s, t. unfold same_outputs. cbn. intros (-> & -> & -> & ->).
  unfold check_display_bounderies. cbv zeta. cbn.
  repeat (case_cond; cbn); repeat split; reflexivity.
Qed.

Lemma solve_ext ca cb s t : same_inputs s t -> same_outputs (solve ca cb s) (solve ca cb t).
Proof.
  intros H. unfold solve.
  apply check_display_bounderies_ext.
  apply (position_case_ext (acos ca) (acos cb)) in H.
  apply (orient_ext (acos ca) (acos cb)) in H as [H HG].
  apply calculate_current_ext; assumption.
Qed.

(** Running the solver again on what it has just produced changes none of
    the results. *)
Lemma triangulate_again s t :
  same_inputs s t -> Gamma t = Gamma s -> current t = current (triangulate s) ->
  same_outputs (triangulate s) (triangulate t).
Proof.
  intros Hin HG Hc. pose proof Hin as (HL & HR & _ & _ & HX & HY).
  revert Hc. unfold triangulate, signal_present. rewrite HL, HR.
  repeat case_cond; intros Hc; try (apply solve_ext; exact Hin).
  all: unfold same_outputs; tauto.
Qed.

(** ** One call of [calculate_FFT] *)

Lemma write_slot_in (arr : list Z) i v :
  0 <= i < Z.of_nat (length arr) -> write_slot arr i v = Some (<[Z.to_nat i := v]> arr).
Proof. intros H. apply write_slot_Some. split; [exact H | reflexivity]. Qed.

(** The four arrays after the stores of [calculate_FFT]. *)
Lemma calculate_FFT_stores a s :
  arrays_sized s -> 0 <= avg_counter s < Z.of_nat FFT_AVG_NUMS ->
  calculate_FFT a s =
  averaging_FFT_semples
    (set_avg_arrays
       (<[Z.to_nat (avg_counter s) := to_uint32 (LPAD_tone a)]> (LPAD_FFT_avg_array s))
       (<[Z.to_nat (avg_counter s) := to_uint32 (RPAD_tone a)]> (RPAD_FFT_avg_array s))
       (<[Z.to_nat (avg_counter s) := to_uint32 (LHALL_tone a)]> (LHALL_FFT_avg_array s))
       (<[Z.to_nat (avg_counter s) := to_uint32 (RHALL_tone a)]> (RHALL_FFT_avg_array s)) s).
Proof.
  intros (H1 & H2 & H3 & H4) Hc. unfold calculate_FFT.
  rewrite !write_slot_in by (rewrite ?H1, ?H2, ?H3, ?H4; exact Hc). reflexivity.
Qed.

(** A window that is not yet full: the counter moves on and nothing else
    happens. *)
Lemma averaging_FFT_semples_not_full s :
  INT_MIN < num_of_samples s <= INT_MAX -> INT_MIN <= avg_counter s < INT_MAX ->
  avg_counter s <> num_of_samples s - 1 ->
  averaging_FFT_semples s = Some (set_avg_counter (avg_counter s + 1) s).
Proof.
  intros HW Hc Hne. unfold averaging_FFT_semples, isub, iadd.
  rewrite !wrap32_id by (unfold INT_MIN, INT_MAX in *; lia).
  destruct (Z.eqb_spec (avg_counter s) (num_of_samples s - 1)); [contradiction|reflexivity].
Qed.

(** The solver on two states with the same distances, voltages, position,
    angle and current. *)
Lemma triangulate_ext s t :
  same_inputs s t -> Gamma t = Gamma s -> current t = current s ->
  same_outputs (triangulate s) (triangulate t).
Proof.
  intros Hin HG Hc. pose proof Hin as (HL & HR & _ & _ & HX & HY).
  unfold triangulate, signal_present. rewrite HL, HR.
  repeat case_cond; try (apply solve_ext; exact Hin).
  all: unfold same_outputs; tauto.
Qed.

(** C3, as the code has it: for a window of 1, 2 or 3 acquisitions, every
    data-ready cycle that finds the fill counter different from W-1 moves the
    counter on by one and does not run the calibration: the pad distances and
    Hall voltages keep their values.  The position fields are nevertheless
    reset to their error codes and the solver, and with it the current
    estimator, runs again on the distances that were kept: the four results
    of the cycle are those of the solver started from the error codes.  When
    the cycle starts from a state that an earlier data-ready cycle has left,
    this reproduces the four results of that cycle. *)
Theorem partial_window_cycle W a s :
  1 <= W <= 3 ->
  MEAS_data_ready a = true ->
  arrays_sized s -> 0 <= avg_counter s < Z.of_nat FFT_AVG_NUMS -> avg_counter s <> W - 1 ->
  exists s',
    calculate_pos W a s = Some s'
    /\ s' = triangulate
              (set_avg_counter (avg_counter s + 1)
                 (set_avg_arrays
                    (<[Z.to_nat (avg_counter s) := to_uint32 (LPAD_tone a)]> (LPAD_FFT_avg_array s))
                    (<[Z.to_nat (avg_counter s) := to_uint32 (RPAD_tone a)]> (RPAD_FFT_avg_array s))
                    (<[Z.to_nat (avg_counter s) := to_uint32 (LHALL_tone a)]> (LHALL_FFT_avg_array s))
                    (<[Z.to_nat (avg_counter s) := to_uint32 (RHALL_tone a)]> (RHALL_FFT_avg_array s))
                    (set_defaults (set_num_of_samples W s))))
    /\ avg_counter s' = avg_counter s + 1
    /\ LPAD_FFT_distance s' = LPAD_FFT_distance s /\ RPAD_FFT_distance s' = RPAD_FFT_distance s
    /\ LHALL_FFT_voltage s' = LHALL_FFT_voltage s /\ RHALL_FFT_voltage s' = RHALL_FFT_voltage s
    /\ same_outputs (triangulate (set_defaults s)) s'
    /\ (forall W0 a0 s0,
          MEAS_data_ready a0 = true -> calculate_pos W0 a0 s0 = Some s -> same_outputs s s').
Proof.
  intros HW Hready Hsized Hc Hne.
  rewrite calculate_pos_ready by exact Hready.
  rewrite calculate_FFT_stores by assumption.
  rewrite averaging_FFT_semples_not_full;
    [| cbn; unfold INT_MIN, INT_MAX; unfold FFT_AVG_NUMS in Hc; lia .. ].
  cbn [mbind option_bind avg_counter num_of_samples set_avg_arrays set_defaults
       set_num_of_samples set_Gamma set_X_Pos set_Y_Pos].
  eexists. split; [reflexivity|]. split; [reflexivity|].
  match goal with |- context [triangulate ?u] => set (t := u) end.
  destruct (triangulate_frame t) as (x & y & g & c & Et).
  split; [rewrite Et; reflexivity|].
  split; [rewrite Et; reflexivity|]. split; [rewrite Et; reflexivity|].
  split; [rewrite Et; reflexivity|]. split; [rewrite Et; reflexivity|].
  split.
  - apply triangulate_ext; [unfold same_inputs; repeat split | | ]; reflexivity.
  - intros W0 a0 s0 Hready0 Hprev.
    rewrite calculate_pos_ready in Hprev by exact Hready0.
    destruct (calculate_FFT a0 _) as [s1|] eqn:HFFT0; [|discriminate].
    simpl in Hprev. injection Hprev as Es.
    apply defaults_after_FFT in HFFT0 as (HX & HY & HG & _).
    destruct (triangulate_frame s1) as (x1 & y1 & g1 & c1 & E1).
    rewrite <- Es. apply triangulate_again.
    + subst t. rewrite <- Es, E1. unfold same_inputs. cbn. rewrite HX, HY.
      repeat split; reflexivity.
    + subst t. cbn. rewrite HG. reflexivity.
    + subst t. cbn. rewrite <- Es. reflexivity.
Qed.

(** ** The fill counter *)

Lemma read_slot_in (arr : list Z) i :
  0 <= i < Z.of_nat (length arr) -> is_Some (read_slot arr i).
Proof.
  intros H. unfold read_slot. destruct (Z.leb_spec 0 i); [|lia].
  apply lookup_lt_is_Some. lia.
Qed.

Lemma sum_samples_total idx s :
  arrays_sized s -> Forall (fun i => 0 <= i < Z.of_nat FFT_AVG_NUMS) idx ->
  is_Some (sum_samples idx s).
Proof.
  intros Hs Hidx. revert s Hs.
  induction Hidx as [|i idx Hi _ IH]; intros s Hs; simpl; [eexists; reflexivity|].
  destruct Hs as (H1 & H2 & H3 & H4).
  destruct (read_slot_in (LPAD_FFT_avg_array s) i) as [l ->]; [rewrite H1; exact Hi|].
  destruct (read_slot_in (RPAD_FFT_avg_array s) i) as [r ->]; [rewrite H2; exact Hi|].
  destruct (read_slot_in (LHALL_FFT_avg_array s) i) as [lh ->]; [rewrite H3; exact Hi|].
  destruct (read_slot_in (RHALL_FFT_avg_array s) i) as [rh ->]; [rewrite H4; exact Hi|].
  simpl. apply IH. repeat split; assumption.
Qed.

Lemma seqZ_in_window W :
  W <= Z.of_nat FFT_AVG_NUMS -> Forall (fun i => 0 <= i < Z.of_nat FFT_AVG_NUMS) (seqZ 0 W).
Proof.
  intros HW. apply Forall_forall. intros i Hi. apply elem_of_seqZ in Hi. lia.
Qed.

Lemma idiv_total a b : b <> 0 -> is_Some (idiv a b).
Proof.
  intros Hb. unfold idiv. destruct (Z.eqb_spec b 0); [contradiction|]. eexists; reflexivity.
Qed.

Lemma average_window_total s :
  arrays_sized s -> 1 <= num_of_samples s <= Z.of_nat FFT_AVG_NUMS -> is_Some (average_window s).
Proof.
  intros Hs HW. unfold average_window.
  destruct (sum_samples_total (seqZ 0 (num_of_samples s)) (set_averages 0 0 0 0 s))
    as [s1 E]; [exact Hs | apply seqZ_in_window; lia |].
  rewrite E. simpl.
  apply sum_samples_frame in E as (l & r & lh & rh & ->). cbn.
  destruct (idiv_total l (num_of_samples s)) as [? ->]; [lia|].
  destruct (idiv_total r (num_of_samples s)) as [? ->]; [lia|].
  destruct (idiv_total lh (num_of_samples s)) as [? ->]; [lia|].
  destruct (idiv_total rh (num_of_samples s)) as [? ->]; [lia|].
  eexists; reflexivity.
Qed.

(** [averaging_FFT_semples] keeps the counter inside the window. *)
Lemma averaging_FFT_semples_counter W s s' :
  1 <= W <= 3 -> num_of_samples s = W -> counter_in_window W s ->
  averaging_FFT_semples s = Some s' -> counter_in_window W s'.
Proof.
  unfold counter_in_window. intros HW HN Hc. unfold averaging_FFT_semples.
  rewrite HN. unfold isub, iadd. rewrite !wrap32_id by (unfold INT_MIN, INT_MAX; lia).
  destruct (Z.eqb_spec (avg_counter s) (W - 1)) as [E|E]; intros H.
  - destruct (average_window s) as [s1|] eqn:E1; [|discriminate]. simpl in H.
    apply average_window_frame in E1 as (l & r & lh & rh & ->).
    apply distance_LUT_frame in H as (l' & r' & -> & _). cbn. lia.
  - injection H as <-. cbn. lia.
Qed.

Lemma averaging_FFT_semples_total W s :
  tables_cover -> 1 <= W <= 3 -> num_of_samples s = W -> arrays_sized s ->
  exists s', averaging_FFT_semples s = Some s' /\ arrays_sized s'.
Proof.
  intros Ht HW HN Hs. unfold averaging_FFT_semples. case_cond.
  - destruct (average_window_total s) as [s1 E1]; [exact Hs | unfold FFT_AVG_NUMS; lia |].
    rewrite E1. simpl.
    destruct (distance_LUT_total s1 Ht) as [s2 E2]. exists s2. split; [exact E2|].
    apply average_window_frame in E1 as (l & r & lh & rh & ->).
    apply distance_LUT_frame in E2 as (l' & r' & -> & _). exact Hs.
  - eexists. split; [reflexivity | exact Hs].
Qed.

(** One data-ready or idle cycle from a state inside the window ends inside the
    window, with the arrays at their size. *)
Lemma calculate_pos_counter W a s :
  tables_cover -> 1 <= W <= 3 -> arrays_sized s -> counter_in_window W s ->
  exists s', calculate_pos W a s = Some s' /\ arrays_sized s' /\ counter_in_window W s'.
Proof.
  intros Ht HW Hs Hc. destruct (MEAS_data_ready a) eqn:Hready.
  - rewrite calculate_pos_ready by exact Hready.
    rewrite calculate_FFT_stores;
      [| exact Hs | unfold counter_in_window, FFT_AVG_NUMS in *; cbn; lia].
    match goal with |- context [averaging_FFT_semples ?t] =>
      destruct (averaging_FFT_semples_total W t Ht HW) as (s1 & E1 & Hs1);
        [reflexivity | | pose proof (averaging_FFT_semples_counter W t s1 HW eq_refl Hc E1) as Hc1]
    end.
    { destruct Hs as (H1 & H2 & H3 & H4). unfold arrays_sized. cbn.
      rewrite !length_insert. tauto. }
    rewrite E1. simpl. exists (triangulate s1). split; [reflexivity|].
    destruct (triangulate_frame s1) as (x & y & g & c & ->). split; assumption.
  - rewrite calculate_pos_not_ready by exact Hready. eexists. split; [reflexivity|].
    split; assumption.
Qed.

Lemma run_counter W acqs s :
  tables_cover -> 1 <= W <= 3 -> arrays_sized s -> counter_in_window W s ->
  exists s', run W acqs s = Some s' /\ arrays_sized s' /\ counter_in_window W s'.
Proof.
  intros Ht HW. revert s. induction acqs as [|a acqs IH]; intros s Hs Hc; simpl.
  - exists s. tauto.
  - destruct (calculate_pos_counter W a s Ht HW Hs Hc) as (s1 & -> & Hs1 & Hc1). simpl.
    apply IH; assumption.
Qed.

(** C9: with one window size W of 1, 2 or 3 on every call since reset, the
    fill counter is between 0 and W-1 whenever a cycle starts; every call of
    [averaging_FFT_semples] keeps it there; and so however many acquisitions
    have been processed, the next four stores of [calculate_FFT] find their
    slot inside the arrays of three elements. *)
Theorem fill_counter_in_window W :
  tables_cover -> 1 <= W <= 3 ->
  counter_in_window W startup
  /\ (forall s s', num_of_samples s = W -> counter_in_window W s ->
        averaging_FFT_semples s = Some s' -> counter_in_window W s')
  /\ (forall acqs, exists s',
        run W acqs startup = Some s'
        /\ counter_in_window W s'
        /\ 0 <= avg_counter s' < Z.of_nat FFT_AVG_NUMS
        /\ forall v, is_Some (write_slot (LPAD_FFT_avg_array s') (avg_counter s') v)
                     /\ is_Some (write_slot (RPAD_FFT_avg_array s') (avg_counter s') v)
                     /\ is_Some (write_slot (LHALL_FFT_avg_array s') (avg_counter s') v)
                     /\ is_Some (write_slot (RHALL_FFT_avg_array s') (avg_counter s') v)).
Proof.
  intros Ht HW. split; [unfold counter_in_window; cbn; lia|].
  split; [intros s s'; apply averaging_FFT_semples_counter; exact HW|].
  intros acqs.
  destruct (run_counter W acqs startup Ht HW) as (s' & E & (H1 & H2 & H3 & H4) & Hc).
  { repeat split. }
  { unfold counter_in_window; cbn; lia. }
  exists s'. split; [exact E|]. split; [exact Hc|].
  assert (Hb : 0 <= avg_counter s' < Z.of_nat FFT_AVG_NUMS)
    by (unfold counter_in_window, FFT_AVG_NUMS in *; lia).
  split; [exact Hb|]. intros v.
  rewrite !write_slot_in by (rewrite ?H1, ?H2, ?H3, ?H4; exact Hb).
  repeat split; eexists; reflexivity.
Qed.

(** ** A full window *)

Lemma three_slots (arr : list Z) :
  length arr = FFT_AVG_NUMS -> exists x0 x1 x2, arr = [x0; x1; x2].
Proof.
  destruct arr as [|x0 [|x1 [|x2 [|]]]]; try discriminate. intros _. eauto.
Qed.

Lemma average_window_exact W s :
  1 <= W <= 3 -> num_of_samples s = W -> arrays_sized s ->
  Forall small_tone (take (Z.to_nat W) (LPAD_FFT_avg_array s)) ->
  Forall small_tone (take (Z.to_nat W) (RPAD_FFT_avg_array s)) ->
  Forall small_tone (take (Z.to_nat W) (LHALL_FFT_avg_array s)) ->
  Forall small_tone (take (Z.to_nat W) (RHALL_FFT_avg_array s)) ->
  average_window s =
  Some (set_avg_counter 0
          (set_averages (slot_sum (LPAD_FFT_avg_array s) W ÷ W)
                        (slot_sum (RPAD_FFT_avg_array s) W ÷ W)
                        (slot_sum (LHALL_FFT_avg_array s) W ÷ W)
                        (slot_sum (RHALL_FFT_avg_array s) W ÷ W) s)).
Proof.
  intros HW HN (H1 & H2 & H3 & H4).
  destruct s as [la ra lh rh dl dr vl vr x y g c k n]. cbn in *. subst n.
  destruct (three_slots la H1) as (l0 & l1 & l2 & ->).
  destruct (three_slots ra H2) as (r0 & r1 & r2 & ->).
  destruct (three_slots lh H3) as (p0 & p1 & p2 & ->).
  destruct (three_slots rh H4) as (q0 & q1 & q2 & ->).
  unfold average_window, slot_sum, small_tone.
  assert (HW3 : W = 1 \/ W = 2 \/ W = 3) by lia.
  destruct HW3 as [-> | [-> | ->]];
    [change (Z.to_nat 1) with 1%nat | change (Z.to_nat 2) with 2%nat
     | change (Z.to_nat 3) with 3%nat];
    cbn [take foldr]; rewrite ?Forall_cons; intros.
  all: cbn [num_of_samples set_averages].
  all: change (seqZ 0 1) with [0]; change (seqZ 0 2) with [0; 1];
    change (seqZ 0 3) with [0; 1; 2].
  all: cbn -[iadd_u32 idiv Z.quot Z.add].
  all: change (Z.to_nat 0) with 0%nat; change (Z.to_nat 1) with 1%nat;
    change (Z.to_nat 2) with 2%nat.
  all: cbn -[iadd_u32 idiv Z.quot Z.add].
  all: rewrite !Z.add_0_r, ?Z.add_assoc.
  all: repeat match goal with
       | |- context [iadd_u32 ?acc ?v] => rewrite (iadd_u32_id acc v) by (unfold INT_MAX; lia)
       end.
  all: rewrite !Z.add_0_l.
  all: rewrite !idiv_window by (unfold INT_MIN, INT_MAX; lia).
  all: reflexivity.
Qed.

Lemma calculate_pos_not_full W a s :
  1 <= W <= 3 -> MEAS_data_ready a = true ->
  arrays_sized s -> 0 <= avg_counter s < Z.of_nat FFT_AVG_NUMS -> avg_counter s <> W - 1 ->
  calculate_pos W a s =
  Some (triangulate
          (set_avg_counter (avg_counter s + 1)
             (set_avg_arrays
                (<[Z.to_nat (avg_counter s) := to_uint32 (LPAD_tone a)]> (LPAD_FFT_avg_array s))
                (<[Z.to_nat (avg_counter s) := to_uint32 (RPAD_tone a)]> (RPAD_FFT_avg_array s))
                (<[Z.to_nat (avg_counter s) := to_uint32 (LHALL_tone a)]> (LHALL_FFT_avg_array s))
                (<[Z.to_nat (avg_counter s) := to_uint32 (RHALL_tone a)]> (RHALL_FFT_avg_array s))
                (set_defaults (set_num_of_samples W s))))).
Proof.
  intros HW Hready Hsized Hc Hne.
  rewrite calculate_pos_ready by exact Hready.
  rewrite calculate_FFT_stores by assumption.
  rewrite averaging_FFT_semples_not_full; [reflexivity | cbn; unfold INT_MIN, INT_MAX .. ];
    cbn; unfold FFT_AVG_NUMS in Hc; lia.
Qed.

Lemma calculate_pos_full W a s :
  1 <= W <= 3 -> MEAS_data_ready a = true ->
  arrays_sized s -> avg_counter s = W - 1 ->
  let la := <[Z.to_nat (W - 1) := to_uint32 (LPAD_tone a)]> (LPAD_FFT_avg_array s) in
  let ra := <[Z.to_nat (W - 1) := to_uint32 (RPAD_tone a)]> (RPAD_FFT_avg_array s) in
  let lh := <[Z.to_nat (W - 1) := to_uint32 (LHALL_tone a)]> (LHALL_FFT_avg_array s) in
  let rh := <[Z.to_nat (W - 1) := to_uint32 (RHALL_tone a)]> (RHALL_FFT_avg_array s) in
  Forall small_tone (take (Z.to_nat W) la) -> Forall small_tone (take (Z.to_nat W) ra) ->
  Forall small_tone (take (Z.to_nat W) lh) -> Forall small_tone (take (Z.to_nat W) rh) ->
  calculate_pos W a s =
  s_cal ← distance_LUT
            (set_avg_counter 0
               (set_averages (slot_sum la W ÷ W) (slot_sum ra W ÷ W)
                             (slot_sum lh W ÷ W) (slot_sum rh W ÷ W)
                  (set_avg_arrays la ra lh rh (set_defaults (set_num_of_samples W s)))));
  Some (triangulate s_cal).
Proof.
  intros HW Hready Hsized Hc la ra lh rh Hla Hra Hlh Hrh.
  rewrite calculate_pos_ready by exact Hready.
  rewrite calculate_FFT_stores;
    [| exact Hsized | cbn; unfold FFT_AVG_NUMS; lia].
  cbn [avg_counter set_defaults set_num_of_samples set_Gamma set_X_Pos set_Y_Pos
       LPAD_FFT_avg_array RPAD_FFT_avg_array LHALL_FFT_avg_array RHALL_FFT_avg_array].
  rewrite Hc. fold la ra lh rh.
  unfold averaging_FFT_semples.
  cbn [avg_counter num_of_samples set_avg_arrays set_defaults set_num_of_samples
       set_Gamma set_X_Pos set_Y_Pos].
  rewrite Hc. unfold isub. rewrite wrap32_id by (unfold INT_MIN, INT_MAX; lia).
  rewrite Z.eqb_refl.
  rewrite (average_window_exact W); try assumption; try reflexivity.
  destruct Hsized as (H1 & H2 & H3 & H4). unfold arrays_sized. cbn.
  subst la ra lh rh. rewrite !length_insert. tauto.
Qed.

Lemma small_tone_uint32 t : small_tone t -> to_uint32 t = t.
Proof. unfold small_tone. intros H. apply to_uint32_id. lia. Qed.

(** The cycle that fills the window, with the arrays [la], [ra], [lh], [rh]
    that its four stores produce. *)
Lemma calculate_pos_full_summary W a s la ra lh rh :
  tables_cover -> 1 <= W <= 3 -> MEAS_data_ready a = true ->
  arrays_sized s -> avg_counter s = W - 1 ->
  <[Z.to_nat (W - 1) := to_uint32 (LPAD_tone a)]> (LPAD_FFT_avg_array s) = la ->
  <[Z.to_nat (W - 1) := to_uint32 (RPAD_tone a)]> (RPAD_FFT_avg_array s) = ra ->
  <[Z.to_nat (W - 1) := to_uint32 (LHALL_tone a)]> (LHALL_FFT_avg_array s) = lh ->
  <[Z.to_nat (W - 1) := to_uint32 (RHALL_tone a)]> (RHALL_FFT_avg_array s) = rh ->
  Forall small_tone (take (Z.to_nat W) la) -> Forall small_tone (take (Z.to_nat W) ra) ->
  Forall small_tone (take (Z.to_nat W) lh) -> Forall small_tone (take (Z.to_nat W) rh) ->
  exists s_avg s_cal,
    calculate_pos W a s = Some (triangulate s_cal)
    /\ distance_LUT s_avg = Some s_cal
    /\ avg_counter s_avg = 0
    /\ LPAD_FFT_distance s_avg = slot_sum la W ÷ W
    /\ RPAD_FFT_distance s_avg = slot_sum ra W ÷ W
    /\ LHALL_FFT_voltage s_avg = slot_sum lh W ÷ W
    /\ RHALL_FFT_voltage s_avg = slot_sum rh W ÷ W
    /\ avg_counter (triangulate s_cal) = 0
    /\ LHALL_FFT_voltage (triangulate s_cal) = slot_sum lh W ÷ W
    /\ RHALL_FFT_voltage (triangulate s_cal) = slot_sum rh W ÷ W.
Proof.
  intros Ht HW Hready Hsized Hc <- <- <- <- Hla Hra Hlh Hrh.
  rewrite (calculate_pos_full W a s HW Hready Hsized Hc Hla Hra Hlh Hrh).
  match goal with |- context [distance_LUT ?t] =>
    exists t; destruct (distance_LUT_total t Ht) as [s_cal E]; exists s_cal; rewrite E
  end.
  apply distance_LUT_frame in E as (l' & r' & -> & _).
  split; [reflexivity|]. split; [reflexivity|].
  match goal with |- context [triangulate ?t] =>
    destruct (triangulate_frame t) as (x & y & g & c & ->) end.
  cbn. tauto.
Qed.

(** C6: starting with the fill counter at 0, W acquisitions (W = 1, 2 or 3)
    end with the counter back at 0 and, for each of the four channels, with
    the sum of the W stored magnitudes divided by W, the quotient truncated,
    which for these non-negative sums is the floor; the calibration is run on
    these averages and the position solver, which calls the current estimator,
    on its result.  The pad averages are replaced by their distances in the
    same variables; the Hall averages are what the cycle ends with. *)
Theorem full_window_publishes_average W acqs s :
  tables_cover -> 1 <= W <= 3 -> length acqs = Z.to_nat W ->
  Forall (fun a => MEAS_data_ready a = true /\ small_tones a) acqs ->
  arrays_sized s -> avg_counter s = 0 ->
  exists s_avg s_cal s',
    run W acqs s = Some s'
    /\ LPAD_FFT_distance s_avg = tone_sum LPAD_tone acqs ÷ W
    /\ RPAD_FFT_distance s_avg = tone_sum RPAD_tone acqs ÷ W
    /\ LHALL_FFT_voltage s_avg = tone_sum LHALL_tone acqs ÷ W
    /\ RHALL_FFT_voltage s_avg = tone_sum RHALL_tone acqs ÷ W
    /\ tone_sum LPAD_tone acqs ÷ W = tone_sum LPAD_tone acqs / W
    /\ tone_sum RPAD_tone acqs ÷ W = tone_sum RPAD_tone acqs / W
    /\ tone_sum LHALL_tone acqs ÷ W = tone_sum LHALL_tone acqs / W
    /\ tone_sum RHALL_tone acqs ÷ W = tone_sum RHALL_tone acqs / W
    /\ avg_counter s_avg = 0
    /\ distance_LUT s_avg = Some s_cal
    /\ s' = triangulate s_cal
    /\ avg_counter s' = 0
    /\ LHALL_FFT_voltage s' = tone_sum LHALL_tone acqs ÷ W
    /\ RHALL_FFT_voltage s' = tone_sum RHALL_tone acqs ÷ W.
Proof.
  intros Ht HW Hlen Hacqs Hsized Hc.
  destruct s as [la ra lh rh dl dr vl vr x y g c k n].
  pose proof Hsized as (H1 & H2 & H3 & H4). cbn in H1, H2, H3, H4, Hc. subst k.
  destruct (three_slots la H1) as (l0 & l1 & l2 & ->).
  destruct (three_slots ra H2) as (r0 & r1 & r2 & ->).
  destruct (three_slots lh H3) as (p0 & p1 & p2 & ->).
  destruct (three_slots rh H4) as (q0 & q1 & q2 & ->).
  assert (HW3 : W = 1 \/ W = 2 \/ W = 3) by lia.
  destruct HW3 as [-> | [-> | ->]].
  - (* one acquisition *)
    destruct acqs as [|a1 [|]]; try discriminate Hlen.
    apply Forall_cons in Hacqs as [(Hr1 & Ha1l & Ha1r & Ha1p & Ha1q) _].
    destruct (calculate_pos_full_summary 1 a1
                (mkState [l0; l1; l2] [r0; r1; r2] [p0; p1; p2] [q0; q1; q2]
                   dl dr vl vr x y g c 0 n)
                [LPAD_tone a1; l1; l2] [RPAD_tone a1; r1; r2]
                [LHALL_tone a1; p1; p2] [RHALL_tone a1; q1; q2])
      as (s_avg & s_cal & E & Hcal & Hk & HL & HR & HP & HQ & Hk' & HP' & HQ');
      [ first [ assumption | reflexivity | lia
              | rewrite small_tone_uint32 by assumption; reflexivity
              | simpl; repeat (constructor; [assumption|]); constructor ] .. | ].
    exists s_avg, s_cal, (triangulate s_cal).
    unfold run. rewrite E. unfold tone_sum, slot_sum in *.
    change (Z.to_nat 1) with 1%nat in *.
    cbn [fmap list_fmap foldr take] in *. unfold small_tone in *.
    repeat split; try assumption; try reflexivity; try (apply Z.quot_div_nonneg; lia).
  - (* two acquisitions *)
    destruct acqs as [|a1 [|a2 [|]]]; try discriminate Hlen.
    apply Forall_cons in Hacqs as [(Hr1 & Ha1l & Ha1r & Ha1p & Ha1q) Hacqs].
    apply Forall_cons in Hacqs as [(Hr2 & Ha2l & Ha2r & Ha2p & Ha2q) _].
    cbn [run].
    rewrite (calculate_pos_not_full 2) by
      first [assumption | lia | cbn; unfold FFT_AVG_NUMS; lia].
    cbn [mbind option_bind].
    match goal with |- context [triangulate ?t] =>
      destruct (triangulate_frame t) as (x1 & y1 & g1 & c1 & ->) end.
    match goal with |- context [calculate_pos 2 a2 ?t] =>
      destruct (calculate_pos_full_summary 2 a2 t
                [LPAD_tone a1; LPAD_tone a2; l2] [RPAD_tone a1; RPAD_tone a2; r2]
                [LHALL_tone a1; LHALL_tone a2; p2] [RHALL_tone a1; RHALL_tone a2; q2])
      as (s_avg & s_cal & E & Hcal & Hk & HL & HR & HP & HQ & Hk' & HP' & HQ')
    end;
      [ first [ assumption | reflexivity | lia
              | rewrite !small_tone_uint32 by assumption; reflexivity
              | simpl; repeat (constructor; [assumption|]); constructor ] .. | ].
    exists s_avg, s_cal, (triangulate s_cal).
    rewrite E. unfold tone_sum, slot_sum in *.
    change (Z.to_nat 2) with 2%nat in *.
    cbn [fmap list_fmap foldr take] in *. unfold small_tone in *.
    repeat split; try assumption; try reflexivity; try (apply Z.quot_div_nonneg; lia).
  - (* three acquisitions *)
    destruct acqs as [|a1 [|a2 [|a3 [|]]]]; try discriminate Hlen.
    apply Forall_cons in Hacqs as [(Hr1 & Ha1l & Ha1r & Ha1p & Ha1q) Hacqs].
    apply Forall_cons in Hacqs as [(Hr2 & Ha2l & Ha2r & Ha2p & Ha2q) Hacqs].
    apply Forall_cons in Hacqs as [(Hr3 & Ha3l & Ha3r & Ha3p & Ha3q) _].
    cbn [run].
    rewrite (calculate_pos_not_full 3) by
      first [assumption | lia | cbn; unfold FFT_AVG_NUMS; lia].
    cbn [mbind option_bind].
    match goal with |- context [triangulate ?t] =>
      destruct (triangulate_frame t) as (x1 & y1 & g1 & c1 & ->) end.
    rewrite (calculate_pos_not_full 3) by
      first [assumption | lia | cbn; unfold FFT_AVG_NUMS; lia
            | cbn; rewrite !length_insert; exact Hsized].
    cbn [mbind option_bind].
    match goal with |- context [triangulate ?t] =>
      destruct (triangulate_frame t) as (x2 & y2 & g2 & c2 & ->) end.
    match goal with |- context [calculate_pos 3 a3 ?t] =>
      destruct (calculate_pos_full_summary 3 a3 t
                [LPAD_tone a1; LPAD_tone a2; LPAD_tone a3]
                [RPAD_tone a1; RPAD_tone a2; RPAD_tone a3]
                [LHALL_tone a1; LHALL_tone a2; LHALL_tone a3]
                [RHALL_tone a1; RHALL_tone a2; RHALL_tone a3])
      as (s_avg & s_cal & E & Hcal & Hk & HL & HR & HP & HQ & Hk' & HP' & HQ')
    end;
      [ first [ assumption | reflexivity | lia
              | rewrite !small_tone_uint32 by assumption; reflexivity
              | simpl; repeat (constructor; [assumption|]); constructor ] .. | ].
    exists s_avg, s_cal, (triangulate s_cal).
    rewrite E. unfold tone_sum, slot_sum in *.
    change (Z.to_nat 3) with 3%nat in *.
    cbn [fmap list_fmap foldr take] in *. unfold small_tone in *.
    repeat split; try assumption; try reflexivity; try (apply Z.quot_div_nonneg; lia).
Qed.

(** ** The quotient of two positive integers in binary64 *)

Lemma digits2_pos_bounds p :
  2 ^ (Z.pos (digits2_pos p) - 1) <= Z.pos p < 2 ^ Z.pos (digits2_pos p).
Proof.
  induction p as [p IH|p IH|]; cbn [digits2_pos]; [| |cbn; lia].
  all: rewrite Pos2Z.inj_succ.
  all: replace (Z.succ (Z.pos (digits2_pos p)) - 1) with (Z.succ (Z.pos (digits2_pos p) - 1)) by lia.
  all: rewrite !Z.pow_succ_r by lia.
  all: lia.
Qed.

Lemma Zdigits2_bounds m :
  0 < m -> 2 ^ (Zdigits2 m - 1) <= m < 2 ^ Zdigits2 m.
Proof. destruct m as [|p|p]; try lia. intros _. apply digits2_pos_bounds. Qed.

Lemma Zdigits2_pos m : 0 < m -> 0 < Zdigits2 m.
Proof. destruct m; cbn; lia. Qed.

Lemma Zdigits2_unique m d :
  0 < d -> 2 ^ (d - 1) <= m < 2 ^ d -> Zdigits2 m = d.
Proof.
  intros Hd Hm.
  assert (Hpos : 0 < m) by (pose proof (Z.pow_pos_nonneg 2 (d - 1)); lia).
  pose proof (Zdigits2_bounds m Hpos) as Hb. pose proof (Zdigits2_pos m Hpos) as Hp.
  destruct (Z.lt_trichotomy (Zdigits2 m) d) as [Hlt | [Heq | Hgt]]; [|exact Heq|].
  - assert (2 ^ Zdigits2 m <= 2 ^ (d - 1)) by (apply Z.pow_le_mono_r; lia). lia.
  - assert (2 ^ d <= 2 ^ (Zdigits2 m - 1)) by (apply Z.pow_le_mono_r; lia). lia.
Qed.

Lemma digits2_pos_iter_xO p d :
  digits2_pos (Pos.iter xO p d) = (digits2_pos p + d)%positive.
Proof.
  induction d as [|d IH] using Pos.peano_ind.
  - cbn. now rewrite Pos.add_1_r.
  - rewrite Pos.iter_succ. cbn [digits2_pos]. rewrite IH. now rewrite Pos.add_succ_r.
Qed.

(** Shifting a rounding record to the right divides its mantissa. *)
Lemma shr_1_m mrs : 0 <= shr_m mrs -> shr_m (shr_1 mrs) = shr_m mrs / 2.
Proof.
  destruct mrs as [m r s]. cbn [shr_m]. intros Hm.
  destruct m as [|[p|p|]|p]; cbn [shr_1 shr_m]; try lia.
  - reflexivity.
  - rewrite Pos2Z.inj_xI. apply Z.div_unique with 1; lia.
  - rewrite Pos2Z.inj_xO. apply Z.div_unique with 0; lia.
  - reflexivity.
Qed.

Lemma shr_iter_m p mrs :
  0 <= shr_m mrs -> shr_m (SpecFloat.iter_pos shr_1 p mrs) = shr_m mrs / 2 ^ Z.pos p.
Proof.
  revert mrs. induction p as [p IH|p IH|]; intros mrs Hm; cbn [SpecFloat.iter_pos].
  - assert (H1 : 0 <= shr_m (shr_1 mrs)) by (rewrite shr_1_m by lia; apply Z.div_pos; lia).
    assert (H2 : 0 <= shr_m (SpecFloat.iter_pos shr_1 p (shr_1 mrs)))
      by (rewrite IH by lia; apply Z.div_pos; [lia | apply Z.pow_pos_nonneg; lia]).
    rewrite IH, IH, shr_1_m by lia.
    rewrite !Z.div_div by pow2_side.
    f_equal. replace (Z.pos p~1) with (1 + Z.pos p + Z.pos p) by lia.
    rewrite !Z.pow_add_r by lia. change (2 ^ 1) with 2. ring.
  - assert (H2 : 0 <= shr_m (SpecFloat.iter_pos shr_1 p mrs))
      by (rewrite IH by lia; apply Z.div_pos; [lia | apply Z.pow_pos_nonneg; lia]).
    rewrite IH, IH by lia.
    rewrite Z.div_div by pow2_side.
    f_equal. replace (Z.pos p~0) with (Z.pos p + Z.pos p) by lia.
    rewrite Z.pow_add_r by lia. reflexivity.
  - rewrite shr_1_m by lia. reflexivity.
Qed.

Lemma shr_record_of_loc_m m l : shr_m (shr_record_of_loc m l) = m.
Proof. destruct l as [|[| |]]; reflexivity. Qed.

Lemma Zdigits2_le m d : 0 < m -> 0 <= d -> m < 2 ^ d -> Zdigits2 m <= d.
Proof.
  intros Hm Hd Hlt. pose proof (Zdigits2_bounds m Hm) as Hb.
  pose proof (Zdigits2_pos m Hm).
  destruct (Z_le_gt_dec (Zdigits2 m) d) as [|Hgt]; [assumption|].
  assert (2 ^ d <= 2 ^ (Zdigits2 m - 1)) by (apply Z.pow_le_mono_r; lia). lia.
Qed.

(** The shift that brings a mantissa to 53 digits, away from the subnormal
    range. *)
Lemma shr_fexp_normal m e l mrs e2 :
  0 < m -> -1021 <= Zdigits2 m + e ->
  shr_fexp 53 1024 m e l = (mrs, e2) ->
  0 < shr_m mrs /\ e2 = e + Z.max 0 (Zdigits2 m - 53)
  /\ Zdigits2 (shr_m mrs) = Z.min (Zdigits2 m) 53.
Proof.
  intros Hm He. unfold shr_fexp, fexp, emin.
  replace (Z.max (Zdigits2 m + e - 53) (3 - 1024 - 53) - e) with (Zdigits2 m - 53) by lia.
  pose proof (Zdigits2_bounds m Hm) as Hb.
  unfold shr. destruct (Zdigits2 m - 53) as [|p|p] eqn:E; intros [= <- <-].
  - rewrite shr_record_of_loc_m. lia.
  - rewrite shr_iter_m by (rewrite shr_record_of_loc_m; lia).
    rewrite shr_record_of_loc_m.
    assert (Hd : Zdigits2 m = 53 + Z.pos p) by lia. rewrite Hd in Hb.
    replace (53 + Z.pos p - 1) with (Z.pos p + 52) in Hb by lia.
    rewrite !Z.pow_add_r in Hb by lia.
    assert (H2p : 0 < 2 ^ Z.pos p) by (apply Z.pow_pos_nonneg; lia).
    assert (Hlo : 2 ^ 52 <= m / 2 ^ Z.pos p) by (apply Z.div_le_lower_bound; lia).
    assert (Hhi : m / 2 ^ Z.pos p < 2 ^ 53) by (apply Z.div_lt_upper_bound; lia).
    split; [lia|]. split; [lia|].
    rewrite (Zdigits2_unique _ 53) by (change (53 - 1) with 52; lia). lia.
  - rewrite shr_record_of_loc_m. lia.
Qed.

Lemma round_nearest_even_bounds m l :
  m <= round_nearest_even m l <= m + 1.
Proof. destruct l as [|[| |]]; cbn; try destruct (Z.even m); lia. Qed.

Lemma Zdigits2_next m m' :
  0 < m -> m <= m' <= m + 1 -> Zdigits2 m <= Zdigits2 m' <= Zdigits2 m + 1.
Proof.
  intros Hm Hm'. pose proof (Zdigits2_bounds m Hm) as Hb. pose proof (Zdigits2_pos m Hm) as Hp.
  destruct (Z_lt_le_dec m' (2 ^ Zdigits2 m)) as [Hlt|Hge].
  - rewrite (Zdigits2_unique m' (Zdigits2 m)) by lia. lia.
  - rewrite (Zdigits2_unique m' (Zdigits2 m + 1)); [lia | lia |].
    replace (Zdigits2 m + 1 - 1) with (Zdigits2 m) by lia.
    rewrite Z.pow_add_r by lia. lia.
Qed.

(** Rounding a positive mantissa in the normal range gives a finite number of
    the same sign and of an exponent that is not smaller. *)
Lemma binary_round_aux_finite s m e l :
  0 < m -> -1021 <= Zdigits2 m + e -> e <= 900 -> Zdigits2 m + e <= 1000 ->
  exists m' e', binary_round_aux 53 1024 s m e l = S754_finite s m' e' /\ e <= e'.
Proof.
  intros Hm Hlo Hhi1 Hhi2. unfold binary_round_aux.
  destruct (shr_fexp 53 1024 m e l) as [mrs1 e1] eqn:E1.
  apply shr_fexp_normal in E1 as (Hm1 & He1 & Hd1); [|assumption ..].
  pose proof (round_nearest_even_bounds (shr_m mrs1) (loc_of_shr_record mrs1)) as Hr.
  pose proof (Zdigits2_next _ _ Hm1 Hr) as Hd2.
  destruct (shr_fexp 53 1024 (round_nearest_even (shr_m mrs1) (loc_of_shr_record mrs1)) e1
              loc_Exact) as [mrs2 e2] eqn:E2.
  apply shr_fexp_normal in E2 as (Hm2 & He2 & _); [|lia ..].
  destruct (shr_m mrs2) as [|p|p]; try lia.
  destruct (Z.leb_spec e2 (1024 - 53)); [|lia].
  exists p, e2. split; [reflexivity | lia].
Qed.

(** A mantissa of 53 digits is left as it is. *)
Lemma binary_round_aux_canonical s m e :
  Z.pos (digits2_pos m) = 53 -> -1074 <= e <= 971 ->
  binary_round_aux 53 1024 s (Z.pos m) e loc_Exact = S754_finite s m e.
Proof.
  intros Hd He. unfold binary_round_aux, shr_fexp, fexp, emin.
  cbn [Zdigits2 shr_record_of_loc]. rewrite Hd.
  replace (Z.max (53 + e - 53) (3 - 1024 - 53) - e) with 0 by lia.
  cbn [shr loc_of_shr_record shr_m round_nearest_even Zdigits2 shr_record_of_loc].
  rewrite Hd.
  replace (Z.max (53 + e - 53) (3 - 1024 - 53) - e) with 0 by lia.
  cbn [shr shr_m].
  destruct (Z.leb_spec e (1024 - 53)); [reflexivity | lia].
Qed.

(** The double of a positive integer below 2^52: its 53-digit mantissa and
    its exponent. *)
Lemma Z2D_positive n :
  0 < n < 2 ^ 52 ->
  exists m, Z2D n = S754_finite false m (Zdigits2 n - 53) /\ Z.pos (digits2_pos m) = 53.
Proof.
  intros Hn. destruct n as [|p|p]; try lia.
  assert (Hk : Zdigits2 (Z.pos p) <= 52) by (apply Zdigits2_le; lia).
  cbn [Zdigits2] in *.
  unfold Z2D, binary_normalize, binary_round, shl_align, fexp, emin.
  replace (Z.max (Z.pos (digits2_pos p) + 0 - 53) (3 - 1024 - 53) - 0)
    with (Z.pos (digits2_pos p) - 53) by lia.
  replace (Z.max (Z.pos (digits2_pos p) + 0 - 53) (3 - 1024 - 53))
    with (Z.pos (digits2_pos p) - 53) by lia.
  destruct (Z.pos (digits2_pos p) - 53) as [|d|d] eqn:E; try lia.
  exists (Pos.iter xO p d). rewrite <- E.
  assert (Hd : Z.pos (digits2_pos (Pos.iter xO p d)) = 53)
    by (rewrite digits2_pos_iter_xO; lia).
  split; [|exact Hd]. apply binary_round_aux_canonical; [exact Hd | lia].
Qed.

(** The quotient of two finite doubles with 53-digit mantissas and exponents
    as integers below 2^52 have them. *)
Lemma ddiv_finite sx mx ex sy my ey :
  Z.pos (digits2_pos mx) = 53 -> Z.pos (digits2_pos my) = 53 ->
  -60 <= ex <= 0 -> -60 <= ey <= 0 ->
  exists m e,
    ddiv (S754_finite sx mx ex) (S754_finite sy my ey) = S754_finite (xorb sx sy) m e
    /\ ex - ey - 53 <= e.
Proof.
  intros Hmx Hmy Hex Hey. unfold ddiv, SFdiv, SFdiv_core_binary, fexp, emin.
  cbn [Zdigits2]. rewrite Hmx, Hmy.
  replace (Z.min (Z.max (53 + ex - (53 + ey) - 53) (3 - 1024 - 53)) (ex - ey))
    with (ex - ey - 53) by lia.
  replace (ex - ey - (ex - ey - 53)) with 53 by lia.
  destruct (Z.div_eucl (Z.shiftl (Z.pos mx) 53) (Z.pos my)) as [q r] eqn:Ediv.
  assert (Hq : q = Z.pos mx * 2 ^ 53 / Z.pos my).
  { rewrite <- Z.shiftl_mul_pow2 by lia. unfold Z.div. rewrite Ediv. reflexivity. }
  pose proof (digits2_pos_bounds mx) as Bx. rewrite Hmx in Bx.
  pose proof (digits2_pos_bounds my) as By. rewrite Hmy in By.
  change (53 - 1) with 52 in Bx, By.
  assert (Hlo : 2 ^ 52 <= q).
  { rewrite Hq. apply Z.div_le_lower_bound; [lia|].
    change (2 ^ 53) with 9007199254740992 in *. change (2 ^ 52) with 4503599627370496 in *.
    nia. }
  assert (Hhi : q < 2 ^ 54).
  { rewrite Hq. apply Z.div_lt_upper_bound; [lia|].
    change (2 ^ 53) with 9007199254740992 in *. change (2 ^ 52) with 4503599627370496 in *.
    change (2 ^ 54) with 18014398509481984. nia. }
  assert (Hpos : 0 < q) by lia.
  pose proof (Zdigits2_pos q Hpos). pose proof (Zdigits2_le q 54 Hpos ltac:(lia) Hhi).
  apply binary_round_aux_finite; lia.
Qed.

(** The quotient of two positive [int]s is a positive finite double, and not a
    small one: its exponent is at least -84. *)
Lemma ddiv_ints_positive n d :
  0 < n <= INT_MAX -> 0 < d <= INT_MAX ->
  exists m e, ddiv (Z2D n) (Z2D d) = S754_finite false m e /\ -84 <= e.
Proof.
  unfold INT_MAX. intros Hn Hd.
  destruct (Z2D_positive n) as (mn & -> & Hmn); [lia|].
  destruct (Z2D_positive d) as (md & -> & Hmd); [lia|].
  assert (0 < Zdigits2 n) by (apply Zdigits2_pos; lia).
  assert (0 < Zdigits2 d) by (apply Zdigits2_pos; lia).
  assert (Zdigits2 n <= 31) by (apply Zdigits2_le; lia).
  assert (Zdigits2 d <= 31) by (apply Zdigits2_le; lia).
  destruct (ddiv_finite false mn (Zdigits2 n - 53) false md (Zdigits2 d - 53))
    as (m & e & E & He); try assumption; try lia.
  exists m, e. split; [exact E | lia].
Qed.

(** ** The position cases *)

Lemma SFcompare_antisym x y c :
  SFcompare x y = Some c -> SFcompare y x = Some (CompOpp c).
Proof.
  destruct x as [sx|sx| |sx mx ex], y as [sy|sy| |sy my ey]; cbn; try discriminate;
    intros [= <-]; try (destruct sx; reflexivity); try (destruct sy; reflexivity);
    try (destruct sx, sy; reflexivity).
  destruct sx, sy; try reflexivity.
  all: assert (Hm : Pos.compare_cont Eq my mx = CompOpp (Pos.compare_cont Eq mx my))
    by (rewrite Pos.compare_cont_antisym; reflexivity).
  all: rewrite (Z.compare_antisym ex ey).
  all: destruct (ex ?= ey); cbn; try reflexivity.
  all: rewrite Hm, ?CompOpp_involutive; reflexivity.
Qed.

Lemma dlt_not_dle x y : dlt x y = true -> dle y x = false.
Proof.
  unfold dlt, dle, SFltb, SFleb. destruct (SFcompare x y) as [c|] eqn:E; [|discriminate].
  rewrite (SFcompare_antisym x y c E). destruct c; cbn; congruence.
Qed.

Lemma in_acos_range_true ca cb :
  in_acos_range ca cb = true ->
  dle ca (Z2D 1) = true /\ dle cb (Z2D 1) = true
  /\ dlt (Z2D (-1)) ca = true /\ dlt (Z2D (-1)) cb = true.
Proof.
  unfold in_acos_range. intros H.
  apply andb_prop in H as [H H4]. apply andb_prop in H as [H H3].
  apply andb_prop in H as [H1 H2]. tauto.
Qed.

Lemma dle_TINY_finite m e : -84 <= e -> dle TINY (S754_finite false m e) = true.
Proof.
  intros He. unfold dle, SFleb, TINY. cbn [SFcompare].
  destruct (Z.compare_spec (-92) e); first [lia | reflexivity].
Qed.

(** For pad distances that are lengths, the two numerators of the law of
    cosines add up to 5000, so one of the two quotients is positive and its
    angle acute: the conditions of the three position cases cover all that
    remains. *)
Lemma one_angle_acute s :
  acos_comparable -> acos_acute ->
  0 <= LPAD_FFT_distance s <= 46340 -> 0 <= RPAD_FFT_distance s <= 46340 ->
  signal_present s = true ->
  let cos_alpha := cos_alpha_of (LPAD_FFT_distance s) (RPAD_FFT_distance s) in
  let cos_beta := cos_beta_of (LPAD_FFT_distance s) (RPAD_FFT_distance s) in
  in_acos_range cos_alpha cos_beta = true ->
  let alpha := acos cos_alpha in
  let beta := acos cos_beta in
  dle HALF_PI alpha && dle HALF_PI beta = false
  /\ first_case alpha beta || second_case alpha beta || third_case alpha beta = true
  /\ triangulate s = solve cos_alpha cos_beta s.
Proof.
  intros Hcmp Hacute HL HR Hguard cos_alpha cos_beta Hrange alpha beta.
  assert (Htri : triangulate s = solve cos_alpha cos_beta s)
    by (apply triangulate_solve; assumption).
  pose proof (in_acos_range_true _ _ Hrange) as (Ha1 & Hb1 & Ha2 & Hb2).
  (* neither distance is 0: the quotient would not be finite *)
  assert (HL0 : LPAD_FFT_distance s <> 0).
  { intros E. assert (Hn : in_acos_range cos_alpha cos_beta = false).
    { apply in_acos_range_non_finite. right. subst cos_beta. rewrite E.
      apply cos_beta_of_zero. }
    congruence. }
  assert (HR0 : RPAD_FFT_distance s <> 0).
  { intros E. assert (Hn : in_acos_range cos_alpha cos_beta = false).
    { apply in_acos_range_non_finite. left. subst cos_alpha. rewrite E.
      apply cos_alpha_of_zero. }
    congruence. }
  pose proof (Hcmp _ Ha2 Ha1) as Hca. pose proof (Hcmp _ Hb2 Hb1) as Hcb.
  fold alpha in Hca. fold beta in Hcb.
  assert (Hsq : forall d, 0 <= d <= 46340 -> 0 <= d * d <= 2147395600) by (intros; nia).
  pose proof (Hsq _ HL) as HsqL. pose proof (Hsq _ HR) as HsqR.
  unfold first_case, second_case, third_case.
  (* the two numerators add up to 5000: one of them is positive *)
  destruct (Z_lt_le_dec 0 (RPAD_FFT_distance s * RPAD_FFT_distance s
                           - LPAD_FFT_distance s * LPAD_FFT_distance s + 2500)) as [Hna|Hna].
  - (* alpha is acute *)
    assert (Halpha : dlt alpha HALF_PI = true).
    { apply Hacute; [|exact Ha1]. subst cos_alpha.
      rewrite cos_alpha_of_exact by lia.
      destruct (ddiv_ints_positive
                  (RPAD_FFT_distance s * RPAD_FFT_distance s
                   - LPAD_FFT_distance s * LPAD_FFT_distance s + 2500)
                  (100 * RPAD_FFT_distance s)) as (m & e & -> & He);
        [unfold INT_MAX; lia .. |].
      apply dle_TINY_finite. exact He. }
    rewrite Halpha, (dlt_not_dle _ _ Halpha). cbn [andb orb].
    split; [reflexivity|]. split; [|exact Htri].
    destruct (dlt beta HALF_PI); [reflexivity|]. cbn [andb orb] in Hcb |- *. exact Hcb.
  - (* beta is acute *)
    assert (Hbeta : dlt beta HALF_PI = true).
    { apply Hacute; [|exact Hb1]. subst cos_beta.
      rewrite cos_beta_of_exact by lia.
      destruct (ddiv_ints_positive
                  (LPAD_FFT_distance s * LPAD_FFT_distance s + 2500
                   - RPAD_FFT_distance s * RPAD_FFT_distance s)
                  (100 * LPAD_FFT_distance s)) as (m & e & -> & He);
        [unfold INT_MAX; lia .. |].
      apply dle_TINY_finite. exact He. }
    rewrite Hbeta, (dlt_not_dle _ _ Hbeta). rewrite !andb_false_r, !andb_true_r.
    split; [reflexivity|]. split; [|exact Htri].
    destruct (dlt alpha HALF_PI); [reflexivity|]. cbn [andb orb] in Hca |- *.
    rewrite Hca. reflexivity.
Qed.

(** C7: the chain of position cases in [calculate_pos] has no branch for
    two angles of at least [M_PI/2]; it ends without an else.  For pad
    distances that are lengths, non-negative and with squares inside an
    [int], that pass the no-signal guard and whose two quotients pass the
    range check, the angles returned by an arc cosine with the two properties
    above are never both at least [M_PI/2]: [position_case] takes one of its
    three branches and assigns [X_Pos] and [Y_Pos] by the formulas of that
    branch, so the fall-through, which would leave them at their error codes
    while [Gamma] is computed from them, is not taken. *)
Theorem fourth_case_unreachable s :
  acos_comparable -> acos_acute ->
  0 <= LPAD_FFT_distance s <= 46340 -> 0 <= RPAD_FFT_distance s <= 46340 ->
  signal_present s = true ->
  let cos_alpha := cos_alpha_of (LPAD_FFT_distance s) (RPAD_FFT_distance s) in
  let cos_beta := cos_beta_of (LPAD_FFT_distance s) (RPAD_FFT_distance s) in
  in_acos_range cos_alpha cos_beta = true ->
  let alpha := acos cos_alpha in
  let beta := acos cos_beta in
  dle HALF_PI alpha && dle HALF_PI beta = false
  /\ first_case alpha beta || second_case alpha beta || third_case alpha beta = true
  /\ triangulate s = solve cos_alpha cos_beta s
  /\ exists x y,
       position_case alpha beta s = set_Y_Pos (D2I y) (set_X_Pos (D2I x) s)
       /\ (first_case alpha beta = true
             /\ x = fabs (dsub (dmul (cos alpha) (Z2D (RPAD_FFT_distance s)))
                               (Z2D (PAD_SPACING ÷ 2)))
             /\ y = dmul (sin alpha) (Z2D (RPAD_FFT_distance s))
           \/ second_case alpha beta = true
             /\ x = dadd (dmul (cos (dsub M_PI alpha)) (Z2D (RPAD_FFT_distance s)))
                         (Z2D (PAD_SPACING ÷ 2))
             /\ y = dmul (sin (dsub M_PI alpha)) (Z2D (RPAD_FFT_distance s))
           \/ third_case alpha beta = true
             /\ x = dadd (dmul (cos (dsub M_PI beta)) (Z2D (LPAD_FFT_distance s)))
                         (Z2D (PAD_SPACING ÷ 2))
             /\ y = dmul (sin (dsub M_PI beta)) (Z2D (LPAD_FFT_distance s))).
Proof.
  intros Hcmp Hacute HL HR Hguard cos_alpha cos_beta Hrange alpha beta.
  destruct (one_angle_acute s Hcmp Hacute HL HR Hguard Hrange) as (H4 & H123 & Htri).
  fold cos_alpha cos_beta alpha beta in H4, H123, Htri.
  split; [exact H4|]. split; [exact H123|]. split; [exact Htri|].
  unfold position_case.
  destruct (first_case alpha beta) eqn:E1.
  - eexists; eexists. split; [destruct s; reflexivity|]. left. repeat split.
  - destruct (second_case alpha beta) eqn:E2.
    + eexists; eexists. split; [destruct s; reflexivity|]. right; left. repeat split.
    + destruct (third_case alpha beta) eqn:E3; [|discriminate H123].
      eexists; eexists. split; [destruct s; reflexivity|]. right; right. repeat split.
Qed.

(** ** The double of an integer and the order of two of them *)

Lemma iter_xO_value p d : Z.pos (Pos.iter xO p d) = Z.pos p * 2 ^ Z.pos d.
Proof.
  induction d as [|d IH] using Pos.peano_ind.
  - cbn. lia.
  - rewrite Pos.iter_succ, Pos2Z.inj_succ, Z.pow_succ_r by lia.
    rewrite Pos2Z.inj_xO, IH. ring.
Qed.

(** The double of a positive integer below 2^52, of either sign: exponent and
    value of the mantissa. *)
Lemma binary_round_int s p :
  Z.pos p < 2 ^ 52 ->
  exists m, binary_round 53 1024 s p 0 = S754_finite s m (Z.pos (digits2_pos p) - 53)
    /\ Z.pos m = Z.pos p * 2 ^ (53 - Z.pos (digits2_pos p)).
Proof.
  intros Hn.
  assert (Hk : Zdigits2 (Z.pos p) <= 52) by (apply Zdigits2_le; lia).
  cbn [Zdigits2] in *.
  unfold binary_round, shl_align, fexp, emin.
  replace (Z.max (Z.pos (digits2_pos p) + 0 - 53) (3 - 1024 - 53) - 0)
    with (Z.pos (digits2_pos p) - 53) by lia.
  replace (Z.max (Z.pos (digits2_pos p) + 0 - 53) (3 - 1024 - 53))
    with (Z.pos (digits2_pos p) - 53) by lia.
  destruct (Z.pos (digits2_pos p) - 53) as [|d|d] eqn:E; try lia.
  exists (Pos.iter xO p d). rewrite <- E.
  assert (Hd : Z.pos (digits2_pos (Pos.iter xO p d)) = 53)
    by (rewrite digits2_pos_iter_xO; lia).
  split.
  - apply binary_round_aux_canonical; [exact Hd | lia].
  - rewrite iter_xO_value. f_equal. f_equal. lia.
Qed.

Lemma Z2D_compare a b :
  0 < a < 2 ^ 52 -> 0 < b < 2 ^ 52 -> SFcompare (Z2D a) (Z2D b) = Some (a ?= b).
Proof.
  intros Ha Hb. destruct a as [|p|p], b as [|q|q]; try lia.
  destruct (binary_round_int false p) as (m & Em & Vm); [lia|].
  destruct (binary_round_int false q) as (n & En & Vn); [lia|].
  unfold Z2D, binary_normalize. rewrite Em, En. cbn [SFcompare].
  pose proof (digits2_pos_bounds p) as Bp. pose proof (digits2_pos_bounds q) as Bq.
  assert (Hdp : Z.pos (digits2_pos p) <= 52) by (apply (Zdigits2_le (Z.pos p)); lia).
  assert (Hdq : Z.pos (digits2_pos q) <= 52) by (apply (Zdigits2_le (Z.pos q)); lia).
  destruct (Z.compare_spec (Z.pos (digits2_pos p) - 53) (Z.pos (digits2_pos q) - 53))
    as [He|He|He].
  - assert (Hpq : Z.pos (digits2_pos p) = Z.pos (digits2_pos q)) by lia.
    assert (0 < 2 ^ (53 - Z.pos (digits2_pos q))) by (apply Z.pow_pos_nonneg; lia).
    assert (Hc : (Z.pos m ?= Z.pos n) = (Z.pos p ?= Z.pos q)).
    { rewrite Vm, Vn, Hpq.
      destruct (Z.compare_spec (Z.pos p) (Z.pos q)) as [E|E|E].
      - rewrite E. apply Z.compare_refl.
      - apply Z.compare_lt_iff. nia.
      - apply Z.compare_gt_iff. nia. }
    rewrite Pos.compare_cont_spec.
    change ((m ?= n)%positive) with (Z.pos m ?= Z.pos n). rewrite Hc.
    destruct (Z.pos p ?= Z.pos q); reflexivity.
  - f_equal. symmetry. apply Z.compare_lt_iff.
    assert (2 ^ Z.pos (digits2_pos p) <= 2 ^ (Z.pos (digits2_pos q) - 1))
      by (apply Z.pow_le_mono_r; lia). lia.
  - f_equal. symmetry. apply Z.compare_gt_iff.
    assert (2 ^ Z.pos (digits2_pos q) <= 2 ^ (Z.pos (digits2_pos p) - 1))
      by (apply Z.pow_le_mono_r; lia). lia.
Qed.

Lemma fabs_Z2D x : - 2 ^ 52 < x < 2 ^ 52 -> fabs (Z2D x) = Z2D (Z.abs x).
Proof.
  intros Hx. destruct x as [|p|p]; [reflexivity | |].
  - change (Z.abs (Z.pos p)) with (Z.pos p).
    destruct (binary_round_int false p) as (m & Em & _); [lia|].
    unfold Z2D, binary_normalize. rewrite Em. reflexivity.
  - change (Z.abs (Z.neg p)) with (Z.pos p).
    destruct (binary_round_int false p) as (m & Em & Vm); [lia|].
    destruct (binary_round_int true p) as (n & En & Vn); [lia|].
    unfold Z2D, binary_normalize. rewrite Em, En.
    unfold fabs. cbn [SFabs]. f_equal. lia.
Qed.

Lemma dlt_Z2D a b : 0 <= a < 2 ^ 52 -> 0 <= b < 2 ^ 52 -> dlt (Z2D a) (Z2D b) = (a <? b).
Proof.
  intros Ha Hb. unfold dlt, SFltb.
  destruct (Z.eq_dec a 0) as [->|Na], (Z.eq_dec b 0) as [->|Nb].
  - reflexivity.
  - destruct b as [|q|q]; try lia.
    destruct (binary_round_int false q) as (n & En & _); [lia|].
    unfold Z2D, binary_normalize. rewrite En. reflexivity.
  - destruct a as [|p|p]; try lia.
    destruct (binary_round_int false p) as (n & En & _); [lia|].
    unfold Z2D, binary_normalize. rewrite En. reflexivity.
  - rewrite Z2D_compare by lia. unfold Z.ltb. destruct (a ?= b); reflexivity.
Qed.

(** [fabs(X) > MAX_X_DISTANCE] on an [int] X, decided in doubles by the code,
    is the comparison of the integers. *)
Lemma beyond_X_bound x :
  in_int x -> dlt (Z2D MAX_X_DISTANCE) (fabs (Z2D x)) = (MAX_X_DISTANCE <? Z.abs x).
Proof.
  unfold in_int, INT_MIN, INT_MAX, MAX_X_DISTANCE. intros Hx.
  rewrite fabs_Z2D by lia. apply dlt_Z2D; lia.
Qed.

(** ** The display bounds *)

Lemma wrap32_in_int z : in_int (wrap32 z).
Proof.
  unfold in_int, wrap32, INT_MIN, INT_MAX.
  pose proof (Z.mod_pos_bound (z + 2147483648) 4294967296 ltac:(lia)). lia.
Qed.

Lemma D2I_in_int x : in_int (D2I x).
Proof.
  unfold in_int, D2I, INT_MIN, INT_MAX.
  destruct x as [sx|sx| |sx mx ex]; cbv zeta; try lia. destruct sx; lia.
Qed.

(** The bounds check with its comparisons on integers. *)
Lemma check_display_bounderies_eq s :
  in_int (X_Pos s) ->
  check_display_bounderies s =
  set_Y_Pos (if MAX_Y_DISTANCE <? Y_Pos s then CALC_OUTOF_Y_RANGE else Y_Pos s)
    (set_X_Pos (if MAX_X_DISTANCE <? Z.abs (X_Pos s) then CALC_OUTOF_X_RANGE else X_Pos s) s).
Proof.
  intros Hx. unfold check_display_bounderies. cbv zeta.
  rewrite (beyond_X_bound (X_Pos s) Hx).
  destruct (MAX_X_DISTANCE <? Z.abs (X_Pos s)); destruct s; cbn [Y_Pos set_X_Pos];
    destruct (MAX_Y_DISTANCE <? _); reflexivity.
Qed.

(** X1: [check_display_bounderies] on an X position that is an [int]: the
    comparison [fabs(X_Pos) > MAX_X_DISTANCE], which the code makes in
    doubles, replaces X by its error code exactly when its magnitude is above
    100, and Y is replaced by its code exactly when it is above 200; a value
    inside its bound is left as it is, and so are the angle, the current, the
    distances and the averaging state. *)
Theorem check_display_bounderies_int s :
  in_int (X_Pos s) ->
  X_Pos (check_display_bounderies s)
  = (if MAX_X_DISTANCE <? Z.abs (X_Pos s) then CALC_OUTOF_X_RANGE else X_Pos s)
  /\ Y_Pos (check_display_bounderies s)
     = (if MAX_Y_DISTANCE <? Y_Pos s then CALC_OUTOF_Y_RANGE else Y_Pos s)
  /\ set_Y_Pos (Y_Pos s) (set_X_Pos (X_Pos s) (check_display_bounderies s)) = s.
Proof.
  intros Hx. rewrite (check_display_bounderies_eq s Hx).
  destruct s; cbn. repeat split.
Qed.

(** X2: the two error codes lie outside the display bounds themselves, so a
    second bounds check changes nothing: a flagged coordinate stays flagged
    and a displayable one stays as it is. *)
Theorem check_display_bounderies_idempotent s :
  in_int (X_Pos s) ->
  check_display_bounderies (check_display_bounderies s) = check_display_bounderies s.
Proof.
  intros Hx. rewrite (check_display_bounderies_eq s Hx).
  destruct s as [la ra lh rh dl dr vl vr x y g c k n]. cbn [X_Pos Y_Pos] in *.
  unfold in_int, INT_MIN, INT_MAX in Hx.
  rewrite check_display_bounderies_eq.
  - cbn [X_Pos Y_Pos set_X_Pos set_Y_Pos LPAD_FFT_avg_array RPAD_FFT_avg_array
         LHALL_FFT_avg_array RHALL_FFT_avg_array LPAD_FFT_distance RPAD_FFT_distance
         LHALL_FFT_voltage RHALL_FFT_voltage Gamma current avg_counter num_of_samples].
    unfold MAX_X_DISTANCE, MAX_Y_DISTANCE, CALC_OUTOF_X_RANGE, CALC_OUTOF_Y_RANGE.
    destruct (Z.ltb_spec 100 (Z.abs x)), (Z.ltb_spec 200 y).
    all: repeat match goal with
         | |- context [?a <? ?b] => destruct (Z.ltb_spec a b); try lia
         end.
    all: reflexivity.
  - cbn [X_Pos set_X_Pos set_Y_Pos].
    unfold in_int, INT_MIN, INT_MAX, CALC_OUTOF_X_RANGE.
    destruct (MAX_X_DISTANCE <? Z.abs x); lia.
Qed.

Lemma check_display_bounderies_displayable s :
  in_int (X_Pos s) -> displayable (check_display_bounderies s).
Proof.
  intros Hx. rewrite (check_display_bounderies_eq s Hx). unfold displayable.
  cbn [X_Pos Y_Pos set_X_Pos set_Y_Pos].
  unfold MAX_X_DISTANCE, MAX_Y_DISTANCE.
  destruct (Z.ltb_spec 100 (Z.abs (X_Pos s))), (Z.ltb_spec 200 (Y_Pos s)); lia.
Qed.

Lemma position_case_in_int alpha beta s :
  in_int (X_Pos s) -> in_int (X_Pos (position_case alpha beta s)).
Proof.
  intros Hx. unfold position_case.
  repeat case_cond; cbn [X_Pos set_X_Pos set_Y_Pos]; try apply D2I_in_int. exact Hx.
Qed.

Lemma orient_in_int alpha beta s :
  in_int (X_Pos s) -> in_int (X_Pos (orient alpha beta s)).
Proof.
  intros Hx. unfold orient. cbv zeta.
  case_cond; cbn [X_Pos set_X_Pos set_Gamma]; [apply wrap32_in_int | exact Hx].
Qed.

Lemma solve_displayable ca cb s : in_int (X_Pos s) -> displayable (solve ca cb s).
Proof.
  intros Hx. unfold solve. cbv zeta. apply check_display_bounderies_displayable.
  match goal with |- context [calculate_current ?t] =>
    destruct (calculate_current_frame t) as (c & ->) end.
  cbn [X_Pos set_current]. apply orient_in_int, position_case_in_int, Hx.
Qed.

Lemma triangulate_displayable s :
  in_int (X_Pos s) -> displayable s -> displayable (triangulate s).
Proof.
  intros Hx Hd. unfold triangulate. repeat case_cond; try exact Hd.
  apply solve_displayable, Hx.
Qed.

Lemma ready_cycle_displayable W a s s' :
  MEAS_data_ready a = true -> calculate_pos W a s = Some s' -> displayable s'.
Proof.
  intros Hready H. rewrite calculate_pos_ready in H by exact Hready.
  destruct (calculate_FFT a _) as [s1|] eqn:E1; [|discriminate].
  simpl in H. injection H as <-.
  apply defaults_after_FFT in E1 as (HX & HY & _).
  apply triangulate_displayable.
  - rewrite HX. unfold in_int, INT_MIN, INT_MAX, CALC_OUTOF_X_RANGE. lia.
  - unfold displayable. rewrite HX, HY. tauto.
Qed.

(** X3: whatever the tables, the maths library and the window size, the
    position published by a cycle can be drawn or is flagged: after every
    data-ready call of [calculate_pos] that returns, X is within
    [-100, 100] or is the X error code and Y is at most 200 or is the Y error
    code; a call without new data keeps that property. *)
Theorem cycle_publishes_displayable W a s s' :
  MEAS_data_ready a = true \/ displayable s ->
  calculate_pos W a s = Some s' -> displayable s'.
Proof.
  intros Hpre H. destruct (MEAS_data_ready a) eqn:Hready.
  - exact (ready_cycle_displayable W a s s' Hready H).
  - rewrite calculate_pos_not_ready in H by exact Hready. injection H as <-.
    destruct Hpre as [Hf|Hd]; [discriminate|].
    destruct s; exact Hd.
Qed.

(** ** Calls without new data *)

Lemma set_num_of_samples_same s : set_num_of_samples (num_of_samples s) s = s.
Proof. destruct s; reflexivity. Qed.

Lemma calculate_pos_num_of_samples W a s s' :
  calculate_pos W a s = Some s' -> num_of_samples s' = W.
Proof.
  intros H. destruct (MEAS_data_ready a) eqn:Hready.
  - rewrite calculate_pos_ready in H by exact Hready.
    destruct (calculate_FFT a _) as [s1|] eqn:E1; [|discriminate].
    simpl in H. injection H as <-.
    apply calculate_FFT_frame in E1 as (_ & _ & _ & _ & Hn).
    destruct (triangulate_frame s1) as (x & y & g & c & ->). exact Hn.
  - rewrite calculate_pos_not_ready in H by exact Hready. injection H as <-. reflexivity.
Qed.

(** X4: the main loop calls [calculate_pos] on every pass, whether or not an
    acquisition is complete.  Once the window size has been stored, the calls
    that find no new data change nothing at all: a run of calls gives the
    state - or the absence of one - that the data-ready calls among them give
    on their own. *)
Theorem idle_calls_change_nothing W acqs s :
  num_of_samples s = W ->
  run W acqs s = run W (filter (fun a => MEAS_data_ready a = true) acqs) s.
Proof.
  revert s. induction acqs as [|a acqs IH]; intros s Hn; [reflexivity|].
  destruct (MEAS_data_ready a) eqn:Hready.
  - rewrite filter_cons_True by exact Hready. cbn [run].
    destruct (calculate_pos W a s) as [s1|] eqn:E1; [|reflexivity].
    cbn [mbind option_bind]. apply IH. exact (calculate_pos_num_of_samples W a s s1 E1).
  - rewrite filter_cons_False by (rewrite Hready; discriminate). cbn [run].
    rewrite calculate_pos_not_ready by exact Hready. cbn [mbind option_bind].
    subst W. rewrite set_num_of_samples_same. apply IH. reflexivity.
Qed.

(** ** A change of the window size inside a window *)

Lemma write_slot_out (arr : list Z) i v :
  Z.of_nat (length arr) <= i -> write_slot arr i v = None.
Proof.
  intros H. unfold write_slot.
  destruct (Z.ltb_spec i (Z.of_nat (length arr))); [lia|].
  rewrite andb_false_r. reflexivity.
Qed.

Lemma calculate_pos_overrun W a s :
  MEAS_data_ready a = true -> Z.of_nat (length (LPAD_FFT_avg_array s)) <= avg_counter s ->
  calculate_pos W a s = None.
Proof.
  intros Hready Hc. rewrite calculate_pos_ready by exact Hready.
  unfold calculate_FFT. destruct s as [la ra lh rh dl dr vl vr x y g c k n].
  cbn [LPAD_FFT_avg_array avg_counter set_defaults set_num_of_samples
    set_Gamma set_Y_Pos set_X_Pos] in *.
  rewrite (write_slot_out la) by exact Hc. reflexivity.
Qed.

Lemma run_beyond_window acqs s :
  arrays_sized s -> 1 <= avg_counter s <= 3 ->
  Forall (fun a => MEAS_data_ready a = true) acqs ->
  (Z.of_nat (length acqs) <= 3 - avg_counter s ->
     exists s', run 1 acqs s = Some s'
       /\ avg_counter s' = avg_counter s + Z.of_nat (length acqs)
       /\ LPAD_FFT_distance s' = LPAD_FFT_distance s
       /\ RPAD_FFT_distance s' = RPAD_FFT_distance s
       /\ LHALL_FFT_voltage s' = LHALL_FFT_voltage s
       /\ RHALL_FFT_voltage s' = RHALL_FFT_voltage s)
  /\ (3 - avg_counter s < Z.of_nat (length acqs) -> run 1 acqs s = None).
Proof.
  revert s. induction acqs as [|a acqs IH]; intros s Hs Hc Hall.
  - split; [|cbn [length]; lia]. intros _. exists s. cbn [run length].
    repeat split; try reflexivity. lia.
  - apply Forall_cons in Hall as [Hready Hall]. cbn [run].
    destruct (Z.eq_dec (avg_counter s) 3) as [E3|N3].
    + split; [cbn [length]; lia|]. intros _.
      rewrite calculate_pos_overrun; [reflexivity | exact Hready |].
      destruct Hs as (-> & _). unfold FFT_AVG_NUMS. lia.
    + rewrite calculate_pos_not_full;
        [| lia | exact Hready | exact Hs | unfold FFT_AVG_NUMS; lia | lia].
      cbn [mbind option_bind].
      match goal with |- context [triangulate ?t] =>
        destruct (triangulate_frame t) as (x & y & g & c & ->);
        specialize (IH (set_outputs x y g c t)) end.
      destruct IH as [IH1 IH2].
      * destruct Hs as (H1 & H2 & H3 & H4). unfold arrays_sized. cbn.
        rewrite !length_insert. tauto.
      * cbn. lia.
      * exact Hall.
      * cbn in IH1, IH2. split; intros Hlen; cbn [length] in Hlen.
        -- destruct IH1 as (s' & -> & Hk & Hd); [lia|]. exists s'.
           split; [reflexivity|]. split; [cbn [length]; lia | exact Hd].
        -- apply IH2. lia.
Qed.

(** X5: main.c calls [calculate_pos(3)] for the averaged and
    [calculate_pos(1)] for the single measurement.  When the window size
    drops to 1 while a window of three is partly filled (fill counter 1 or
    2), the counter never meets W-1 = 0 again: every further data-ready cycle
    stores its magnitudes, moves the counter on and publishes no new
    distance or voltage, and the cycle that finds the counter at 3 stores
    outside the arrays of three elements, for which C defines no result. *)
Theorem window_switch_overruns acqs s :
  arrays_sized s -> 1 <= avg_counter s <= 2 ->
  Forall (fun a => MEAS_data_ready a = true) acqs ->
  (Z.of_nat (length acqs) <= 3 - avg_counter s ->
     exists s', run 1 acqs s = Some s'
       /\ avg_counter s' = avg_counter s + Z.of_nat (length acqs)
       /\ LPAD_FFT_distance s' = LPAD_FFT_distance s
       /\ RPAD_FFT_distance s' = RPAD_FFT_distance s
       /\ LHALL_FFT_voltage s' = LHALL_FFT_voltage s
       /\ RHALL_FFT_voltage s' = RHALL_FFT_voltage s)
  /\ (3 - avg_counter s < Z.of_nat (length acqs) -> run 1 acqs s = None).
Proof. intros Hs Hc. apply run_beyond_window; [exact Hs | lia]. Qed.

(** ** Mirror-image distances *)

Lemma wrap32_mod z : wrap32 z mod 4294967296 = z mod 4294967296.
Proof.
  unfold wrap32. rewrite Zminus_mod_idemp_l. f_equal. lia.
Qed.

Lemma wrap32_eqm a b : a mod 4294967296 = b mod 4294967296 -> wrap32 a = wrap32 b.
Proof.
  intros H. unfold wrap32. f_equal.
  rewrite (Z.add_mod a), (Z.add_mod b), H by lia. reflexivity.
Qed.

Lemma mirrored_numerator a b c :
  isub (iadd a c) b = iadd (isub a b) c.
Proof.
  unfold isub, iadd. apply wrap32_eqm.
  rewrite Zminus_mod, wrap32_mod, <- Zminus_mod.
  rewrite (Z.add_mod (wrap32 (a - b))), wrap32_mod, <- Z.add_mod by lia.
  f_equal. lia.
Qed.

(** X6: exchanging the left and the right pad distance exchanges the two
    quotients of the law of cosines, bit for bit and also where the [int]
    arithmetic wraps around; the mirrored input therefore passes the range
    check exactly when the original does, and the cable-left case of one is
    the cable-right case of the other. *)
Theorem mirrored_distances_swap_quotients dL dR :
  cos_alpha_of dR dL = cos_beta_of dL dR
  /\ cos_beta_of dR dL = cos_alpha_of dL dR
  /\ in_acos_range (cos_alpha_of dR dL) (cos_beta_of dR dL)
     = in_acos_range (cos_alpha_of dL dR) (cos_beta_of dL dR)
  /\ forall alpha beta,
       first_case beta alpha = first_case alpha beta
       /\ second_case beta alpha = third_case alpha beta
       /\ third_case beta alpha = second_case alpha beta.
Proof.
  assert (E1 : cos_alpha_of dR dL = cos_beta_of dL dR).
  { unfold cos_alpha_of, cos_beta_of. now rewrite mirrored_numerator. }
  assert (E2 : cos_beta_of dR dL = cos_alpha_of dL dR).
  { unfold cos_alpha_of, cos_beta_of. now rewrite mirrored_numerator. }
  split; [exact E1|]. split; [exact E2|]. split.
  - rewrite E1, E2. unfold in_acos_range.
    destruct (dle (cos_beta_of dL dR) (Z2D 1)), (dle (cos_alpha_of dL dR) (Z2D 1)),
      (dlt (Z2D (-1)) (cos_beta_of dL dR)), (dlt (Z2D (-1)) (cos_alpha_of dL dR)); reflexivity.
  - intros alpha beta. unfold first_case, second_case, third_case.
    repeat split; apply andb_comm.
Qed.

(** ** The sample buffers *)

Lemma write_sample_next (pre arr : list spec_float) n v :
  length pre = n -> (n < length arr)%nat ->
  write_sample (pre ++ drop n arr) (Z.of_nat n) v = Some ((pre ++ [v]) ++ drop (S n) arr).
Proof.
  intros Hpre Hn. unfold write_sample.
  rewrite length_app, length_drop, Hpre.
  destruct (Z.leb_spec 0 (Z.of_nat n)); [|lia].
  destruct (Z.ltb_spec (Z.of_nat n) (Z.of_nat (n + (length arr - n)))); [|lia].
  cbn [andb]. f_equal. rewrite Nat2Z.id.
  rewrite insert_app_r_alt by lia. rewrite Hpre, Nat.sub_diag.
  destruct (lookup_lt_is_Some_2 arr n Hn) as [x Hx].
  rewrite (drop_S arr x n Hx). cbn. now rewrite <- app_assoc.
Qed.

Lemma copy_channel_app data first js1 js2 arr :
  copy_channel data first (js1 ++ js2) arr =
  arr' ← copy_channel data first js1 arr; copy_channel data first js2 arr'.
Proof.
  revert arr. induction js1 as [|j js1 IH]; intros arr; [reflexivity|].
  cbn [app copy_channel]. destruct (write_sample arr j _) as [arr1|]; [|reflexivity].
  cbn [mbind option_bind]. apply IH.
Qed.

Lemma copy_channel_prefix data first (n : nat) arr :
  (n <= length arr)%nat ->
  copy_channel data first (seqZ 0 (Z.of_nat n)) arr =
  Some (channel (Z.of_nat n) data first ++ drop n arr).
Proof.
  unfold channel. induction n as [|n IH]; intros Hn; [reflexivity|].
  rewrite seqZ_S, copy_channel_app, IH by lia. cbn [mbind option_bind copy_channel].
  rewrite Z.add_0_l, write_sample_next; [| now rewrite length_fmap, length_seqZ, Nat2Z.id | lia].
  cbn [mbind option_bind]. rewrite fmap_app. reflexivity.
Qed.

(** X7: [split_Array] on buffers of [ADC_NUMS] elements always returns, and
    demultiplexes the interleaved record: sample [j] of the left pad, right
    pad, left Hall and right Hall buffer is the element 4j, 4j+1, 4j+2 and
    4j+3 of the record; nothing of the earlier content of the buffers is
    left, and the buffers keep their size. *)
Theorem split_Array_demultiplexes ADC_NUMS data b :
  0 <= ADC_NUMS -> buffers_sized ADC_NUMS b ->
  split_Array ADC_NUMS data b =
  Some (mkBuffers (channel ADC_NUMS data 0) (channel ADC_NUMS data 1)
                  (channel ADC_NUMS data 2) (channel ADC_NUMS data 3))
  /\ (forall k j, 0 <= j < ADC_NUMS ->
        channel ADC_NUMS data k !! Z.to_nat j = Some (data (k + 4 * j)))
  /\ forall k, Z.of_nat (length (channel ADC_NUMS data k)) = ADC_NUMS.
Proof.
  intros HN (H1 & H2 & H3 & H4). split; [|split].
  - unfold split_Array. rewrite <- (Z2Nat.id ADC_NUMS HN).
    rewrite !copy_channel_prefix by lia. cbn [mbind option_bind].
    rewrite !drop_ge, !app_nil_r by lia. reflexivity.
  - intros k j Hj. unfold channel. rewrite list_lookup_fmap.
    rewrite lookup_seqZ_lt by lia. cbn. do 2 f_equal. lia.
  - intros k. unfold channel. rewrite length_fmap, length_seqZ. lia.
Qed.

Lemma clear_pair_next arr (k : nat) :
  (2 * k + 2 <= length arr)%nat ->
  clear_pair (cleared_to (Z.of_nat (2 * k)) arr) (Z.of_nat k) =
  Some (cleared_to (Z.of_nat (2 * S k)) arr).
Proof.
  intros Hk. unfold clear_pair, cleared_to. rewrite !Nat2Z.id.
  replace (2 * Z.of_nat k) with (Z.of_nat (2 * k)) by lia.
  rewrite write_sample_next; [| apply length_replicate | lia].
  cbn [mbind option_bind].
  replace (Z.of_nat (2 * k) + 1) with (Z.of_nat (S (2 * k))) by lia.
  rewrite write_sample_next;
    [| rewrite length_app, length_replicate; cbn [length]; lia | lia].
  f_equal. replace (2 * S k)%nat with (S (S (2 * k))) by lia.
  now rewrite !replicate_S_end.
Qed.

Lemma clear_pairs_app idx1 idx2 b :
  clear_pairs (idx1 ++ idx2) b = b' ← clear_pairs idx1 b; clear_pairs idx2 b'.
Proof.
  revert b. induction idx1 as [|i idx1 IH]; intros b; [reflexivity|].
  cbn [app clear_pairs].
  destruct (clear_pair (RPAD_samples b) i); [|reflexivity].
  destruct (clear_pair (LPAD_samples b) i); [|reflexivity].
  destruct (clear_pair (RHALL_samples b) i); [|reflexivity].
  destruct (clear_pair (LHALL_samples b) i); [|reflexivity].
  cbn [mbind option_bind]. apply IH.
Qed.

Lemma clear_pairs_prefix (k : nat) b n :
  buffers_sized n b -> 2 * Z.of_nat k <= n ->
  clear_pairs (seqZ 0 (Z.of_nat k)) b =
  Some (mkBuffers (cleared_to (Z.of_nat (2 * k)) (LPAD_samples b))
                  (cleared_to (Z.of_nat (2 * k)) (RPAD_samples b))
                  (cleared_to (Z.of_nat (2 * k)) (LHALL_samples b))
                  (cleared_to (Z.of_nat (2 * k)) (RHALL_samples b))).
Proof.
  intros (H1 & H2 & H3 & H4). induction k as [|k IH]; intros Hk.
  - cbn. unfold cleared_to. cbn. destruct b; reflexivity.
  - rewrite seqZ_S, clear_pairs_app, IH by lia.
    cbn [mbind option_bind clear_pairs LPAD_samples RPAD_samples LHALL_samples RHALL_samples].
    rewrite Z.add_0_l, !clear_pair_next by lia. reflexivity.
Qed.

(** X8: [clear_Buffer] runs [ADC_NUMS / 2] passes that zero two elements of
    each buffer: it always returns and zeroes the first [2 * (ADC_NUMS / 2)]
    elements.  For an even [ADC_NUMS] the four buffers are all zero
    afterwards; for an odd one the last sample of each buffer is left as it
    was. *)
Theorem clear_Buffer_clears_pairs ADC_NUMS b :
  0 <= ADC_NUMS -> buffers_sized ADC_NUMS b ->
  clear_Buffer ADC_NUMS b =
  Some (mkBuffers (cleared_to (2 * (ADC_NUMS ÷ 2)) (LPAD_samples b))
                  (cleared_to (2 * (ADC_NUMS ÷ 2)) (RPAD_samples b))
                  (cleared_to (2 * (ADC_NUMS ÷ 2)) (LHALL_samples b))
                  (cleared_to (2 * (ADC_NUMS ÷ 2)) (RHALL_samples b)))
  /\ (forall arr, Z.of_nat (length arr) = ADC_NUMS -> Z.even ADC_NUMS = true ->
        cleared_to (2 * (ADC_NUMS ÷ 2)) arr = replicate (Z.to_nat ADC_NUMS) (S754_zero false))
  /\ (forall arr, Z.of_nat (length arr) = ADC_NUMS -> Z.odd ADC_NUMS = true ->
        cleared_to (2 * (ADC_NUMS ÷ 2)) arr !! Z.to_nat (ADC_NUMS - 1)
        = arr !! Z.to_nat (ADC_NUMS - 1)).
Proof.
  intros HN Hb.
  assert (Hq : 0 <= ADC_NUMS ÷ 2) by (apply Z.quot_pos; lia).
  assert (Hd : ADC_NUMS ÷ 2 = ADC_NUMS / 2) by (apply Z.quot_div_nonneg; lia).
  split; [|split].
  - unfold clear_Buffer. rewrite <- (Z2Nat.id (ADC_NUMS ÷ 2) Hq).
    rewrite (clear_pairs_prefix _ b ADC_NUMS Hb).
    + replace (Z.of_nat (2 * Z.to_nat (ADC_NUMS ÷ 2)))
        with (2 * Z.of_nat (Z.to_nat (ADC_NUMS ÷ 2))) by lia. reflexivity.
    + rewrite Z2Nat.id, Hd by exact Hq. pose proof (Z.mul_div_le ADC_NUMS 2). lia.
  - intros arr Hlen Heven. unfold cleared_to.
    apply Z.even_spec in Heven as [h ->].
    replace ((2 * h) ÷ 2) with h
      by (rewrite (Z.mul_comm 2 h); symmetry; apply Z.quot_mul; lia).
    rewrite drop_ge, app_nil_r by lia. reflexivity.
  - intros arr Hlen Hodd. unfold cleared_to.
    apply Z.odd_spec in Hodd as [h ->].
    replace ((2 * h + 1) ÷ 2) with h
      by (rewrite Hd; apply (Z.div_unique _ 2 h 1); lia).
    replace (2 * h + 1 - 1) with (2 * h) by lia.
    rewrite lookup_app_r by (rewrite length_replicate; lia).
    rewrite length_replicate, Nat.sub_diag, lookup_drop. f_equal. lia.
Qed.

(** ** The side of the cable *)

Lemma D2I_fabs_nonneg x : 0 <= D2I (fabs x) <= INT_MAX.
Proof.
  unfold D2I, fabs, INT_MIN, INT_MAX.
  destruct x as [sx|sx| |sx mx ex]; cbn [SFabs]; try lia. cbv zeta.
  assert (0 <= (if 0 <=? ex then Z.pos mx * 2 ^ ex else Z.pos mx / 2 ^ (- ex))).
  { destruct (Z.leb_spec 0 ex).
    - apply Z.mul_nonneg_nonneg; [lia | apply Z.pow_nonneg; lia].
    - apply Z.div_pos; [lia | apply Z.pow_pos_nonneg; lia]. }
  lia.
Qed.

(** X21: the sign convention of the offset when the cable lies between the
    pads (both angles below [M_PI/2]).  The magnitude comes from [fabs], the
    sign from the comparison of the two angles: with [alpha < beta] the
    published X is between -100 and 0, otherwise between 0 and 100, unless
    the bounds check has replaced it by the X error code. *)
Theorem between_pads_offset_sign ca cb s :
  first_case (acos ca) (acos cb) = true ->
  (dlt (acos ca) (acos cb) = true ->
     - MAX_X_DISTANCE <= X_Pos (solve ca cb s) <= 0
     \/ X_Pos (solve ca cb s) = CALC_OUTOF_X_RANGE)
  /\ (dlt (acos ca) (acos cb) = false ->
     0 <= X_Pos (solve ca cb s) <= MAX_X_DISTANCE
     \/ X_Pos (solve ca cb s) = CALC_OUTOF_X_RANGE).
Proof.
  intros Hfirst. unfold solve. cbv zeta.
  match goal with |- context [calculate_current ?t] =>
    destruct (calculate_current_frame t) as (c & Ec) end.
  rewrite Ec. clear Ec.
  unfold position_case. rewrite Hfirst. cbv zeta.
  match goal with |- context [D2I (fabs ?v)] =>
    pose proof (D2I_fabs_nonneg v) as Hx; set (x0 := D2I (fabs v)) in * end.
  match goal with |- context [set_Y_Pos ?v (set_X_Pos x0 s)] => set (y0 := v) end.
  unfold INT_MAX in Hx. unfold orient. cbv zeta.
  split; intros Hlt; rewrite Hlt.
  all: rewrite check_display_bounderies_eq;
    [| destruct s; cbn; unfold ineg; first [apply wrap32_in_int
       | unfold in_int, INT_MIN, INT_MAX; lia] ].
  all: destruct s as [la ra lh rh dl dr vl vr x y g cu k n]; cbn.
  all: unfold ineg; rewrite ?wrap32_id by (unfold INT_MIN, INT_MAX; lia).
  all: unfold MAX_X_DISTANCE, CALC_OUTOF_X_RANGE.
  - destruct (Z.ltb_spec 100 (Z.abs (- x0))); lia.
  - destruct (Z.ltb_spec 100 (Z.abs x0)); lia.
Qed.

End Calculations.

(** * The properties on concrete cycles

    The tables are [flat_LUT] and the maths library is the coarse one. *)

Lemma flat_LUT_covers : tables_cover flat_LUT flat_LUT.
Proof. unfold tables_cover, LPAD_Max, LPAD_Min, RPAD_Max, RPAD_Min. cbn. lia. Qed.

Lemma coarse_acos_comparable : acos_comparable coarse_acos.
Proof.
  intros x _ _. unfold coarse_acos. destruct (dle x (Z2D 0)); evaluate.
Qed.

Lemma coarse_acos_acute : acos_acute coarse_acos.
Proof.
  intros x Hx _. unfold coarse_acos.
  destruct x as [s|s| |s m e]; try destruct s; try discriminate Hx; evaluate.
Qed.

(** C1: a single measurement started at reset publishes the position
    (25, 0); in the next cycle the left pad saturates, the range check fails,
    and the position read afterwards is the triple of error codes, not the
    position of the cycle before. *)
Lemma prior_position_not_retained :
  exists s1 s',
    calculate_pos flat_LUT flat_LUT coarse_acos coarse_fn coarse_fn coarse_atan2
      1 (tones 300 300 100 50) startup = Some single_cycle_result
    /\ calculate_FFT flat_LUT flat_LUT (tones 1600 300 100 50)
         (set_defaults (set_num_of_samples 1 single_cycle_result)) = Some s1
    /\ signal_present s1 = true
    /\ in_acos_range (cos_alpha_of (LPAD_FFT_distance s1) (RPAD_FFT_distance s1))
                     (cos_beta_of (LPAD_FFT_distance s1) (RPAD_FFT_distance s1)) = false
    /\ calculate_pos flat_LUT flat_LUT coarse_acos coarse_fn coarse_fn coarse_atan2
         1 (tones 1600 300 100 50) single_cycle_result = Some s'
    /\ X_Pos single_cycle_result = 25 /\ X_Pos s' = 2333
    /\ Y_Pos single_cycle_result = 0 /\ Y_Pos s' = 2222
    /\ Gamma single_cycle_result = S754_finite true 6333186975980660 (-46)
    /\ Gamma s' = Z2D 2444.
Proof.
  eexists; eexists. evaluate_all.
Qed.

(** C1 on the same two cycles. *)

Lemma out_of_range_stores_error_codes_witness :
  exists s1,
    MEAS_data_ready (tones 1600 300 100 50) = true
    /\ calculate_FFT flat_LUT flat_LUT (tones 1600 300 100 50)
         (set_defaults (set_num_of_samples 1 single_cycle_result)) = Some s1
    /\ signal_present s1 = true
    /\ in_acos_range (cos_alpha_of (LPAD_FFT_distance s1) (RPAD_FFT_distance s1))
                     (cos_beta_of (LPAD_FFT_distance s1) (RPAD_FFT_distance s1)) = false
    /\ exists s',
         calculate_pos flat_LUT flat_LUT coarse_acos coarse_fn coarse_fn coarse_atan2
           1 (tones 1600 300 100 50) single_cycle_result = Some s'
         /\ X_Pos s' = CALC_OUTOF_X_RANGE /\ Y_Pos s' = CALC_OUTOF_Y_RANGE
         /\ Gamma s' = Z2D CALC_OUTOF_ANGLE_RANGE.
Proof.
  eexists.
  split; [reflexivity|].
  split; [evaluate|].
  split; [evaluate|].
  split; [evaluate|].
  eapply (out_of_range_stores_error_codes flat_LUT flat_LUT coarse_acos coarse_fn coarse_fn
            coarse_atan2 1 (tones 1600 300 100 50) single_cycle_result).
  - reflexivity.
  - evaluate.
  - evaluate.
  - evaluate.
Defined.
(** C2 at the boundary: the magnitudes 1458 and 1466, the upper bounds of the
    two tables. *)
Lemma distance_LUT_at_Max_witness :
  exists s',
    distance_LUT flat_LUT flat_LUT (set_averages 1458 1466 0 0 startup) = Some s'
    /\ LPAD_FFT_distance (set_averages 1458 1466 0 0 startup) = LPAD_Max
    /\ RPAD_FFT_distance (set_averages 1458 1466 0 0 startup) = RPAD_Max
    /\ LPAD_FFT_distance s' = FFT_NO_SIGNAL /\ RPAD_FFT_distance s' = FFT_NO_SIGNAL.
Proof.
  eexists.
  split; [evaluate|].
  split; [reflexivity|]. split; [reflexivity|].
  split;
    apply (distance_LUT_at_Max flat_LUT flat_LUT (set_averages 1458 1466 0 0 startup));
    evaluate.
Defined.

(** C3: the first cycle after reset with a window of three.  The window is
    not full, and the position fields, zero at reset, hold the error codes
    when the cycle returns. *)
Lemma partial_window_overwrites_position :
  exists s',
    calculate_pos flat_LUT flat_LUT coarse_acos coarse_fn coarse_fn coarse_atan2
      3 (tones 300 300 100 50) startup = Some s'
    /\ avg_counter startup <> 3 - 1
    /\ avg_counter s' = 1
    /\ X_Pos startup = 0 /\ X_Pos s' = 2333
    /\ Y_Pos startup = 0 /\ Y_Pos s' = 2222
    /\ Gamma startup = Z2D 0 /\ Gamma s' = Z2D 2444.
Proof.
  eexists. split; [evaluate|]. split; [vm_compute; discriminate|]. evaluate_all.
Qed.

(** C3 on the cycle after a full window of three: the three acquisitions of
    the window give both pads at 50 mm and the position (25, 0); the fourth
    acquisition starts a new window, and the cycle republishes (25, 0) with
    the same angle and current. *)
Lemma partial_window_cycle_witness :
  calculate_pos flat_LUT flat_LUT coarse_acos coarse_fn coarse_fn coarse_atan2
    3 (tones 290 310 100 50) after_second_cycle = Some window_result
  /\ X_Pos window_result = 25 /\ Y_Pos window_result = 0
  /\ exists s',
       calculate_pos flat_LUT flat_LUT coarse_acos coarse_fn coarse_fn coarse_atan2
         3 (tones 320 280 90 60) window_result = Some s'
       /\ avg_counter s' = avg_counter window_result + 1
       /\ LPAD_FFT_distance s' = LPAD_FFT_distance window_result
       /\ RPAD_FFT_distance s' = RPAD_FFT_distance window_result
       /\ LHALL_FFT_voltage s' = LHALL_FFT_voltage window_result
       /\ RHALL_FFT_voltage s' = RHALL_FFT_voltage window_result
       /\ same_outputs (triangulate coarse_acos coarse_fn coarse_fn coarse_atan2
                          (set_defaults window_result)) s'
       /\ same_outputs window_result s'.
Proof.
  assert (H1 : calculate_pos flat_LUT flat_LUT coarse_acos coarse_fn coarse_fn coarse_atan2
                 3 (tones 290 310 100 50) after_second_cycle = Some window_result)
    by (evaluate).
  assert (H2 : arrays_sized window_result) by (repeat split).
  assert (H3 : 0 <= avg_counter window_result < Z.of_nat FFT_AVG_NUMS)
    by (vm_compute; split; [discriminate | reflexivity]).
  assert (H4 : avg_counter window_result <> 3 - 1) by (vm_compute; discriminate).
  split; [exact H1|]. split; [reflexivity|]. split; [reflexivity|].
  destruct (partial_window_cycle flat_LUT flat_LUT coarse_acos coarse_fn coarse_fn coarse_atan2
              3 (tones 320 280 90 60) window_result
              ltac:(lia) eq_refl H2 H3 H4)
    as (s' & E & _ & Hk & HL & HR & HLH & HRH & Hsolve & Hprev).
  exists s'. split; [exact E|]. split; [exact Hk|]. split; [exact HL|]. split; [exact HR|].
  split; [exact HLH|]. split; [exact HRH|]. split; [exact Hsolve|].
  exact (Hprev 3 (tones 290 310 100 50) after_second_cycle eq_refl H1).
Defined.
(** C4: the current 0.714 A of an earlier cycle, then a cycle without signal
    on either pad: the position fields hold their error codes and the current
    read afterwards is still 0.714, not an error code. *)
Lemma unsolved_cycle_keeps_current_witness :
  exists s1,
    MEAS_data_ready (tones 0 0 0 0) = true
    /\ calculate_FFT flat_LUT flat_LUT (tones 0 0 0 0)
         (set_defaults (set_num_of_samples 1 earlier_result)) = Some s1
    /\ signal_present s1 = false
    /\ exists s',
         calculate_pos flat_LUT flat_LUT coarse_acos coarse_fn coarse_fn coarse_atan2
           1 (tones 0 0 0 0) earlier_result = Some s'
         /\ X_Pos s' = CALC_OUTOF_X_RANGE /\ Y_Pos s' = CALC_OUTOF_Y_RANGE
         /\ current s' = decimal_float 714 1000
         /\ current s' <> Z2F CURR_OUTOF_Y_RANGE /\ current s' <> Z2F CURR_OUTOF_Angle_RANGE.
Proof.
  eexists.
  split; [reflexivity|].
  split; [evaluate|].
  match goal with |- signal_present ?s1 = false /\ _ =>
    assert (HFFT : calculate_FFT flat_LUT flat_LUT (tones 0 0 0 0)
                     (set_defaults (set_num_of_samples 1 earlier_result)) = Some s1)
      by evaluate;
    assert (Hno : signal_present s1 = false) by evaluate;
    destruct (unsolved_cycle_keeps_current flat_LUT flat_LUT coarse_acos coarse_fn coarse_fn
                coarse_atan2 1 (tones 0 0 0 0) earlier_result s1 eq_refl HFFT
                (or_introl Hno))
      as (s' & E & HX & HY & Hc)
  end.
  split; [exact Hno|].
  exists s'. rewrite Hc.
  split; [exact E|]. split; [exact HX|]. split; [exact HY|]. split; [reflexivity|].
  split; vm_compute; discriminate.
Defined.

(** C5 on the values of the specification: Y = 20 with Gamma = 0 and Hall
    voltages 100 and 50; Y = 30; Y = 20 with Gamma = 20. *)
Lemma calculate_current_cases_witness :
  current (calculate_current
             (set_averages 0 0 100 50 (set_Gamma (Z2D 0) (set_Y_Pos 20 startup))))
  = decimal_float 714 1000
  /\ current (calculate_current (set_Gamma (Z2D 0) (set_Y_Pos 30 startup)))
     = Z2F CURR_OUTOF_Y_RANGE
  /\ current (calculate_current (set_Gamma (Z2D 20) (set_Y_Pos 20 startup)))
     = Z2F CURR_OUTOF_Angle_RANGE.
Proof.
  split; [|split].
  - apply (proj1 (proj2 (calculate_current_cases
                           (set_averages 0 0 100 50
                              (set_Gamma (Z2D 0) (set_Y_Pos 20 startup)))))); reflexivity.
  - apply (proj1 (proj2 (proj2 (calculate_current_cases
                                  (set_Gamma (Z2D 0) (set_Y_Pos 30 startup)))))).
    cbn. lia.
  - apply (proj2 (proj2 (proj2 (calculate_current_cases
                                  (set_Gamma (Z2D 20) (set_Y_Pos 20 startup)))))).
    + cbn. lia.
    + evaluate.
Defined.

(** C6 on three acquisitions after reset. *)
Lemma full_window_publishes_average_witness :
  tables_cover flat_LUT flat_LUT /\ 1 <= 3 <= 3
  /\ exists s_avg s_cal s',
       run flat_LUT flat_LUT coarse_acos coarse_fn coarse_fn coarse_atan2 3
         [tones 300 400 100 50; tones 301 402 101 50; tones 304 400 100 52] startup = Some s'
       /\ LPAD_FFT_distance s_avg = 301 /\ RPAD_FFT_distance s_avg = 400
       /\ LHALL_FFT_voltage s_avg = 100 /\ RHALL_FFT_voltage s_avg = 50
       /\ avg_counter s_avg = 0
       /\ distance_LUT flat_LUT flat_LUT s_avg = Some s_cal
       /\ s' = triangulate coarse_acos coarse_fn coarse_fn coarse_atan2 s_cal
       /\ avg_counter s' = 0.
Proof.
  split; [exact flat_LUT_covers|]. split; [lia|].
  destruct (full_window_publishes_average flat_LUT flat_LUT coarse_acos coarse_fn coarse_fn
              coarse_atan2 3
              [tones 300 400 100 50; tones 301 402 101 50; tones 304 400 100 52] startup)
    as (s_avg & s_cal & s' & E & HL & HR & HP & HQ & _ & _ & _ & _ & Hk & Hcal & Hs' & Hk' & _).
  - exact flat_LUT_covers.
  - lia.
  - reflexivity.
  - repeat constructor; cbn; lia.
  - repeat split.
  - reflexivity.
  - exists s_avg, s_cal, s'.
    split; [exact E|]. split; [exact HL|]. split; [exact HR|]. split; [exact HP|].
    split; [exact HQ|]. split; [exact Hk|]. split; [exact Hcal|]. split; [exact Hs'|].
    exact Hk'.
Defined.
(** C7, the claim as stated: a calibration table with the entry -50, which
    passes the no-signal guard.  Both quotients are -0.5 and pass the range
    check, both angles are at least [M_PI/2], none of the three conditions
    holds and [position_case] falls through: the cycle ends with [X_Pos] and
    [Y_Pos] at their error codes and with a [Gamma] computed from them, not
    the angle error code. *)
Lemma negative_distances_reach_fourth_case :
  exists s1 s',
    calculate_FFT negative_LUT negative_LUT (tones 300 300 100 50)
      (set_defaults (set_num_of_samples 1 startup)) = Some s1
    /\ LPAD_FFT_distance s1 = -50 /\ RPAD_FFT_distance s1 = -50
    /\ signal_present s1 = true
    /\ in_acos_range (cos_alpha_of (-50) (-50)) (cos_beta_of (-50) (-50)) = true
    /\ dle HALF_PI (coarse_acos (cos_alpha_of (-50) (-50)))
       && dle HALF_PI (coarse_acos (cos_beta_of (-50) (-50))) = true
    /\ first_case (coarse_acos (cos_alpha_of (-50) (-50))) (coarse_acos (cos_beta_of (-50) (-50)))
       || second_case (coarse_acos (cos_alpha_of (-50) (-50)))
                      (coarse_acos (cos_beta_of (-50) (-50)))
       || third_case (coarse_acos (cos_alpha_of (-50) (-50)))
                     (coarse_acos (cos_beta_of (-50) (-50))) = false
    /\ position_case coarse_fn coarse_fn (coarse_acos (cos_alpha_of (-50) (-50)))
         (coarse_acos (cos_beta_of (-50) (-50))) s1 = s1
    /\ calculate_pos negative_LUT negative_LUT coarse_acos coarse_fn coarse_fn coarse_atan2
         1 (tones 300 300 100 50) startup = Some s'
    /\ X_Pos s' = CALC_OUTOF_X_RANGE /\ Y_Pos s' = CALC_OUTOF_Y_RANGE
    /\ Gamma s' = S754_finite false 8742575810906785 (-36)
    /\ Z2D CALC_OUTOF_ANGLE_RANGE = S754_finite false 5374412836569088 (-41).
Proof.
  eexists; eexists. evaluate_all.
Qed.

(** C7 on the equidistant cable: both distances 50 mm, both quotients 0.5;
    the first branch assigns the position (25, 0). *)
Lemma fourth_case_unreachable_witness :
  acos_comparable coarse_acos /\ acos_acute coarse_acos
  /\ signal_present (set_averages 50 50 0 0 startup) = true
  /\ in_acos_range (cos_alpha_of 50 50) (cos_beta_of 50 50) = true
  /\ dle HALF_PI (coarse_acos (cos_alpha_of 50 50))
     && dle HALF_PI (coarse_acos (cos_beta_of 50 50)) = false
  /\ first_case (coarse_acos (cos_alpha_of 50 50)) (coarse_acos (cos_beta_of 50 50))
     || second_case (coarse_acos (cos_alpha_of 50 50)) (coarse_acos (cos_beta_of 50 50))
     || third_case (coarse_acos (cos_alpha_of 50 50)) (coarse_acos (cos_beta_of 50 50)) = true
  /\ exists x y,
       position_case coarse_fn coarse_fn (coarse_acos (cos_alpha_of 50 50))
         (coarse_acos (cos_beta_of 50 50)) (set_averages 50 50 0 0 startup)
       = set_Y_Pos (D2I y) (set_X_Pos (D2I x) (set_averages 50 50 0 0 startup))
       /\ D2I x = 25 /\ D2I y = 0.
Proof.
  split; [exact coarse_acos_comparable|]. split; [exact coarse_acos_acute|].
  split; [reflexivity|]. split; [evaluate|].
  destruct (fourth_case_unreachable coarse_acos coarse_fn coarse_fn coarse_atan2
              (set_averages 50 50 0 0 startup)
              coarse_acos_comparable coarse_acos_acute)
    as (H4 & H123 & _ & x & y & Hpos & _).
  - cbn. lia.
  - cbn. lia.
  - reflexivity.
  - evaluate.
  - split; [exact H4|]. split; [exact H123|].
    exists x, y. split; [exact Hpos|].
    assert (HX : X_Pos (set_Y_Pos (D2I y) (set_X_Pos (D2I x) (set_averages 50 50 0 0 startup)))
                 = 25) by (rewrite <- Hpos; evaluate).
    assert (HY : Y_Pos (set_Y_Pos (D2I y) (set_X_Pos (D2I x) (set_averages 50 50 0 0 startup)))
                 = 0) by (rewrite <- Hpos; evaluate).
    split; [exact HX | exact HY].
Defined.


(** C9 for the window of three, on four acquisitions after reset. *)
Lemma fill_counter_in_window_witness :
  tables_cover flat_LUT flat_LUT /\ 1 <= 3 <= 3
  /\ counter_in_window 3 startup
  /\ exists s',
       run flat_LUT flat_LUT coarse_acos coarse_fn coarse_fn coarse_atan2 3
         [tones 300 400 100 50; tones 301 402 101 50; tones 304 400 100 52;
          tones 1 2 3 4] startup = Some s'
       /\ counter_in_window 3 s'
       /\ 0 <= avg_counter s' < Z.of_nat FFT_AVG_NUMS.
Proof.
  split; [exact flat_LUT_covers|]. split; [lia|].
  destruct (fill_counter_in_window flat_LUT flat_LUT coarse_acos coarse_fn coarse_fn
              coarse_atan2 3 flat_LUT_covers ltac:(lia)) as (H0 & _ & Hrun).
  split; [exact H0|].
  destruct (Hrun [tones 300 400 100 50; tones 301 402 101 50; tones 304 400 100 52;
                  tones 1 2 3 4]) as (s' & E & Hc & Hb & _).
  exists s'. split; [exact E|]. split; [exact Hc | exact Hb].
Defined.

(** C10 on a cycle whose left pad reads 1600, above the upper bound 1458 of
    its table. *)
Lemma saturated_pad_gives_no_position_witness :
  exists s1,
    MEAS_data_ready (tones 1600 300 100 50) = true
    /\ calculate_FFT flat_LUT flat_LUT (tones 1600 300 100 50)
         (set_defaults (set_num_of_samples 1 startup)) = Some s1
    /\ LPAD_FFT_distance s1 = 0
    /\ non_finite (cos_beta_of (LPAD_FFT_distance s1) (RPAD_FFT_distance s1)) = true
    /\ in_acos_range (cos_alpha_of (LPAD_FFT_distance s1) (RPAD_FFT_distance s1))
                     (cos_beta_of (LPAD_FFT_distance s1) (RPAD_FFT_distance s1)) = false
    /\ calculate_pos flat_LUT flat_LUT coarse_acos coarse_fn coarse_fn coarse_atan2
         1 (tones 1600 300 100 50) startup = Some s1
    /\ X_Pos s1 = CALC_OUTOF_X_RANGE /\ Y_Pos s1 = CALC_OUTOF_Y_RANGE
    /\ Gamma s1 = Z2D CALC_OUTOF_ANGLE_RANGE.
Proof.
  eexists.
  split; [reflexivity|].
  split; [evaluate|].
  split; [reflexivity|].
  match goal with |- context [non_finite (cos_beta_of (LPAD_FFT_distance ?s1) _)] =>
    pose proof (proj2 (saturated_pad_gives_no_position flat_LUT flat_LUT coarse_acos coarse_fn
                         coarse_fn coarse_atan2)
                  1 (tones 1600 300 100 50) startup s1 eq_refl eq_refl (or_introl eq_refl))
      as (HL & _ & Hrange & Hpos & HX & HY & HG)
  end.
  split; [exact (HL eq_refl)|]. split; [exact Hrange|]. split; [exact Hpos|].
  split; [exact HX|]. split; [exact HY | exact HG].
Defined.

(** * buzzer.c *)

Lemma range_check (f : Z -> bool) n :
  forallb f (seqZ 0 n) = true -> forall i, 0 <= i < n -> f i = true.
Proof.
  intros H i Hi. apply Is_true_true_2 in H.
  apply forallb_True in H. rewrite Forall_seqZ in H.
  apply Is_true_true_1, H. lia.
Qed.

Lemma note_prescaler_range i :
  0 <= i < 24 -> exists p, note_prescaler i = Some p /\ 2125 <= p <= 8030.
Proof.
  intros Hi.
  pose proof (range_check
    (fun i => match note_prescaler i with
              | Some p => (2125 <=? p) && (p <=? 8030)
              | None => false
              end) 24 ltac:(evaluate) i Hi) as H.
  cbv beta in H. destruct (note_prescaler i) as [p|]; [|discriminate].
  exists p. split; [reflexivity|]. apply andb_prop in H as [H1 H2]. lia.
Qed.

Lemma note_prescaler_outside i : i < 0 \/ 24 <= i -> note_prescaler i = None.
Proof.
  intros Hi. unfold note_prescaler, read_slot.
  destruct (Z.leb_spec 0 i); [|reflexivity].
  rewrite lookup_ge_None_2; [reflexivity|]. cbn [length note]. lia.
Qed.

(** X9: [BUZZER_set_note] on the 24 notes of the table: every index from 0
    to 23 has a prescaler, between 2125 (B6) and 8030 (C5), and a higher
    index never has a larger one, so the pitch rises with the index; no
    divisor is zero.  An index outside the table has no result: the function
    reads [note[set_note]] without a check. *)
Theorem BUZZER_set_note_table b i j :
  (0 <= i < 24 ->
     exists p, BUZZER_set_note i b = Some (store_prescaler p b) /\ 2125 <= p <= 8030)
  /\ (0 <= i <= j -> j < 24 ->
     exists p q, BUZZER_set_note i b = Some (store_prescaler p b)
       /\ BUZZER_set_note j b = Some (store_prescaler q b) /\ q <= p)
  /\ (i < 0 \/ 24 <= i -> BUZZER_set_note i b = None).
Proof.
  unfold BUZZER_set_note. split; [|split].
  - intros Hi. destruct (note_prescaler_range i Hi) as (p & -> & Hp). exists p. tauto.
  - intros Hi Hj.
    pose proof (range_check
      (fun i => forallb (fun j =>
         match note_prescaler i, note_prescaler j with
         | Some p, Some q => negb (i <=? j) || (q <=? p)
         | _, _ => false
         end) (seqZ 0 24)) 24 ltac:(evaluate) i ltac:(lia)) as H.
    cbv beta in H. apply (range_check _ 24) with (i := j) in H; [|lia].
    destruct (note_prescaler i) as [p|]; [|discriminate].
    destruct (note_prescaler j) as [q|]; [|discriminate].
    exists p, q. repeat split.
    destruct (Z.leb_spec i j); [|lia]. cbn in H. lia.
  - intros Hi. now rewrite note_prescaler_outside.
Qed.

(** X10: for every note of the table, [BUZZER_set_note] with its index and
    [BUZZER_set_freq] with its frequency, as [BUZZER_play_melody] calls it,
    store the same prescaler, although one divides on [int] and the other on
    [uint32_t]. *)
Theorem BUZZER_set_note_as_set_freq i b :
  0 <= i < 24 ->
  exists n, read_slot note i = Some n /\ BUZZER_set_note i b = BUZZER_set_freq n b.
Proof.
  intros Hi.
  pose proof (range_check
    (fun i => match read_slot note i with
              | Some n =>
                  match note_prescaler i, freq_prescaler n with
                  | Some p, Some q => p =? q
                  | _, _ => false
                  end
              | None => false
              end) 24 ltac:(evaluate) i Hi) as H.
  cbv beta in H. unfold BUZZER_set_note, BUZZER_set_freq.
  destruct (read_slot note i) as [n|]; [|discriminate]. exists n. split; [reflexivity|].
  destruct (note_prescaler i) as [p|]; [|discriminate].
  destruct (freq_prescaler n) as [q|]; [|discriminate].
  apply Z.eqb_eq in H as ->. reflexivity.
Qed.

Lemma BUZZER_set_note_as_set_freq_witness :
  exists n, read_slot note 9 = Some n
    /\ BUZZER_set_note 9 (mkBuzzer false false 2100 2100 false false)
       = BUZZER_set_freq n (mkBuzzer false false 2100 2100 false false).
Proof. apply (BUZZER_set_note_as_set_freq 9). lia. Defined.

(** X11: [BUZZER_set_freq] stores the prescaler 4200000 / freq for every
    frequency from 1 Hz up to the largest whose tenfold fits a [uint32_t];
    for the frequency 0 the divisor is zero and the call has no result. *)
Theorem BUZZER_set_freq_prescaler b :
  BUZZER_set_freq 0 b = None
  /\ forall freq, 1 <= freq <= 429496729 ->
       BUZZER_set_freq freq b = Some (store_prescaler (4200000 / freq) b).
Proof.
  split; [reflexivity|]. intros freq Hf. unfold BUZZER_set_freq, freq_prescaler.
  change (to_uint32 (TIM_TOP + 1)) with 10. cbv zeta.
  rewrite to_uint32_id by lia.
  replace (freq * 10) with (5 * freq * 2) by lia. rewrite Z.div_mul by lia.
  destruct (Z.eqb_spec (5 * freq) 0); [lia|]. cbn [mbind option_bind].
  do 2 f_equal. unfold F_CLK. rewrite <- Z.div_div by lia. reflexivity.
Qed.

(** * menu.c *)

(** X12: [MENU_set_entry] and [MENU_get_entry] on the table of two entries:
    an entry stored at a valid item is the one read back there and the other
    entry is not touched; for an item outside the table the store does
    nothing and the read returns entry 0. *)
Theorem MENU_entry_round_trip item entry m :
  length (MENU_entry m) = 2%nat ->
  (0 <= item < MENU_ENTRY_COUNT ->
     MENU_get_entry item (MENU_set_entry item entry m) = Some entry
     /\ forall other, 0 <= other < MENU_ENTRY_COUNT -> other <> item ->
          MENU_get_entry other (MENU_set_entry item entry m) = MENU_get_entry other m)
  /\ (item < 0 \/ MENU_ENTRY_COUNT <= item ->
     MENU_set_entry item entry m = m
     /\ MENU_get_entry item m = MENU_entry m !! 0%nat).
Proof.
  intros Hlen. destruct m as [tr es xo yo io inew]. cbn [MENU_entry] in Hlen.
  destruct es as [|e0 [|e1 [|e2 es]]]; try discriminate. clear Hlen.
  unfold MENU_ENTRY_COUNT. split.
  - intros Hi. assert (Hc : item = 0 \/ item = 1) by lia.
    split.
    + destruct Hc as [-> | ->]; reflexivity.
    + intros other Ho Hne. assert (Hc' : other = 0 \/ other = 1) by lia.
      destruct Hc as [-> | ->], Hc' as [-> | ->]; try contradiction; reflexivity.
  - intros Hi. unfold MENU_set_entry, MENU_get_entry, MENU_ENTRY_COUNT.
    cbn [MENU_entry lookup list_lookup mbind option_bind].
    destruct (Z.leb_spec 0 item), (Z.gtb_spec 2 item); cbn [andb]; try lia; split; reflexivity.
Qed.

Lemma MENU_entry_round_trip_witness :
  (MENU_get_entry MENU_MULTI
     (MENU_set_entry MENU_MULTI both_entry (menu_reset [average_entry; single_entry]))
   = Some both_entry
   /\ forall other, 0 <= other < MENU_ENTRY_COUNT -> other <> MENU_MULTI ->
        MENU_get_entry other
          (MENU_set_entry MENU_MULTI both_entry (menu_reset [average_entry; single_entry]))
        = MENU_get_entry other (menu_reset [average_entry; single_entry]))
  /\ (MENU_set_entry MENU_CABLE both_entry (menu_reset [average_entry; single_entry])
      = menu_reset [average_entry; single_entry]
      /\ MENU_get_entry MENU_CABLE (menu_reset [average_entry; single_entry])
         = MENU_entry (menu_reset [average_entry; single_entry]) !! 0%nat).
Proof.
  split.
  - apply (MENU_entry_round_trip MENU_MULTI both_entry
             (menu_reset [average_entry; single_entry]) eq_refl).
    unfold MENU_MULTI, MENU_ENTRY_COUNT. lia.
  - apply (MENU_entry_round_trip MENU_CABLE both_entry
             (menu_reset [average_entry; single_entry]) eq_refl).
    unfold MENU_CABLE, MENU_ENTRY_COUNT. lia.
Defined.

(** [MENU_check_transition] in one piece: the inversions, then, for a touch
    with no transition pending, the new item and the test for two equal
    items. *)
Lemma MENU_check_transition_eq XSize YSize e f ts m :
  2 <= XSize ->
  MENU_check_transition XSize YSize e f ts m =
  Some (if negb (TouchDetected ts =? 0) && (MENU_NONE =? MENU_transition m)
        then same_item_twice
               (mkMenu (MENU_transition m) (MENU_entry m) (x_circle_old m) (y_circle_old m)
                  (item_new m) (touched_item XSize YSize (oriented XSize YSize e f ts)))
        else m).
Proof.
  intros HX.
  assert (Hw : (XSize / MENU_ENTRY_COUNT =? 0) = false).
  { apply Z.eqb_neq. unfold MENU_ENTRY_COUNT.
    pose proof (Z.div_le_mono 2 XSize 2 ltac:(lia) HX) as H.
    change (2 / 2) with 1 in H. lia. }
  unfold MENU_check_transition, touched_item, oriented. cbv zeta.
  destruct e, f; cbn [TouchDetected X Y];
    destruct (TouchDetected ts =? 0); cbn [negb andb]; try reflexivity;
    destruct (MENU_NONE =? MENU_transition m); try reflexivity.
  all: repeat branch; try reflexivity; try (rewrite Hw in *; discriminate).
  all: unfold set_item_new in *; cbn [item_new] in *; congruence.
Qed.

Lemma poll_menu_eq XSize YSize e f ts m :
  2 <= XSize ->
  poll_menu XSize YSize e f ts m =
  Some (MENU_get_transition
          (if negb (TouchDetected ts =? 0) && (MENU_NONE =? MENU_transition m)
           then same_item_twice
                  (mkMenu (MENU_transition m) (MENU_entry m) (x_circle_old m) (y_circle_old m)
                     (item_new m) (touched_item XSize YSize (oriented XSize YSize e f ts)))
           else m)).
Proof.
  intros HX. unfold poll_menu. rewrite MENU_check_transition_eq by exact HX. reflexivity.
Qed.

Lemma touched_item_is_item XSize YSize ts : is_item (touched_item XSize YSize ts).
Proof.
  unfold touched_item, is_item, MENU_SINGLE, MENU_NONE, MENU_CABLE, MENU_SUBTASK,
    MENU_ENTRY_COUNT. cbv zeta.
  destruct (_ && _); [|destruct (_ && _); lia].
  destruct (Z.gtb_spec 0 (to_uint8 (X ts / (XSize / 2)))),
    (Z.leb_spec 2 (to_uint8 (X ts / (XSize / 2)))); cbn [orb]; lia.
Qed.

(** X13: the main loop is handed a transition only after two touches in a
    row on the same item.  When a poll that starts with no transition pending
    reports an item other than [MENU_NONE], the screen is touched, the touch
    designates that item - in the menu bar with the quotient of its column
    reduced to one byte, as the store into [item_new] leaves it - and the
    touch accepted before it designated the same item; the poll leaves
    nothing pending and forgets the item, so that the next touch alone cannot
    report it again. *)
Theorem transition_needs_two_touches XSize YSize e f ts m i m' :
  2 <= XSize -> MENU_transition m = MENU_NONE ->
  poll_menu XSize YSize e f ts m = Some (i, m') -> i <> MENU_NONE ->
  (TouchDetected ts =? 0) = false
  /\ touched_item XSize YSize (oriented XSize YSize e f ts) = i
  /\ item_new m = i
  /\ item_new m' = MENU_NONE /\ MENU_transition m' = MENU_NONE.
Proof.
  intros HX Htr H Hi. rewrite poll_menu_eq in H by exact HX.
  rewrite Htr in H. cbn [Z.eqb MENU_NONE Pos.eqb andb] in H.
  destruct (TouchDetected ts =? 0); cbn [negb andb] in H.
  - injection H as H _. cbn in H. congruence.
  - unfold same_item_twice in H. cbn [item_new item_old] in H.
    destruct (Z.eqb_spec (touched_item XSize YSize (oriented XSize YSize e f ts)) (item_new m))
      as [E|E]; injection H as H1 H2; cbn in H1; subst m'; cbn; [|congruence].
    subst i. rewrite E. repeat split.
Qed.

Lemma transition_needs_two_touches_witness :
  (TouchDetected bar_left =? 0) = false
  /\ touched_item 240 320 (oriented 240 320 false false bar_left) = MENU_SINGLE
  /\ item_new left_seen = MENU_SINGLE
  /\ item_new (mkMenu MENU_NONE [] 20 20 MENU_SINGLE MENU_NONE) = MENU_NONE
  /\ MENU_transition (mkMenu MENU_NONE [] 20 20 MENU_SINGLE MENU_NONE) = MENU_NONE.
Proof.
  apply (transition_needs_two_touches 240 320 false false bar_left left_seen MENU_SINGLE
           (mkMenu MENU_NONE [] 20 20 MENU_SINGLE MENU_NONE));
    [lia | reflexivity | evaluate | unfold MENU_SINGLE, MENU_NONE; lia].
Defined.

(** X14: a touch that stays on one item is reported on every second pass of
    the main loop.  From a state with nothing pending whose last item is a
    different one, the first poll reports [MENU_NONE], the second reports the
    item, and the poll after that reports [MENU_NONE] again whatever the
    touch screen says. *)
Theorem held_touch_fires_every_second_poll XSize YSize e f ts1 ts2 m j :
  2 <= XSize -> MENU_transition m = MENU_NONE -> item_new m <> j -> j <> MENU_NONE ->
  (TouchDetected ts1 =? 0) = false -> (TouchDetected ts2 =? 0) = false ->
  touched_item XSize YSize (oriented XSize YSize e f ts1) = j ->
  touched_item XSize YSize (oriented XSize YSize e f ts2) = j ->
  exists m1 m2,
    poll_menu XSize YSize e f ts1 m = Some (MENU_NONE, m1)
    /\ poll_menu XSize YSize e f ts2 m1 = Some (j, m2)
    /\ forall ts3, exists m3, poll_menu XSize YSize e f ts3 m2 = Some (MENU_NONE, m3).
Proof.
  intros HX Htr Hnew Hj Hd1 Hd2 H1 H2.
  rewrite !poll_menu_eq by exact HX. rewrite Hd1, H1, Htr.
  cbn [negb andb Z.eqb MENU_NONE Pos.eqb]. unfold same_item_twice at 1.
  cbn [item_new item_old].
  destruct (Z.eqb_spec j (item_new m)) as [E|_]; [congruence|].
  eexists. eexists. split; [reflexivity|].
  rewrite !poll_menu_eq by exact HX. rewrite Hd2, H2.
  cbn [negb andb Z.eqb MENU_NONE Pos.eqb MENU_get_transition MENU_transition snd].
  unfold same_item_twice at 1.
  cbn [item_new item_old MENU_transition MENU_entry x_circle_old y_circle_old].
  rewrite Z.eqb_refl. cbn [MENU_get_transition MENU_transition].
  split; [reflexivity|]. intros ts3.
  rewrite !poll_menu_eq by exact HX.
  cbn [negb andb Z.eqb MENU_NONE Pos.eqb MENU_get_transition MENU_transition snd
       item_new item_old MENU_entry x_circle_old y_circle_old].
  destruct (TouchDetected ts3 =? 0); cbn [negb andb].
  - eexists. reflexivity.
  - unfold same_item_twice. cbn [item_new item_old].
    destruct (touched_item XSize YSize (oriented XSize YSize e f ts3) =? MENU_NONE);
      eexists; reflexivity.
Qed.

Lemma held_touch_fires_every_second_poll_witness :
  exists m1 m2,
    poll_menu 240 320 false false bar_left (menu_reset []) = Some (MENU_NONE, m1)
    /\ poll_menu 240 320 false false bar_left m1 = Some (MENU_SINGLE, m2)
    /\ forall ts3, exists m3, poll_menu 240 320 false false ts3 m2 = Some (MENU_NONE, m3).
Proof.
  apply (held_touch_fires_every_second_poll 240 320 false false bar_left bar_left
           (menu_reset []) MENU_SINGLE);
    first [ lia | reflexivity | (vm_compute; discriminate) ].
Defined.

Lemma poll_menu_valid XSize YSize e f ts m :
  2 <= XSize -> menu_items_valid m ->
  exists i m', poll_menu XSize YSize e f ts m = Some (i, m')
    /\ is_item i /\ menu_items_valid m'.
Proof.
  intros HX [Ht Hn]. rewrite poll_menu_eq by exact HX.
  pose proof (touched_item_is_item XSize YSize (oriented XSize YSize e f ts)) as Hq.
  assert (H4 : is_item MENU_NONE) by (unfold is_item, MENU_SINGLE, MENU_NONE; lia).
  destruct (negb (TouchDetected ts =? 0) && (MENU_NONE =? MENU_transition m)).
  - unfold same_item_twice. cbn [item_new item_old].
    destruct (_ =? _); eexists; eexists; (split; [reflexivity|]);
      unfold menu_items_valid; cbn; tauto.
  - eexists; eexists. split; [reflexivity|]. unfold menu_items_valid; cbn. tauto.
Qed.

(** X15: on a display at least two pixels wide every poll returns, and the
    items that the polls of the main loop report are always enumerators of
    [MENU_item_t], for any sequence of touch states: the [default] branch of
    the [switch] in [main] is never taken. *)
Theorem polls_report_items XSize YSize e f touches m :
  2 <= XSize -> menu_items_valid m ->
  exists items m', polls XSize YSize e f touches m = Some (items, m')
    /\ Forall is_item items /\ length items = length touches /\ menu_items_valid m'.
Proof.
  intros HX. revert m. induction touches as [|t touches IH]; intros m Hm.
  - exists [], m. split; [reflexivity|]. split; [constructor|]. split; [reflexivity | exact Hm].
  - destruct (poll_menu_valid XSize YSize e f t m HX Hm) as (i & m1 & E1 & Hi & Hm1).
    destruct (IH m1 Hm1) as (items & m' & E & Hall & Hlen & Hm').
    exists (i :: items), m'. cbn [polls]. rewrite E1. cbn [mbind option_bind snd fst].
    rewrite E. cbn [mbind option_bind snd fst].
    split; [reflexivity|]. split; [constructor; assumption|].
    split; [cbn [length]; lia | exact Hm'].
Qed.

Lemma polls_report_items_witness :
  exists items m',
    polls 240 320 false false [bar_left; bar_left; no_touch; data_area; data_area]
      (menu_reset []) = Some (items, m')
    /\ Forall is_item items
    /\ length items = length [bar_left; bar_left; no_touch; data_area; data_area]
    /\ menu_items_valid m'.
Proof.
  apply (polls_report_items 240 320 false false
           [bar_left; bar_left; no_touch; data_area; data_area] (menu_reset []));
    [lia | unfold menu_items_valid, is_item, menu_reset, MENU_SINGLE, MENU_NONE; cbn; lia].
Defined.

(** * The main loop *)

Lemma choose_valid item m : settings_valid m -> settings_valid (choose item m).
Proof.
  destruct m as [t st tc told stold tcold rc fl tx].
  intros (Ht & Hs & Htc & Hrc & E1 & E2 & E3 & Etx & _). cbn in *. subst.
  assert (Hc : rc = 0 \/ rc = 1 \/ rc = 2 \/ rc = 3 \/ rc = 4 \/ rc = 5 \/ rc = 6 \/ rc = 7
               \/ rc = 8 \/ rc = 9 \/ rc = 10) by lia.
  clear Hrc. unfold choose, handle_transition.
  destruct (Z.eqb_spec item MENU_NONE); [|destruct (Z.eqb_spec item MENU_SINGLE);
    [|destruct (Z.eqb_spec item MENU_MULTI); [|destruct (Z.eqb_spec item MENU_CABLE);
    [|destruct (Z.eqb_spec item MENU_SUBTASK)]]]].
  all: destruct Ht as [-> | [-> | ->]], Hs as [-> | ->].
  all: repeat (destruct Hc as [-> | Hc]); try subst rc.
  all: match goal with |- settings_valid ?s =>
         let v := eval vm_compute in s in change (settings_valid v) end.
  all: unfold settings_valid; cbn.
  all: unfold NOTHING, SINGLE_MEAS, AVERAGE_MEAS, SUB_VALUES, SUB_GRAPHIC, TABLE_ONE_PHASE.
  all: repeat split; first [lia | reflexivity | (intros; discriminate) | (intros; lia)].
Qed.

Lemma passes_cons item items m : passes (item :: items) m = passes items (choose item m).
Proof. reflexivity. Qed.

Lemma passes_valid items m : settings_valid m -> settings_valid (passes items m).
Proof.
  revert m. induction items as [|item items IH]; intros m Hm; [exact Hm|].
  rewrite passes_cons. apply IH, choose_valid, Hm.
Qed.

Lemma main_start_valid : settings_valid main_start.
Proof.
  unfold settings_valid. cbn.
  unfold NOTHING, SINGLE_MEAS, AVERAGE_MEAS, SUB_VALUES, SUB_GRAPHIC, TABLE_ONE_PHASE.
  repeat split; first [lia | reflexivity | discriminate].
Qed.

(** X16: whatever transitions the menu reports, and in whatever order, the
    locals of [main] stay in their ranges: the task is one of the three
    tasks, the view is the numeric or the graphic one (the call of
    [MENU_empty] is never reached), the cable table is always the one-phase
    table (with [MAX_TABLES] = 1 a touch on the title never selects another,
    so a TWO PHASE title is never written), and the counter of idle passes
    does not exceed 10. *)
Theorem main_settings_invariant items :
  (task (passes items main_start) = NOTHING \/ task (passes items main_start) = SINGLE_MEAS
   \/ task (passes items main_start) = AVERAGE_MEAS)
  /\ (subtask (passes items main_start) = SUB_VALUES
      \/ subtask (passes items main_start) = SUB_GRAPHIC)
  /\ table_cable (passes items main_start) = TABLE_ONE_PHASE
  /\ 0 <= responsive_counter (passes items main_start) <= 10.
Proof.
  destruct (passes_valid items main_start main_start_valid) as (H1 & H2 & H3 & H4 & _).
  tauto.
Qed.

(** X17: [main] never initialises the title buffer itself.  Whenever one of
    the two layout functions is called, on any pass after any history of
    transitions, the buffer has been written by [snprintf] and holds the
    title of the task chosen: the uninitialised buffer is never displayed. *)
Theorem init_title_defined items item c :
  init_called (choose item (passes items main_start)) = Some c ->
  exists t, title_of c = Some t
    /\ title_for (task (choose item (passes items main_start))) = Some t
    /\ (t = "SINGLE: ONE PHASE"%string \/ t = "AVERAGE: ONE PHASE"%string).
Proof.
  pose proof (choose_valid item _ (passes_valid items main_start main_start_valid)) as Hv.
  destruct (choose item (passes items main_start)) as [t st tc told stold tcold rc fl tx].
  destruct Hv as (Ht & _ & _ & _ & _ & _ & _ & Etx & Hfl). cbn in *.
  unfold init_called. cbn. intros H.
  destruct fl; [|discriminate]. specialize (Hfl eq_refl).
  assert (Hc : title_of c = tx).
  { destruct (st =? SUB_VALUES); [injection H as <-; reflexivity|].
    destruct (st =? SUB_GRAPHIC); [injection H as <-; reflexivity | discriminate]. }
  rewrite Hc, Etx.
  destruct Ht as [-> | [-> | ->]]; [contradiction | |]; eexists;
    (split; [reflexivity|]); (split; [reflexivity|]); tauto.
Qed.

Lemma init_title_defined_witness :
  exists t, title_of (visual_init (Some "SINGLE: ONE PHASE"%string)) = Some t
    /\ title_for (task (choose MENU_SINGLE (passes [MENU_NONE; MENU_SUBTASK] main_start)))
       = Some t
    /\ (t = "SINGLE: ONE PHASE"%string \/ t = "AVERAGE: ONE PHASE"%string).
Proof.
  apply (init_title_defined [MENU_NONE; MENU_SUBTASK] MENU_SINGLE). reflexivity.
Defined.

Lemma to_uint8_id z : 0 <= z < 256 -> to_uint8 z = z.
Proof. intros H. unfold to_uint8. now rewrite Z.mod_small. Qed.

Lemma choose_keeps_view item m :
  0 <= responsive_counter m <= 2 ->
  subtask (choose item m) = subtask m /\ table_cable (choose item m) = table_cable m
  /\ 0 <= responsive_counter (choose item m)
  /\ responsive_counter (choose item m)
     <= responsive_counter m + (if item =? MENU_NONE then 1 else 0).
Proof.
  destruct m as [t st tc told stold tcold rc fl tx]. cbn. intros Hrc.
  unfold choose, handle_transition. cbn.
  destruct (item =? MENU_NONE).
  - destruct (Z.ltb_spec rc 10); [|lia]. rewrite to_uint8_id by lia.
    unfold note_changes. cbn. repeat branch; cbn; lia.
  - destruct (Z.ltb_spec 2 rc); [lia|].
    repeat branch; unfold note_changes; cbn; repeat branch; cbn; lia.
Qed.

Lemma idle_passes_cons item items :
  idle_passes (item :: items) = (if item =? MENU_NONE then 1 else 0) + idle_passes items.
Proof.
  unfold idle_passes. destruct (Z.eqb_spec item MENU_NONE) as [E|E].
  - rewrite filter_cons_True by exact E. cbn [length]. lia.
  - rewrite filter_cons_False by exact E. lia.
Qed.

Lemma idle_passes_nonneg items : 0 <= idle_passes items.
Proof. unfold idle_passes. lia. Qed.

Lemma passes_keep_view items m :
  0 <= responsive_counter m -> responsive_counter m + idle_passes items <= 2 ->
  subtask (passes items m) = subtask m /\ table_cable (passes items m) = table_cable m.
Proof.
  revert m. induction items as [|item items IH]; intros m H0 H2; [split; reflexivity|].
  rewrite passes_cons. rewrite idle_passes_cons in H2.
  pose proof (idle_passes_nonneg items) as Hn.
  destruct (choose_keeps_view item m) as (E1 & E2 & H3 & H4);
    [destruct (item =? MENU_NONE); lia|].
  destruct (IH (choose item m)) as [E3 E4]; [lia | lia |].
  rewrite E3, E4. tauto.
Qed.

(** X18: the touch counter of [main] slows the view selection down.  Once a
    touch on the title or on the data area has been handled with a task
    chosen, no further touch changes the view or the cable table before
    three passes without a transition have been counted, whatever else is
    touched in between. *)
Theorem view_change_needs_three_idle_passes item items m :
  item = MENU_CABLE \/ item = MENU_SUBTASK -> task m <> NOTHING ->
  idle_passes items <= 2 ->
  responsive_counter (choose item m) = 0
  /\ subtask (passes (item :: items) m) = subtask (choose item m)
  /\ table_cable (passes (item :: items) m) = table_cable (choose item m).
Proof.
  intros Hitem Htask Hidle.
  assert (H0 : responsive_counter (choose item m) = 0).
  { destruct m as [t st tc told stold tcold rc fl tx]. cbn in Htask.
    unfold choose, handle_transition. cbn.
    destruct (Z.eqb_spec t NOTHING); [contradiction|].
    destruct Hitem as [-> | ->]; cbn; repeat branch; unfold note_changes; cbn;
      repeat branch; reflexivity. }
  split; [exact H0|]. rewrite passes_cons. apply passes_keep_view; lia.
Qed.

Lemma view_change_needs_three_idle_passes_witness :
  responsive_counter (choose MENU_SUBTASK (passes [MENU_MULTI; MENU_NONE; MENU_NONE; MENU_NONE]
                                               main_start)) = 0
  /\ subtask (passes (MENU_SUBTASK :: [MENU_NONE; MENU_SUBTASK; MENU_NONE; MENU_SUBTASK])
                (passes [MENU_MULTI; MENU_NONE; MENU_NONE; MENU_NONE] main_start))
     = subtask (choose MENU_SUBTASK (passes [MENU_MULTI; MENU_NONE; MENU_NONE; MENU_NONE]
                                            main_start))
  /\ table_cable (passes (MENU_SUBTASK :: [MENU_NONE; MENU_SUBTASK; MENU_NONE; MENU_SUBTASK])
                    (passes [MENU_MULTI; MENU_NONE; MENU_NONE; MENU_NONE] main_start))
     = table_cable (choose MENU_SUBTASK (passes [MENU_MULTI; MENU_NONE; MENU_NONE; MENU_NONE]
                                                main_start)).
Proof.
  apply (view_change_needs_three_idle_passes MENU_SUBTASK
           [MENU_NONE; MENU_SUBTASK; MENU_NONE; MENU_SUBTASK]
           (passes [MENU_MULTI; MENU_NONE; MENU_NONE; MENU_NONE] main_start)).
  - right. reflexivity.
  - discriminate.
  - vm_compute. discriminate.
Defined.

(** * From the published position to the buzzer and the display *)

Lemma to_int16_id z : -32768 <= z <= 32767 -> to_int16 z = z.
Proof. intros H. unfold to_int16. rewrite Z.mod_small by lia. lia. Qed.

Lemma to_uint16_id z : 0 <= z < 65536 -> to_uint16 z = z.
Proof. intros H. unfold to_uint16. now rewrite Z.mod_small. Qed.

Lemma tenth_of_distance y :
  0 <= y <= 200 -> (MAX_DISTANCE - y) ÷ 10 = (200 - y) / 10 /\ 0 <= (200 - y) / 10 <= 20.
Proof.
  intros Hy. unfold MAX_DISTANCE. rewrite Z.quot_div_nonneg by lia. split; [reflexivity|].
  split; [apply Z.div_pos; lia | apply Z.div_le_upper_bound; lia].
Qed.

(** X19: the index that [main] hands to [BUZZER_set_note] is computed from
    the published distance, [(MAX_DISTANCE - y_distance) / 10].  After every
    data-ready cycle that publishes a non-negative Y, the feedback step is
    defined: the buzzer sounds exactly when the blue button has enabled it
    and neither coordinate is flagged, and the note is then one of the
    entries 0 to 20 of the table of 24, the nearer the cable the higher. *)
Theorem feedback_note_in_table LPAD_LUT RPAD_LUT acos sin cos atan2 W a s s' flag_blue_btn b :
  MEAS_data_ready a = true ->
  calculate_pos LPAD_LUT RPAD_LUT acos sin cos atan2 W a s = Some s' ->
  0 <= Y_Pos s' ->
  exists b',
    buzzer_feedback flag_blue_btn (to_int16 (get_X_Pos s')) (to_int16 (get_Y_Pos s')) b
    = Some b'
    /\ BUZZER_get_status b'
       = flag_blue_btn && negb (X_Pos s' =? CALC_OUTOF_X_RANGE)
         && negb (Y_Pos s' =? CALC_OUTOF_Y_RANGE)
    /\ (BUZZER_get_status b' = true ->
          0 <= (MAX_DISTANCE - Y_Pos s') ÷ 10 <= 20
          /\ note_prescaler ((MAX_DISTANCE - Y_Pos s') ÷ 10) = Some (tim_prescaler b')).
Proof.
  intros Hready H HY.
  pose proof (ready_cycle_displayable _ _ _ _ _ _ W a s s' Hready H) as [HdX HdY].
  unfold MAX_X_DISTANCE, MAX_Y_DISTANCE, CALC_OUTOF_X_RANGE, CALC_OUTOF_Y_RANGE in HdX, HdY.
  unfold get_X_Pos, get_Y_Pos, buzzer_feedback, CALC_OUTOF_X_RANGE, CALC_OUTOF_Y_RANGE.
  rewrite !to_int16_id by lia.
  destruct flag_blue_btn; cbn [andb];
    [| exists (if BUZZER_get_status b then BUZZER_turn_off b else b);
       split; [reflexivity|]; split; [|intros Hs];
       destruct b as [fp [|] tp psc cen pin]; cbn in *; congruence ].
  destruct (Z.eqb_spec (X_Pos s') 2333) as [EX|NX]; cbn [andb negb];
    [ exists (if BUZZER_get_status b then BUZZER_turn_off b else b);
      split; [reflexivity|]; split; [|intros Hs];
      destruct b as [fp [|] tp psc cen pin]; cbn in *; congruence |].
  destruct (Z.eqb_spec (Y_Pos s') 2222) as [EY|NY]; cbn [andb negb];
    [ exists (if BUZZER_get_status b then BUZZER_turn_off b else b);
      split; [reflexivity|]; split; [|intros Hs];
      destruct b as [fp [|] tp psc cen pin]; cbn in *; congruence |].
  destruct (tenth_of_distance (Y_Pos s')) as [Eq Hq]; [lia|].
  unfold isub. rewrite wrap32_id by (unfold MAX_DISTANCE, INT_MIN, INT_MAX; lia).
  rewrite Eq, to_uint8_id by lia.
  destruct (note_prescaler_range ((200 - Y_Pos s') / 10)) as (p & Ep & Hp); [lia|].
  unfold BUZZER_set_note. rewrite Ep. cbn [mbind option_bind].
  eexists. split; [reflexivity|].
  split; [destruct b as [fp [|] tp psc cen pin]; reflexivity|].
  intros _. split; [lia|]. destruct b as [fp [|] tp psc cen pin]; reflexivity.
Qed.

(** X20: the graphic view draws the cable as a red circle of radius 10
    around (120 + x, 220 - y + TITLE_HIGHT).  After every data-ready cycle
    that publishes a non-negative Y, [MENU_visual_act] either draws no circle
    and keeps its erase position, which happens exactly when a coordinate is
    flagged, or draws it with its centre in columns 20 to 220 and rows 65 to
    265 and stores that centre for the next erase: with the bounds of
    [check_display_bounderies] the whole circle lies in columns 10 to 230
    and rows 55 to 275, clear of the title (rows below 45). *)
Theorem position_circle_inside_display LPAD_LUT RPAD_LUT acos sin cos atan2 W a s s' m :
  MEAS_data_ready a = true ->
  calculate_pos LPAD_LUT RPAD_LUT acos sin cos atan2 W a s = Some s' ->
  0 <= Y_Pos s' ->
  exists m' drawn,
    MENU_visual_act (to_int16 (get_X_Pos s')) (to_uint16 (to_int16 (get_Y_Pos s'))) m
    = (m', drawn)
    /\ match drawn with
       | None =>
           m' = m /\ (X_Pos s' = CALC_OUTOF_X_RANGE \/ Y_Pos s' = CALC_OUTOF_Y_RANGE)
       | Some (cx, cy) =>
           X_Pos s' <> CALC_OUTOF_X_RANGE /\ Y_Pos s' <> CALC_OUTOF_Y_RANGE
           /\ cx = 120 + X_Pos s' /\ cy = 220 - Y_Pos s' + TITLE_HIGHT
           /\ 20 <= cx <= 220 /\ 65 <= cy <= 265
           /\ x_circle_old m' = cx /\ y_circle_old m' + TITLE_HIGHT = cy
       end.
Proof.
  intros Hready H HY.
  pose proof (ready_cycle_displayable _ _ _ _ _ _ W a s s' Hready H) as [HdX HdY].
  unfold MAX_X_DISTANCE, MAX_Y_DISTANCE, CALC_OUTOF_X_RANGE, CALC_OUTOF_Y_RANGE in *.
  unfold get_X_Pos, get_Y_Pos, MENU_visual_act, CALC_OUTOF_X_RANGE, CALC_OUTOF_Y_RANGE.
  rewrite !to_int16_id by lia. rewrite (to_uint16_id (Y_Pos s')) by lia.
  destruct (Z.eqb_spec (X_Pos s') 2333) as [EX|NX]; cbn [andb negb];
    [exists m, None; tauto|].
  destruct (Z.eqb_spec (Y_Pos s') 2222) as [EY|NY]; cbn [andb negb];
    [exists m, None; tauto|].
  rewrite !to_uint16_id by (unfold TITLE_HIGHT; rewrite ?to_uint16_id; lia).
  eexists. eexists. split; [reflexivity|]. cbn. unfold TITLE_HIGHT. lia.
Qed.

(** * The further properties on concrete inputs *)

Lemma check_display_bounderies_int_witness :
  X_Pos (check_display_bounderies over_the_edge)
  = (if MAX_X_DISTANCE <? Z.abs (X_Pos over_the_edge)
     then CALC_OUTOF_X_RANGE else X_Pos over_the_edge)
  /\ Y_Pos (check_display_bounderies over_the_edge)
     = (if MAX_Y_DISTANCE <? Y_Pos over_the_edge
        then CALC_OUTOF_Y_RANGE else Y_Pos over_the_edge)
  /\ set_Y_Pos (Y_Pos over_the_edge)
       (set_X_Pos (X_Pos over_the_edge) (check_display_bounderies over_the_edge))
     = over_the_edge.
Proof.
  apply (check_display_bounderies_int over_the_edge).
  unfold in_int, INT_MIN, INT_MAX. cbn. lia.
Defined.

Lemma check_display_bounderies_idempotent_witness :
  check_display_bounderies (check_display_bounderies over_the_edge)
  = check_display_bounderies over_the_edge.
Proof.
  apply (check_display_bounderies_idempotent over_the_edge).
  unfold in_int, INT_MIN, INT_MAX. cbn. lia.
Defined.

Lemma cycle_publishes_displayable_witness : displayable single_cycle_result.
Proof.
  apply (cycle_publishes_displayable flat_LUT flat_LUT coarse_acos coarse_fn coarse_fn
           coarse_atan2 1 (tones 300 300 100 50) startup single_cycle_result);
    [left; reflexivity | evaluate].
Defined.

Lemma idle_calls_change_nothing_witness :
  run flat_LUT flat_LUT coarse_acos coarse_fn coarse_fn coarse_atan2 3
    [idle; tones 300 300 100 50; idle] after_first_cycle
  = run flat_LUT flat_LUT coarse_acos coarse_fn coarse_fn coarse_atan2 3
      (filter (fun a => MEAS_data_ready a = true) [idle; tones 300 300 100 50; idle])
      after_first_cycle.
Proof.
  apply (idle_calls_change_nothing flat_LUT flat_LUT coarse_acos coarse_fn coarse_fn
           coarse_atan2 3 [idle; tones 300 300 100 50; idle] after_first_cycle).
  reflexivity.
Defined.

Lemma window_switch_overruns_witness :
  (exists s',
     run flat_LUT flat_LUT coarse_acos coarse_fn coarse_fn coarse_atan2 1
       [tones 300 300 100 50; tones 1 1 1 1] after_first_cycle = Some s'
     /\ avg_counter s' = avg_counter after_first_cycle + 2
     /\ LPAD_FFT_distance s' = LPAD_FFT_distance after_first_cycle
     /\ RPAD_FFT_distance s' = RPAD_FFT_distance after_first_cycle
     /\ LHALL_FFT_voltage s' = LHALL_FFT_voltage after_first_cycle
     /\ RHALL_FFT_voltage s' = RHALL_FFT_voltage after_first_cycle)
  /\ run flat_LUT flat_LUT coarse_acos coarse_fn coarse_fn coarse_atan2 1
       [tones 300 300 100 50; tones 1 1 1 1; tones 2 2 2 2] after_first_cycle = None.
Proof.
  assert (Hs : arrays_sized after_first_cycle) by (repeat split).
  assert (Hc : 1 <= avg_counter after_first_cycle <= 2) by (cbn; lia).
  split.
  - apply (window_switch_overruns flat_LUT flat_LUT coarse_acos coarse_fn coarse_fn
             coarse_atan2 [tones 300 300 100 50; tones 1 1 1 1] after_first_cycle Hs Hc).
    + repeat constructor.
    + cbn. lia.
  - apply (window_switch_overruns flat_LUT flat_LUT coarse_acos coarse_fn coarse_fn
             coarse_atan2 [tones 300 300 100 50; tones 1 1 1 1; tones 2 2 2 2]
             after_first_cycle Hs Hc).
    + repeat constructor.
    + cbn. lia.
Defined.

Lemma split_Array_demultiplexes_witness :
  split_Array 2 ramp two_samples =
  Some (mkBuffers (channel 2 ramp 0) (channel 2 ramp 1) (channel 2 ramp 2) (channel 2 ramp 3))
  /\ (forall k j, 0 <= j < 2 -> channel 2 ramp k !! Z.to_nat j = Some (ramp (k + 4 * j)))
  /\ forall k, Z.of_nat (length (channel 2 ramp k)) = 2.
Proof.
  apply (split_Array_demultiplexes 2 ramp two_samples); [lia | repeat split].
Defined.

Lemma clear_Buffer_clears_pairs_witness :
  clear_Buffer 3 three_samples =
  Some (mkBuffers (cleared_to (2 * (3 ÷ 2)) (LPAD_samples three_samples))
                  (cleared_to (2 * (3 ÷ 2)) (RPAD_samples three_samples))
                  (cleared_to (2 * (3 ÷ 2)) (LHALL_samples three_samples))
                  (cleared_to (2 * (3 ÷ 2)) (RHALL_samples three_samples)))
  /\ (forall arr, Z.of_nat (length arr) = 3 -> Z.even 3 = true ->
        cleared_to (2 * (3 ÷ 2)) arr = replicate (Z.to_nat 3) (S754_zero false))
  /\ (forall arr, Z.of_nat (length arr) = 3 -> Z.odd 3 = true ->
        cleared_to (2 * (3 ÷ 2)) arr !! Z.to_nat (3 - 1) = arr !! Z.to_nat (3 - 1)).
Proof.
  apply (clear_Buffer_clears_pairs 3 three_samples); [lia | repeat split].
Defined.

Lemma feedback_note_in_table_witness :
  exists b',
    buzzer_feedback true (to_int16 (get_X_Pos single_cycle_result))
      (to_int16 (get_Y_Pos single_cycle_result)) buzzer_idle = Some b'
    /\ BUZZER_get_status b'
       = true && negb (X_Pos single_cycle_result =? CALC_OUTOF_X_RANGE)
         && negb (Y_Pos single_cycle_result =? CALC_OUTOF_Y_RANGE)
    /\ (BUZZER_get_status b' = true ->
          0 <= (MAX_DISTANCE - Y_Pos single_cycle_result) ÷ 10 <= 20
          /\ note_prescaler ((MAX_DISTANCE - Y_Pos single_cycle_result) ÷ 10)
             = Some (tim_prescaler b')).
Proof.
  apply (feedback_note_in_table flat_LUT flat_LUT coarse_acos coarse_fn coarse_fn
           coarse_atan2 1 (tones 300 300 100 50) startup single_cycle_result true
           buzzer_idle);
    [reflexivity | evaluate | cbn; lia].
Defined.

Lemma position_circle_inside_display_witness :
  exists m' drawn,
    MENU_visual_act (to_int16 (get_X_Pos single_cycle_result))
      (to_uint16 (to_int16 (get_Y_Pos single_cycle_result))) (menu_reset [])
    = (m', drawn)
    /\ match drawn with
       | None =>
           m' = menu_reset []
           /\ (X_Pos single_cycle_result = CALC_OUTOF_X_RANGE
               \/ Y_Pos single_cycle_result = CALC_OUTOF_Y_RANGE)
       | Some (cx, cy) =>
           X_Pos single_cycle_result <> CALC_OUTOF_X_RANGE
           /\ Y_Pos single_cycle_result <> CALC_OUTOF_Y_RANGE
           /\ cx = 120 + X_Pos single_cycle_result
           /\ cy = 220 - Y_Pos single_cycle_result + TITLE_HIGHT
           /\ 20 <= cx <= 220 /\ 65 <= cy <= 265
           /\ x_circle_old m' = cx /\ y_circle_old m' + TITLE_HIGHT = cy
       end.
Proof.
  apply (position_circle_inside_display flat_LUT flat_LUT coarse_acos coarse_fn coarse_fn
           coarse_atan2 1 (tones 300 300 100 50) startup single_cycle_result
           (menu_reset []));
    [reflexivity | evaluate | cbn; lia].
Defined.

Lemma between_pads_offset_sign_witness :
  (dlt (coarse_acos (cos_alpha_of 50 50)) (coarse_acos (cos_beta_of 50 50)) = true ->
     - MAX_X_DISTANCE
       <= X_Pos (solve coarse_acos coarse_fn coarse_fn coarse_atan2
                   (cos_alpha_of 50 50) (cos_beta_of 50 50) single_cycle_result) <= 0
     \/ X_Pos (solve coarse_acos coarse_fn coarse_fn coarse_atan2
                 (cos_alpha_of 50 50) (cos_beta_of 50 50) single_cycle_result)
        = CALC_OUTOF_X_RANGE)
  /\ (dlt (coarse_acos (cos_alpha_of 50 50)) (coarse_acos (cos_beta_of 50 50)) = false ->
     0 <= X_Pos (solve coarse_acos coarse_fn coarse_fn coarse_atan2
                   (cos_alpha_of 50 50) (cos_beta_of 50 50) single_cycle_result)
       <= MAX_X_DISTANCE
     \/ X_Pos (solve coarse_acos coarse_fn coarse_fn coarse_atan2
                 (cos_alpha_of 50 50) (cos_beta_of 50 50) single_cycle_result)
        = CALC_OUTOF_X_RANGE).
Proof.
  apply (between_pads_offset_sign coarse_acos coarse_fn coarse_fn coarse_atan2
           (cos_alpha_of 50 50) (cos_beta_of 50 50) single_cycle_result).
  evaluate.
Defined.

